(** * mcp-mobile-interaction: the screen-observation core

    A shallow embedding of the platform UI adapters (src/platforms/android.ts,
    src/platforms/ios.ts), the element filter (src/utils/ui-filter.ts) and the
    observation orchestrator with its stability detector (src/utils/observe.ts),
    followed by the properties the specification states about them and by
    further properties of the adapters and of the tools that poll.

    Conventions of the embedding.
    - A JavaScript string is a [string]: a sequence of code units, here the
      code units below 256.
    - A JavaScript number is a double; the model holds the finite doubles
      as the rationals [Q] they are, and every operation that rounds in
      JavaScript rounds here ([toDouble]).  Infinity and NaN, which only a
      coordinate beyond 10^308 produces, are outside the model.
    - [undefined] and [null] are [None].
    - An asynchronous function is a state transformer over a scripted world:
      the script lists what the device bridge answers, in call order, and the
      world records the calls made. *)

From Stdlib Require Import ZArith QArith Qround Qabs Ascii String List Lia.
From Stdlib Require Import Numbers.DecimalString Numbers.DecimalN.
From stdpp Require Import base option list.
Import ListNotations.

Open Scope string_scope.

(** ** JavaScript built-ins the code relies on *)

Module Js.

Definition number := Q.

Definition dquote : ascii := "034"%char.
Definition LF : ascii := "010"%char.
Definition NUL : ascii := "000"%char.

(** The class [\s] of regular expressions and of [trim]: TAB, LF, VT, FF,
    CR, SP and NBSP. *)
Definition isWhiteSpace (c : ascii) : bool :=
  existsb (Ascii.eqb c) ["009"; "010"; "011"; "012"; "013"; " "; "160"]%char.

(** The class [\d]. *)
Definition isDigit (c : ascii) : bool :=
  (48 <=? nat_of_ascii c)%nat && (nat_of_ascii c <=? 57)%nat.

Definition isEmpty (s : string) : bool :=
  match s with EmptyString => true | String _ _ => false end.

Fixpoint trimStart (s : string) : string :=
  match s with
  | EmptyString => EmptyString
  | String c s' => if isWhiteSpace c then trimStart s' else s
  end.

Fixpoint trimEnd (s : string) : string :=
  match s with
  | EmptyString => EmptyString
  | String c s' =>
      match trimEnd s' with
      | EmptyString => if isWhiteSpace c then EmptyString else String c EmptyString
      | t => String c t
      end
  end.

(** [s.trim()] *)
Definition trim (s : string) : string := trimEnd (trimStart s).

(** [s.split(sep)] for a separator of one character; the result is never
    empty. *)
Fixpoint split (sep : ascii) (s : string) : list string :=
  match s with
  | EmptyString => [EmptyString]
  | String c s' =>
      if Ascii.eqb c sep then EmptyString :: split sep s'
      else match split sep s' with
           | piece :: pieces => String c piece :: pieces
           | [] => [String c EmptyString]
           end
  end.

(** [a.pop()] read as an expression: the last element. *)
Definition pop (a : list string) : option string := last a.

(** [a.join(sep)] *)
Fixpoint join (sep : string) (a : list string) : string :=
  match a with
  | [] => EmptyString
  | [s] => s
  | s :: rest => s ++ sep ++ join sep rest
  end.

(** [s.replace(/\0/g, empty)]: every NUL code unit removed. *)
Fixpoint stripNul (s : string) : string :=
  match s with
  | EmptyString => EmptyString
  | String c s' => if Ascii.eqb c NUL then stripNul s' else String c (stripNul s')
  end.

Definition digitValue (c : ascii) : Z := Z.of_nat (nat_of_ascii c) - 48.

Fixpoint parseDigits (acc : Z) (s : string) : Z :=
  match s with
  | String c s' => if isDigit c then parseDigits (10 * acc + digitValue c) s' else acc
  | EmptyString => acc
  end.

(** Double precision.  [pow2 e] is two to the power [e]; [binade a] is the
    exponent [e] with [2^e <= a < 2^(e+1)] of a positive [a]. *)
Definition pow2 (e : Z) : Q :=
  if (0 <=? e)%Z then inject_Z (2 ^ e) else 1 # Z.to_pos (2 ^ (- e)).

Definition binade (a : Q) : Z :=
  if Qle_bool 1 a then Z.log2 (Qfloor a) else (- Z.log2_up (Qceiling (/ a)))%Z.

(** The nearest integer, a tie going to the even one. *)
Definition roundHalfEven (q : Q) : Z :=
  let f := Qfloor q in
  match (q - inject_Z f ?= 1 # 2)%Q with
  | Lt => f
  | Gt => (f + 1)%Z
  | Eq => if Z.even f then f else (f + 1)%Z
  end.

(** [toDouble q]: the double nearest to the real number [q], a tie going to
    the even significand, which is what an arithmetic operation or a
    conversion whose exact result is [q] returns.  The significand has 53
    bits and the least exponent of its last bit is -1074. *)
Definition toDouble (q : Q) : number :=
  if Qeq_bool q 0 then 0%Q
  else
    let e := Z.max (-1074) (binade (Qabs q) - 52) in
    Qred (inject_Z (roundHalfEven (q / pow2 e)) * pow2 e).

(** [a + b], [a - b] and [a / b] on numbers. *)
Definition fadd (a b : number) : number := toDouble (a + b).
Definition fsub (a b : number) : number := toDouble (a - b).
Definition fdiv (a b : number) : number := toDouble (a / b).

(** [parseInt(s, 10)] on a run of decimal digits, which is what every
    capture of [(\d+)] is: the double nearest to the integer the digits
    write.  Signs, leading blanks and the NaN of a string without digits do
    not reach the code modelled here. *)
Definition parseInt (s : string) : number := toDouble (inject_Z (parseDigits 0 s)).

(** [Math.round]: the nearest integer, a half rounding towards plus
    infinity. *)
Definition Math_round (q : number) : number := inject_Z (Qfloor (q + (1 # 2))).

(** [a < b] on numbers. *)
Definition ltb (a b : number) : bool := negb (Qle_bool b a).

(** [v === s] for a value [v] that is a string or [undefined]. *)
Definition strictEq (v : option string) (s : string) : bool :=
  match v with
  | Some t => String.eqb t s
  | None => false
  end.

(** The template literal of a boolean. *)
Definition Boolean_toString (b : bool) : string := if b then "true" else "false".

End Js.

(** ** Regular expressions

    The subset of the JavaScript regular expressions the adapters are written
    in: literal runs, a quantified character class (greedy or lazy, with its
    bounds) and capture groups, matched by backtracking in the priority order
    of the language. *)

Module Regex.

Inductive item : Type :=
  | Lit (s : string)
  | Rep (greedy : bool) (lo : nat) (hi : option nat) (cls : ascii -> bool)
  | Open
  | Close.

Definition regex := list item.

(** A match: [m[0]], the captured groups [m[1]], [m[2]], ... and the
    subject after the match. *)
Record result : Type := mkResult { whole : string; groups : list string; rest : string }.

(** [strip l s]: [s] without the literal [l] at its front. *)
Fixpoint strip (l s : string) : option string :=
  match l, s with
  | EmptyString, _ => Some s
  | String a l', String b s' => if Ascii.eqb a b then strip l' s' else None
  | String _ _, EmptyString => None
  end.

Definition below (n : nat) (hi : option nat) : bool :=
  match hi with
  | None => true
  | Some h => (n <? h)%nat
  end.

(** [consumed s0 s]: the text between the position [s0] and the later
    position [s] of one subject string. *)
Definition consumed (s0 s : string) : string :=
  substring 0 (String.length s0 - String.length s) s0.

Section Quantifier.
Context {A : Type}.
Variables (greedy : bool) (lo : nat) (hi : option nat) (cls : ascii -> bool).
Variable k : string -> option A.

(** [n] characters of the class are consumed already; a greedy quantifier
    tries one more character before it tries the continuation [k], a lazy
    one the other way round. *)
Fixpoint rep (n : nat) (s : string) {struct s} : option A :=
  if greedy then
    match
      match s with
      | String c s' => if below n hi && cls c then rep (S n) s' else None
      | EmptyString => None
      end
    with
    | Some r => Some r
    | None => if (lo <=? n)%nat then k s else None
    end
  else
    match (if (lo <=? n)%nat then k s else None) with
    | Some r => Some r
    | None =>
        match s with
        | String c s' => if below n hi && cls c then rep (S n) s' else None
        | EmptyString => None
        end
    end.
End Quantifier.

(** [run r opened caps s]: match [r] at the front of [s]; [opened] holds the
    start positions of the groups still open, [caps] the groups closed so
    far. *)
Fixpoint run (r : regex) (opened : list string) (caps : list string)
    (s : string) {struct r} : option (list string * string) :=
  match r with
  | [] => Some (caps, s)
  | Lit l :: r' =>
      match strip l s with
      | Some s' => run r' opened caps s'
      | None => None
      end
  | Rep greedy lo hi cls :: r' => rep greedy lo hi cls (run r' opened caps) 0 s
  | Open :: r' => run r' (s :: opened) caps s
  | Close :: r' =>
      match opened with
      | s0 :: opened' => run r' opened' (caps ++ [consumed s0 s]) s
      | [] => run r' [] caps s
      end
  end.

(** A match attempt at the current position. *)
Definition exec_at (r : regex) (s : string) : option result :=
  match run r [] [] s with
  | Some (caps, s') => Some (mkResult (consumed s s') caps s')
  | None => None
  end.

(** The leftmost match: [RegExp.prototype.exec] without the global flag,
    [String.prototype.match]. *)
Fixpoint search (r : regex) (s : string) : option result :=
  match exec_at r s with
  | Some m => Some m
  | None =>
      match s with
      | String _ s' => search r s'
      | EmptyString => None
      end
  end.

(** The successive results of [exec] on a global regular expression, each
    search resuming where the previous match ended.  The subject bounds the
    number of matches of an expression that cannot match the empty string;
    [fuel] is that bound. *)
Fixpoint exec_loop (fuel : nat) (r : regex) (s : string) : list result :=
  match fuel with
  | O => []
  | S fuel' =>
      match search r s with
      | Some m => m :: exec_loop fuel' r (rest m)
      | None => []
      end
  end.

Definition exec_all (r : regex) (s : string) : list result :=
  exec_loop (String.length s) r s.

(** [m[i]] for [i >= 1]; a group that did not take part is [undefined], and
    the expressions of the adapters have none. *)
Definition group (i : nat) (m : result) : string := nth (i - 1) (groups m) EmptyString.

End Regex.

(** ** The canonical element model (src/types.ts) *)

Module Types.
Import Js.

Inductive Platform : Type := android | ios.

(** The bounds rectangle of the interface UiElement (src/types.ts, which the
    sources carry at the end of src/tools/press-key.ts). *)
Record Bounds : Type := mkBounds {
    x : number;
    y : number;
    width : number;
    height : number
  }.

(** The interface UiElement of src/types.ts; the last three fields are
    optional.  [index] is a counter that starts at zero, hence a natural
    number. *)
Record UiElement : Type := mkUiElement {
    index : nat;
    type : string;
    text : string;
    bounds : Bounds;
    center_x : number;
    center_y : number;
    clickable : bool;
    resource_id : option string;
    enabled : option bool;
    focused : option bool
  }.

(** [new Error(message)] *)
Inductive Error : Type := mkError (message : string).

End Types.

(** ** Asynchronous code over a scripted world *)

Module Async.
Import Types.

(** What awaiting a promise yields: its value, its rejection, or [Stuck]
    when the script of the world has no answer left for a call (a limit of
    the script, not a behaviour of the program). *)
Inductive outcome (W A : Type) : Type :=
  | Resolved (a : A) (w : W)
  | Rejected (e : Error) (w : W)
  | Stuck.
Arguments Resolved {W A} a w.
Arguments Rejected {W A} e w.
Arguments Stuck {W A}.

Definition async (W A : Type) : Type := W -> outcome W A.

Definition ret {W A} (a : A) : async W A := fun w => Resolved a w.

Definition throw {W A} (e : Error) : async W A := fun w => Rejected e w.

Definition bind {W A B} (m : async W A) (f : A -> async W B) : async W B :=
  fun w =>
    match m w with
    | Resolved a w' => f a w'
    | Rejected e w' => Rejected e w'
    | Stuck => Stuck
    end.

(** [try { m } catch { h }] *)
Definition try_catch {W A} (m : async W A) (h : async W A) : async W A :=
  fun w =>
    match m w with
    | Resolved a w' => Resolved a w'
    | Rejected _ w' => h w'
    | Stuck => Stuck
    end.

(** [Promise.all([a, b])]: both operations are started, [a] first, and both
    run to their end; the result rejects when one of them does.  When both
    reject, JavaScript reports the rejection that settles first; the model
    reports the one of [a]. *)
Definition all2 {W A B} (a : async W A) (b : async W B) : async W (A * B) :=
  fun w =>
    match a w with
    | Resolved va w1 =>
        match b w1 with
        | Resolved vb w2 => Resolved (va, vb) w2
        | Rejected e w2 => Rejected e w2
        | Stuck => Stuck
        end
    | Rejected e w1 =>
        match b w1 with
        | Resolved _ w2 => Rejected e w2
        | Rejected _ w2 => Rejected e w2
        | Stuck => Stuck
        end
    | Stuck => Stuck
    end.

End Async.

Declare Scope async_scope.
Delimit Scope async_scope with async.
Notation "x <- m ;; k" := (Async.bind m (fun x => k))
  (at level 100, m at next level, right associativity) : async_scope.
Notation "m ;;; k" := (Async.bind m (fun _ => k))
  (at level 100, right associativity) : async_scope.

(** ** The element filter (src/utils/ui-filter.ts) *)

Module UiFilter.
Import Js Types.

(** The callback of the filter: [el.text.trim() !== empty || el.clickable]. *)
Definition relevant (el : UiElement) : bool :=
  negb (isEmpty (trim (text el))) || clickable el.

(** [includeAll] is the second parameter with its default [false], so
    [None] is the call that leaves it out. *)
Definition filterUiElements (elements : list UiElement) (includeAll : option bool)
    : list UiElement :=
  if default false includeAll then elements
  else List.filter relevant elements.

End UiFilter.

(** ** The command executor (src/utils/exec.ts) and the Android adapter
       (src/platforms/android.ts) *)

Module Android.
Import Js Types Async Regex.
Local Open Scope async_scope.

(** What the child process answers to one command. *)
Inductive Answer : Type :=
  | Exited (stdout : string)
  | Failed (stderr : string) (message : string).

Inductive Event : Type :=
  | Exec (command : string) (timeout : Z)
  | Detached (command : string) (timeout : Z)
  | Sleep (ms : Z).

(** The bridge answers the awaited commands in the order of [answers];
    [trace] records every command started and every timed wait. *)
Record World : Type := mkWorld { answers : list Answer; trace : list Event }.

Definition DEFAULT_TIMEOUT : Z := 15000%Z.

(** [exec(command, { timeout })], awaited. *)
Definition exec (command : string) (timeout : option Z) : async World string :=
  fun w =>
    match answers w with
    | [] => Stuck
    | a :: script =>
        let w' := mkWorld script (trace w ++ [Exec command (default DEFAULT_TIMEOUT timeout)]) in
        match a with
        | Exited stdout => Resolved stdout w'
        | Failed stderr message =>
            let msg := if isEmpty (trim stderr) then message else trim stderr in
            Rejected (mkError ("Command failed: " ++ command ++ String LF msg)) w'
        end
    end.

(** [exec(command).catch(() => {})] without [await]: the command is started
    and its outcome is dropped. *)
Definition exec_detached (command : string) (timeout : option Z) : async World unit :=
  fun w =>
    Resolved tt (mkWorld (answers w)
                   (trace w ++ [Detached command (default DEFAULT_TIMEOUT timeout)])).

Definition delay (ms : Z) : async World unit :=
  fun w => Resolved tt (mkWorld (answers w) (trace w ++ [Sleep ms])).

Definition adb (deviceId cmd : string) : string :=
  "adb -s " ++ deviceId ++ " " ++ cmd.

(** [/<\?xml[\s\S]*<\/hierarchy>/] and [/<hierarchy[\s\S]*<\/hierarchy>/] *)
Definition xmlRegex : regex :=
  [Lit "<?xml"; Rep true 0 None (fun _ => true); Lit "</hierarchy>"].
Definition altRegex : regex :=
  [Lit "<hierarchy"; Rep true 0 None (fun _ => true); Lit "</hierarchy>"].

Definition extractXml (output : string) : option string :=
  match search xmlRegex output with
  | Some xmlMatch => Some (whole xmlMatch)
  | None =>
      match search altRegex output with
      | Some altMatch => Some (whole altMatch)
      | None => None
      end
  end.

Definition dumpUiViaTty (deviceId : string) : async World (option string) :=
  output <- exec (adb deviceId "exec-out uiautomator dump /dev/tty") (Some 30000%Z) ;;
  let cleaned := trim (stripNul output) in
  ret (extractXml cleaned).

Definition dumpUiViaFile (deviceId : string) : async World (option string) :=
  let remotePath := "/sdcard/window_dump.xml" in
  exec (adb deviceId ("shell uiautomator dump " ++ remotePath)) (Some 30000%Z) ;;;
  output <- exec (adb deviceId ("shell cat " ++ remotePath)) (Some 10000%Z) ;;
  exec_detached (adb deviceId ("shell rm -f " ++ remotePath)) None ;;;
  let cleaned := trim (stripNul output) in
  ret (extractXml cleaned).

(** The expression [extractAttr] builds from [name]: the name, an equals
    sign, a double quote, a group of characters other than the double quote
    (greedy, possibly none) and a double quote.  The names the parser asks
    for hold no character that is special in a regular expression. *)
Definition attrRegex (name : string) : regex :=
  [Lit (name ++ "=" ++ String dquote EmptyString);
   Open; Rep true 0 None (fun c => negb (Ascii.eqb c dquote)); Close;
   Lit (String dquote EmptyString)].

Definition extractAttr (attrs name : string) : option string :=
  match search (attrRegex name) attrs with
  | Some m => Some (group 1 m)
  | None => None
  end.

(** [/<node\s+([^>]+?)\/?>/g] *)
Definition nodeRegex : regex :=
  [Lit "<node"; Rep true 1 None isWhiteSpace;
   Open; Rep false 1 None (fun c => negb (Ascii.eqb c ">")); Close;
   Rep true 0 (Some 1%nat) (Ascii.eqb "/"); Lit ">"].

(** [/\[(\d+),(\d+)\]\[(\d+),(\d+)\]/] *)
Definition boundsRegex : regex :=
  [Lit "["; Open; Rep true 1 None isDigit; Close;
   Lit ","; Open; Rep true 1 None isDigit; Close;
   Lit "]["; Open; Rep true 1 None isDigit; Close;
   Lit ","; Open; Rep true 1 None isDigit; Close;
   Lit "]"].

(** [/^[^:]+:id\//], anchored at the start of the subject. *)
Definition packagePrefixRegex : regex :=
  [Rep true 1 None (fun c => negb (Ascii.eqb c ":")); Lit ":id/"].

(** [s.replace(/^[^:]+:id\//, empty)] *)
Definition stripPackagePrefix (s : string) : string :=
  match exec_at packagePrefixRegex s with
  | Some m => rest m
  | None => s
  end.

(** The body of the loop of [parseUiXml] for one match of [nodeRegex], whose
    first group is [attrs]; [None] is the [continue] of a node without
    parsable bounds. *)
Definition parseNode (index : nat) (attrs : string) : option UiElement :=
  let type :=
    match extractAttr attrs "class" with
    | Some c => default "Unknown" (pop (split "." c))
    | None => "Unknown"
    end in
  let text := default EmptyString (extractAttr attrs "text") in
  let contentDesc := default EmptyString (extractAttr attrs "content-desc") in
  let clickable := strictEq (extractAttr attrs "clickable") "true" in
  let boundsStr := default EmptyString (extractAttr attrs "bounds") in
  let rawResourceId := default EmptyString (extractAttr attrs "resource-id") in
  let enabled := strictEq (extractAttr attrs "enabled") "true" in
  let focused := strictEq (extractAttr attrs "focused") "true" in
  match search boundsRegex boundsStr with
  | None => None
  | Some boundsMatch =>
      let x1 := parseInt (group 1 boundsMatch) in
      let y1 := parseInt (group 2 boundsMatch) in
      let x2 := parseInt (group 3 boundsMatch) in
      let y2 := parseInt (group 4 boundsMatch) in
      let displayText := if isEmpty text then contentDesc else text in
      let resourceId :=
        if isEmpty rawResourceId then None
        else Some (stripPackagePrefix rawResourceId) in
      Some (mkUiElement index type displayText
              (mkBounds x1 y1 (fsub x2 x1) (fsub y2 y1))
              (Math_round (fdiv (fadd x1 x2) 2%Q))
              (Math_round (fdiv (fadd y1 y2) 2%Q))
              clickable resourceId (Some enabled) (Some focused))
  end.

(** The loop of [parseUiXml] over the successive matches; [index] advances
    only when an element is pushed. *)
Fixpoint parseNodes (index : nat) (nodes : list string) : list UiElement :=
  match nodes with
  | [] => []
  | attrs :: nodes' =>
      match parseNode index attrs with
      | Some el => el :: parseNodes (S index) nodes'
      | None => parseNodes index nodes'
      end
  end.

Definition parseUiXml (xml : string) : list UiElement :=
  parseNodes 0 (map (group 1) (exec_all nodeRegex xml)).

Definition treeParseError : Error :=
  mkError "Failed to parse UI tree XML from uiautomator dump after 4 attempts. The screen may be in transition — try again after a short delay.".

(** The body of the [try] for one strategy: [Some elements] is the [return]
    inside the loop. *)
Definition attempt (strategy : async World (option string))
      : async World (option (list UiElement)) :=
  xml <- strategy ;;
  match xml with
  | Some xml =>
      if isEmpty xml then ret None
      else
        let elements := parseUiXml xml in
        if (0 <? List.length elements)%nat then ret (Some elements) else ret None
  | None => ret None
  end.

(** The loop over the strategies: a strategy that rejects is caught and the
    next one is tried; [None] is the end of the loop. *)
Fixpoint tryStrategies (strategies : list (async World (option string)))
      : async World (option (list UiElement)) :=
  match strategies with
  | [] => ret None
  | strategy :: strategies' =>
      found <- try_catch (attempt strategy) (ret None) ;;
      match found with
      | Some elements => ret (Some elements)
      | None => tryStrategies strategies'
      end
  end.

Section GetUiTree.
(** [getFirstDeviceId] enumerates the devices; here it is any
    asynchronous operation that yields an identifier or rejects. *)
Variable getFirstDeviceId : async World string.

Definition resolveDevice (deviceId : option string) : async World string :=
  match deviceId with
  | Some id => ret id
  | None => getFirstDeviceId
  end.

(** tty, file, wait and tty, wait and file *)
Definition strategies (id : string) : list (async World (option string)) :=
  [dumpUiViaTty id;
   dumpUiViaFile id;
   (delay 800%Z ;;; dumpUiViaTty id);
   (delay 800%Z ;;; dumpUiViaFile id)].

Definition getUiTree (deviceId : option string) : async World (list UiElement) :=
  id <- resolveDevice deviceId ;;
  found <- tryStrategies (strategies id) ;;
  match found with
  | Some elements => ret elements
  | None => throw treeParseError
  end.
End GetUiTree.

End Android.

(** ** The iOS adapter (src/platforms/ios.ts): the describe-all parser *)

(** One record of the inspection bridge as [JSON.parse] returns it, read at
    the types the canonical element gives its fields; a key that is missing
    or [null] is [None]. *)
Module Idb.
Import Js.

Record Frame : Type := mkFrame {
    x : option number;
    y : option number;
    width : option number;
    height : option number
  }.

Record Entry : Type := mkEntry {
    frame : option Frame;
    AXIdentifier : option string;
    accessibilityIdentifier : option string;
    identifier : option string;
    type : option string;
    AXType : option string;
    title : option string;
    AXLabel : option string;
    label : option string;
    enabled : option bool
  }.

Definition emptyFrame : Frame := mkFrame None None None None.

End Idb.

Module Ios.
Import Js Types.

(** [a ?? b]: [b] only when [a] is [undefined] or [null]; a value that is
    present is kept, the empty string included. *)
Definition coalesce {A} (a b : option A) : option A :=
  match a with
  | Some v => Some v
  | None => b
  end.

Section Parse.
(** [JSON.parse] on one line.  [None] stands for every line the [catch]
    of the loop skips: text that is not JSON, and the value [null], on
    which the first property access throws. *)
Variable JSON_parse : string -> option Idb.Entry.

(** The body of the [try] for one parsed record. *)
Definition entryElement (index : nat) (entry : Idb.Entry) : UiElement :=
  let frame := default Idb.emptyFrame (Idb.frame entry) in
  let x := default 0%Q (Idb.x frame) in
  let y := default 0%Q (Idb.y frame) in
  let width := default 0%Q (Idb.width frame) in
  let height := default 0%Q (Idb.height frame) in
  let resourceId :=
    coalesce (Idb.AXIdentifier entry)
      (coalesce (Idb.accessibilityIdentifier entry) (Idb.identifier entry)) in
  mkUiElement index
    (default "Unknown" (coalesce (Idb.type entry) (Idb.AXType entry)))
    (default EmptyString
       (coalesce (Idb.title entry) (coalesce (Idb.AXLabel entry) (Idb.label entry))))
    (mkBounds x y width height)
    (Math_round (fadd x (fdiv width 2%Q)))
    (Math_round (fadd y (fdiv height 2%Q)))
    (default true (Idb.enabled entry))
    resourceId
    (Some (default true (Idb.enabled entry)))
    None.

Fixpoint parseLines (index : nat) (lines : list string) : list UiElement :=
  match lines with
  | [] => []
  | line :: lines' =>
      match JSON_parse line with
      | Some entry => entryElement index entry :: parseLines (S index) lines'
      | None => parseLines index lines'
      end
  end.

Definition parseIdbDescribeAll (output : string) : list UiElement :=
  parseLines 0 (split LF (trim output)).
End Parse.

End Ios.

(** ** The observation orchestrator and the stability detector
       (src/utils/observe.ts) *)

Module Observe.
Import Js Types Async UiFilter.
Local Open Scope async_scope.

(** The constructors of the mode live in a module of their own because the
    result has a field named [screenshot] too. *)
Module Mode.
Inductive t : Type := none | ui_tree | screenshot | both.
End Mode.
Definition ObserveMode : Type := Mode.t.

Record Screenshot : Type := mkScreenshot {
    base64 : string;
    shot_width : number;
    shot_height : number
  }.

Record ObserveOptions : Type := mkObserveOptions {
    mode : ObserveMode;
    platform : Platform;
    deviceId : option string;
    delayMs : option Z;
    stabilize : option bool;
    stabilizeTimeoutMs : option Z;
    stabilizePollMs : option Z;
    filterUi : option bool
  }.

Record ObservationResult : Type := mkObservationResult {
    uiTree : option (list UiElement);
    screenshot : option Screenshot
  }.

Inductive Call : Type :=
  | GetUiTree (platform : Platform) (deviceId : option string)
  | GetScreenshot (platform : Platform) (deviceId : option string)
  | Delay (ms : Z).

(** The device as the orchestrator sees it: [clock] holds the successive
    readings of [Date.now()], [uiTrees] and [screenshots] what the platform
    adapter yields for the successive captures (a tree or a shot, or the
    error it rejects with), [calls] the captures and waits made so far. *)
Record World : Type := mkWorld {
    clock : list Z;
    uiTrees : list (Error + list UiElement);
    screenshots : list (Error + Screenshot);
    calls : list Call
  }.

Definition Date_now : async World Z :=
  fun w =>
    match clock w with
    | [] => Stuck
    | now :: readings => Resolved now (mkWorld readings (uiTrees w) (screenshots w) (calls w))
    end.

(** The dispatch on the platform; the adapter behind it is the scripted
    device. *)
Definition getUiTree (platform : Platform) (deviceId : option string)
    : async World (list UiElement) :=
  fun w =>
    match uiTrees w with
    | [] => Stuck
    | capture :: captures =>
        let w' := mkWorld (clock w) captures (screenshots w)
                    (calls w ++ [GetUiTree platform deviceId]) in
        match capture with
        | inr tree => Resolved tree w'
        | inl e => Rejected e w'
        end
    end.

(** The platform screenshot followed by [compressScreenshot]. *)
Definition getScreenshot (platform : Platform) (deviceId : option string)
    : async World Screenshot :=
  fun w =>
    match screenshots w with
    | [] => Stuck
    | capture :: captures =>
        let w' := mkWorld (clock w) (uiTrees w) captures
                    (calls w ++ [GetScreenshot platform deviceId]) in
        match capture with
        | inr shot => Resolved shot w'
        | inl e => Rejected e w'
        end
    end.

Definition delay (ms : Z) : async World unit :=
  fun w => Resolved tt (mkWorld (clock w) (uiTrees w) (screenshots w) (calls w ++ [Delay ms])).

(** Which [return] of the detector was taken: the one inside the loop or
    the one after it. *)
Inductive Exit : Type := Converged | TimedOut.

Section Signature.
(** The template literal of a number. *)
Variable Number_toString : number -> string.

(** The callback of the filter of [hashUiTree]. *)
Definition stable (el : UiElement) : bool :=
  if ltb (y (bounds el)) 60%Q && ltb (height (bounds el)) 60%Q then false else true.

(** The callback of the map of [hashUiTree]. *)
Definition signatureLine (el : UiElement) : string :=
  type el ++ "|" ++ text el ++ "|"
    ++ Number_toString (x (bounds el)) ++ ","
    ++ Number_toString (y (bounds el)) ++ ","
    ++ Number_toString (width (bounds el)) ++ ","
    ++ Number_toString (height (bounds el)) ++ "|"
    ++ Boolean_toString (clickable el).

Definition hashUiTree (elements : list UiElement) : string :=
  join (String LF EmptyString) (map signatureLine (List.filter stable elements)).

(** The test that declares convergence:
    [hash === previousHash && previousHash !== empty]. *)
Definition converges (previousHash : string) (tree : list UiElement) : bool :=
  String.eqb (hashUiTree tree) previousHash && negb (isEmpty previousHash).

Section Detector.
Variables (platform : Platform) (deviceId : option string).
Variables (pollIntervalMs timeoutMs : Z).

(** The [while] loop.  Every iteration takes one reading of the clock,
    so the length of the clock script bounds the iterations; [fuel] is
    that bound. *)
Fixpoint poll (fuel : nat) (start : Z) (previousHash : string)
    (previousTree : list UiElement) : async World (Exit * list UiElement) :=
  match fuel with
  | O => fun _ => Stuck
  | S fuel' =>
      now <- Date_now ;;
      if (now - start <? timeoutMs)%Z then
        tree <- getUiTree platform deviceId ;;
        let hash := hashUiTree tree in
        if converges previousHash tree then
          ret (Converged, tree)
        else
          delay pollIntervalMs ;;;
          poll fuel' start hash tree
      else
        ret (TimedOut, previousTree)
  end.

(** The detector with its exit labelled. *)
Definition detect : async World (Exit * list UiElement) :=
  fun w =>
    (start <- Date_now ;;
     poll (List.length (clock w)) start EmptyString []) w.

Definition waitForStableUiTree : async World (list UiElement) :=
  r <- detect ;; ret (snd r).
End Detector.

Definition wantTree (m : ObserveMode) : bool :=
  match m with Mode.ui_tree | Mode.both => true | _ => false end.

Definition wantScreenshot (m : ObserveMode) : bool :=
  match m with Mode.screenshot | Mode.both => true | _ => false end.

Definition positive (ms : option Z) : option Z :=
  match ms with
  | Some d => if (0 <? d)%Z then Some d else None
  | None => None
  end.

(** The wait before the capture: the stability detector, whose tree is
    not bound to a name, or a fixed delay, or nothing. *)
Definition settle (options : ObserveOptions) : async World unit :=
  if default false (stabilize options) then
    waitForStableUiTree (platform options) (deviceId options)
      (default 500%Z (stabilizePollMs options))
      (default 10000%Z (stabilizeTimeoutMs options)) ;;;
    ret tt
  else
    match positive (delayMs options) with
    | Some d => delay d
    | None => ret tt
    end.

Definition performObservation (options : ObserveOptions)
    : async World (option ObservationResult) :=
  match mode options with
  | Mode.none => ret None
  | _ =>
      settle options ;;;
      captured <-
        all2
          (if wantTree (mode options)
           then tree <- getUiTree (platform options) (deviceId options) ;; ret (Some tree)
           else ret None)
          (if wantScreenshot (mode options)
           then shot <- getScreenshot (platform options) (deviceId options) ;; ret (Some shot)
           else ret None) ;;
      let (tree, shot) := captured : option (list UiElement) * option Screenshot in
      ret (Some (mkObservationResult
                   (match tree with
                    | Some tree =>
                        Some (filterUiElements tree
                                (Some (negb (default true (filterUi options)))))
                    | None => None
                    end)
                   shot))
  end.
End Signature.

End Observe.

(** ** Notions the properties are stated with *)

Module Notions.
Import Js Types.

(** An element of the status bar band: [y < 60] and [height < 60]. *)
Definition volatile (el : UiElement) : Prop :=
  (y (bounds el) < 60)%Q /\ (height (bounds el) < 60)%Q.

(** Two element sequences that differ only in volatile elements: one turns
    into the other by dropping and inserting volatile elements, the other
    elements being the same and in the same order. *)
Inductive differ_in_volatile : list UiElement -> list UiElement -> Prop :=
  | div_nil : differ_in_volatile [] []
  | div_same el l1 l2 :
      differ_in_volatile l1 l2 -> differ_in_volatile (el :: l1) (el :: l2)
  | div_left el l1 l2 :
      volatile el -> differ_in_volatile l1 l2 -> differ_in_volatile (el :: l1) l2
  | div_right el l1 l2 :
      volatile el -> differ_in_volatile l1 l2 -> differ_in_volatile l1 (el :: l2).

Definition volatile_dec (el : UiElement) : {volatile el} + {~ volatile el}.
Proof.
  unfold volatile.
  destruct (Qlt_le_dec (y (bounds el)) 60) as [Hy|Hy].
  - destruct (Qlt_le_dec (height (bounds el)) 60) as [Hh|Hh].
    + left. split; assumption.
    + right. intros [_ H]. exact (Qle_not_lt _ _ Hh H).
  - right. intros [H _]. exact (Qle_not_lt _ _ Hy H).
Defined.

(** The elements that remain once the volatile ones are dropped, in
    traversal order. *)
Definition remaining (elements : list UiElement) : list UiElement :=
  List.filter (fun el => if volatile_dec el then false else true) elements.

(** The template literal of a number that is an integer, to run the
    signature on concrete trees. *)
Definition decimal (q : number) : string :=
  NilZero.string_of_int (Z.to_int (Qfloor q)).

(** Every character of [s] is in the class. *)
Fixpoint allOf (cls : ascii -> bool) (s : string) : bool :=
  match s with
  | EmptyString => true
  | String c s' => cls c && allOf cls s'
  end.

(** [s] is empty or starts with a character outside the class. *)
Definition stopsAt (cls : ascii -> bool) (s : string) : bool :=
  match s with
  | EmptyString => true
  | String c _ => negb (cls c)
  end.

(** The decimal numeral of a natural number, as the accessibility dump
    writes the coordinates. *)
Definition numeral (n : N) : string := NilZero.string_of_uint (N.to_uint n).

(** The text of a bounds attribute: two corner points in brackets. *)
Definition boundsText (d1 d2 d3 d4 : string) : string :=
  "[" ++ d1 ++ "," ++ d2 ++ "][" ++ d3 ++ "," ++ d4 ++ "]".

(** The text attribute of a node and its accessibility description, each
    the empty string when the node has no such attribute. *)
Definition primaryText (attrs : string) : string :=
  default EmptyString (Android.extractAttr attrs "text").

Definition accessibilityDescription (attrs : string) : string :=
  default EmptyString (Android.extractAttr attrs "content-desc").

(** A strategy that succeeds and yields at least one parsed element. *)
Definition yields (strategy : Async.async Android.World (option string))
      (w : Android.World) (elements : list UiElement) (w' : Android.World) : Prop :=
  exists xml,
    strategy w = Async.Resolved (Some xml) w'
    /\ Android.parseUiXml xml = elements
    /\ elements <> [].

(** A strategy that fails to produce any element: it rejects, or finds no
    markup, or finds markup without any parsable node. *)
Definition misses (strategy : Async.async Android.World (option string))
      (w w' : Android.World) : Prop :=
  (exists e, strategy w = Async.Rejected e w')
  \/ strategy w = Async.Resolved None w'
  \/ (exists xml, strategy w = Async.Resolved (Some xml) w' /\ Android.parseUiXml xml = []).

(** Strategies tried in the order of the list until the first one that
    yields elements; [None] when every one of them misses. *)
Inductive attempts :
    list (Async.async Android.World (option string)) -> Android.World ->
    option (list UiElement) -> Android.World -> Prop :=
  | attempts_none w : attempts [] w None w
  | attempts_hit strategy strategies w elements w' :
      yields strategy w elements w' ->
      attempts (strategy :: strategies) w (Some elements) w'
  | attempts_miss strategy strategies w w1 found w' :
      misses strategy w w1 ->
      attempts strategies w1 found w' ->
      attempts (strategy :: strategies) w found w'.

(** The first text that is present. *)
Fixpoint firstPresent (candidates : list (option string)) : option string :=
  match candidates with
  | [] => None
  | Some t :: _ => Some t
  | None :: candidates' => firstPresent candidates'
  end.

(** Markup as the accessibility dump writes it. *)
Definition attribute (name value : string) : string :=
  name ++ "=" ++ String dquote (value ++ String dquote EmptyString).

Definition nodeMarkup (attrs : string) : string := "<node " ++ attrs ++ " />".

(** The two nodes of the sample of the test suite of the Android adapter. *)
Definition settingsAttrs : string :=
  join " "
    [attribute "index" "0"; attribute "text" "Settings";
     attribute "resource-id" "com.android.settings:id/title";
     attribute "class" "android.widget.TextView";
     attribute "content-desc" EmptyString; attribute "clickable" "true";
     attribute "enabled" "true"; attribute "focused" "false";
     attribute "bounds" "[0,100][540,150]"].

Definition searchAttrs : string :=
  join " "
    [attribute "index" "1"; attribute "text" EmptyString;
     attribute "resource-id" EmptyString; attribute "class" "android.view.View";
     attribute "content-desc" "Search"; attribute "clickable" "false";
     attribute "enabled" "true"; attribute "focused" "false";
     attribute "bounds" "[600,100][700,200]"].

(** A node whose bounds lie left of the screen: the minus sign is no digit. *)
Definition offscreenAttrs : string :=
  join " "
    [attribute "index" "2"; attribute "text" "Hidden";
     attribute "class" "android.view.View"; attribute "bounds" "[-80,100][0,200]"].

Definition sampleXml : string :=
  "<?xml " ++ attribute "version" "1.0" ++ " " ++ attribute "encoding" "UTF-8" ++ "?>"
    ++ String LF ("<hierarchy " ++ attribute "rotation" "0" ++ ">")
    ++ String LF ("  " ++ nodeMarkup settingsAttrs)
    ++ String LF ("  " ++ nodeMarkup searchAttrs)
    ++ String LF "</hierarchy>".

(** The sample with the node left of the screen between its two nodes. *)
Definition sampleXmlOffscreen : string :=
  "<hierarchy " ++ attribute "rotation" "0" ++ ">"
    ++ nodeMarkup settingsAttrs ++ nodeMarkup offscreenAttrs ++ nodeMarkup searchAttrs
    ++ "</hierarchy>".

Definition settingsElement : UiElement :=
  mkUiElement 0 "TextView" "Settings" (mkBounds 0 100 540 50)%Q 270%Q 125%Q
    true (Some "title") (Some true) (Some false).

Definition searchElement : UiElement :=
  mkUiElement 1 "View" "Search" (mkBounds 600 100 100 100)%Q 650%Q 150%Q
    false None (Some true) (Some false).

(** One record of the inspection bridge: a search field whose title is the
    empty string and whose accessibility label is Search.  [searchFieldLine]
    is its JSON text, [searchFieldEntry] what [JSON.parse] returns for it, and
    [readSearchField] is [JSON.parse] on the lines of this sample. *)
Definition quoted (s : string) : string := String dquote (s ++ String dquote EmptyString).

Definition searchFieldLine : string :=
  "{" ++ quoted "type" ++ ":" ++ quoted "SearchField" ++ ","
    ++ quoted "title" ++ ":" ++ quoted EmptyString ++ ","
    ++ quoted "AXLabel" ++ ":" ++ quoted "Search" ++ "}".

Definition searchFieldEntry : Idb.Entry :=
  Idb.mkEntry None None None None (Some "SearchField") None
    (Some EmptyString) (Some "Search") None None.

Definition readSearchField (line : string) : option Idb.Entry :=
  if String.eqb line searchFieldLine then Some searchFieldEntry else None.

(** The rejection of [getFirstDeviceId] when no device is connected. *)
Definition noDevice : Error :=
  mkError "No connected Android devices found. Make sure an emulator is running or a device is connected via USB with ADB debugging enabled.".

(** The element builder of the test suite of the filter. *)
Definition makeElement (t : string) (c : bool) : UiElement :=
  mkUiElement 0 "View" t (mkBounds 0 0 100 50)%Q 50%Q 25%Q c None None None.

(** The number of tree captures among the calls made. *)
Definition captureCount (cs : list Observe.Call) : nat :=
  List.length (List.filter (fun c => match c with Observe.GetUiTree _ _ => true | _ => false end) cs).

(** No two neighbours of a list of signatures are equal. *)
Fixpoint adjacent_distinct (l : list string) : Prop :=
  match l with
  | a :: (b :: _) as l' => a <> b /\ adjacent_distinct l'
  | _ => True
  end.

(** No capture of [trees] makes the loop of the detector declare
    convergence when it starts from [previousHash]. *)
Fixpoint never_converges (Number_toString : number -> string)
    (previousHash : string) (trees : list (list UiElement)) : Prop :=
  match trees with
  | [] => True
  | tree :: trees' =>
      Observe.converges Number_toString previousHash tree = false
      /\ never_converges Number_toString (Observe.hashUiTree Number_toString tree) trees'
  end.

(** The calls of the iterations that capture the trees of [l] and go on
    polling. *)
Definition rounds {A} (platform : Platform) (deviceId : option string)
    (pollIntervalMs : Z) (l : list A) : list Observe.Call :=
  flat_map (fun _ => [Observe.GetUiTree platform deviceId; Observe.Delay pollIntervalMs]) l.

(** A clock in the status bar and a button below it. *)
Definition statusClock (t : string) : UiElement :=
  mkUiElement 0 "TextView" t (mkBounds 900 10 120 40)%Q 960%Q 30%Q false None None None.

Definition button (i : nat) (t : string) : UiElement :=
  mkUiElement i "Button" t (mkBounds 0 200 540 100)%Q 270%Q 250%Q true None None None.

(** A container without text that is not clickable. *)
Definition panel (i : nat) : UiElement :=
  mkUiElement i "FrameLayout" EmptyString (mkBounds 0 60 1080 1800)%Q 540%Q 960%Q
    false None None None.

(** Sample screens: a loading screen, the screen that follows it at two
    readings of the status bar clock, and a screen of which only the status
    bar is drawn. *)
Definition loadingScreen : list UiElement :=
  [statusClock "12:00"; panel 1; button 2 "Loading"].
Definition doneScreen : list UiElement :=
  [statusClock "12:00"; panel 1; button 2 "Done"].
Definition doneScreenLater : list UiElement :=
  [statusClock "12:01"; panel 1; button 2 "Done"].
Definition barOnly (t : string) : list UiElement := [statusClock t].

Definition sampleOptions (m : Observe.ObserveMode) (stabilize filterUi : option bool)
    : Observe.ObserveOptions :=
  Observe.mkObserveOptions m android (Some "emulator-5554") None stabilize None None filterUi.

End Notions.

(** ** The Android adapter: devices, text input, keys and screen size
       (src/platforms/android.ts) *)

Module AndroidDevice.
Import Js Types Async Regex Android.
Local Open Scope async_scope.

(** The interface Device of src/types.ts.  [status] is the second token of a
    line of the device list, which is [undefined] when the line has one
    token only. *)
Record Device : Type := mkDevice {
  id : string;
  name : string;
  platform : Platform;
  status : option string
}.

(** [s.split(/\s+/)]: the pieces between the maximal runs of white space;
    [inRun] tells that the previous character belonged to such a run. *)
Fixpoint splitRuns (inRun : bool) (s : string) : list string :=
  match s with
  | EmptyString => [EmptyString]
  | String c s' =>
      if isWhiteSpace c then
        if inRun then splitRuns true s' else EmptyString :: splitRuns true s'
      else
        match splitRuns false s' with
        | piece :: pieces => String c piece :: pieces
        | [] => [String c EmptyString]
        end
  end.

Definition splitWhiteSpace (s : string) : list string := splitRuns false s.

(** [s.startsWith(p)] *)
Definition startsWith (s p : string) : bool := String.prefix p s.

(** The body of the loop of [listDevices] for a line that is not skipped. *)
Definition deviceOfLine (trimmed : string) : Device :=
  let parts := splitWhiteSpace trimmed in
  let id := nth 0 parts EmptyString in
  let status := nth_error parts 1 in
  let modelToken := List.find (fun p => startsWith p "model:") parts in
  let name :=
    match modelToken with
    | Some token => nth 1 (split ":" token) EmptyString
    | None => id
    end in
  mkDevice id name android status.

Fixpoint devicesOfLines (lines : list string) : list Device :=
  match lines with
  | [] => []
  | line :: lines' =>
      let trimmed := trim line in
      if isEmpty trimmed || startsWith trimmed "*" then devicesOfLines lines'
      else deviceOfLine trimmed :: devicesOfLines lines'
  end.

Definition listDevices : async World (list Device) :=
  output <- exec "adb devices -l" None ;;
  let lines := List.tl (split LF (trim output)) in
  ret (devicesOfLines lines).

Definition noDeviceError : Error :=
  mkError "No connected Android devices found. Make sure an emulator is running or a device is connected via USB with ADB debugging enabled.".

Definition getFirstDeviceId : async World string :=
  devices <- listDevices ;;
  let connected := List.filter (fun d => strictEq (status d) "device") devices in
  match connected with
  | [] => throw noDeviceError
  | d :: _ => ret (id d)
  end.

(** [s.replace(/c/g, replacement)] for one character [c] and a replacement
    without dollar patterns. *)
Fixpoint replaceAll (c : ascii) (replacement : string) (s : string) : string :=
  match s with
  | EmptyString => EmptyString
  | String a s' =>
      if Ascii.eqb a c then replacement ++ replaceAll c replacement s'
      else String a (replaceAll c replacement s')
  end.

Definition backslash : ascii := "092"%char.
Definition escaped (c : ascii) : string := String backslash (String c EmptyString).

(** The chain of replacements of [typeText], in its order. *)
Definition escapeText (text : string) : string :=
  replaceAll "`" (escaped "`")
    (replaceAll "$" (escaped "$")
       (replaceAll ")" (escaped ")")
          (replaceAll "(" (escaped "(")
             (replaceAll ";" (escaped ";")
                (replaceAll "|" (escaped "|")
                   (replaceAll ">" (escaped ">")
                      (replaceAll "<" (escaped "<")
                         (replaceAll "&" (escaped "&")
                            (replaceAll " " "%s"
                               (replaceAll "'" (escaped "'")
                                  (replaceAll dquote (escaped dquote)
                                     (replaceAll backslash (escaped backslash)
                                        text)))))))))))).

Definition typeText (text : string) (deviceId : option string) : async World unit :=
  id <- resolveDevice getFirstDeviceId deviceId ;;
  exec (adb id ("shell input text " ++ String dquote (escapeText text ++ String dquote EmptyString)))
    None ;;;
  ret tt.

Definition KEYCODE_MAP : list (string * Z) :=
  [("home", 3); ("back", 4); ("enter", 66); ("delete", 67); ("volume_up", 24);
   ("volume_down", 25); ("power", 26); ("tab", 61); ("recent_apps", 187)]%Z.

(** The names every object literal inherits from [Object.prototype]. *)
Definition objectPrototypeKeys : list string :=
  ["constructor"; "__defineGetter__"; "__defineSetter__"; "hasOwnProperty";
   "__lookupGetter__"; "__lookupSetter__"; "isPrototypeOf"; "propertyIsEnumerable";
   "toString"; "valueOf"; "__proto__"; "toLocaleString"].

(** [table[key]] on an object literal: its own value, a member inherited from
    [Object.prototype], or [undefined]. *)
Inductive Property (A : Type) : Type :=
| Own (v : A)
| Inherited
| Missing.
Arguments Own {A} v.
Arguments Inherited {A}.
Arguments Missing {A}.

Fixpoint ownProperty {A} (table : list (string * A)) (key : string) : option A :=
  match table with
  | [] => None
  | (k, v) :: table' => if String.eqb k key then Some v else ownProperty table' key
  end.

Definition getProperty {A} (table : list (string * A)) (key : string) : Property A :=
  match ownProperty table key with
  | Some v => Own v
  | None => if existsb (String.eqb key) objectPrototypeKeys then Inherited else Missing
  end.

(** [Object.keys(table).join(", ")] *)
Definition keyNames {A} (table : list (string * A)) : string :=
  join ", " (map fst table).

Definition unknownKeyError {A} (table : list (string * A)) (key : string) : Error :=
  mkError ("Unknown key: " ++ key ++ ". Supported keys: " ++ keyNames table).

Section PressKey.
(** The template literal of an integer key code and of a member of
    [Object.prototype]. *)
Variable Number_toString : Z -> string.
Variable memberText : string -> string.

Definition pressKey (key : string) (deviceId : option string) : async World unit :=
  id <- resolveDevice getFirstDeviceId deviceId ;;
  match getProperty KEYCODE_MAP key with
  | Missing => throw (unknownKeyError KEYCODE_MAP key)
  | Own keycode =>
      exec (adb id ("shell input keyevent " ++ Number_toString keycode)) None ;;; ret tt
  | Inherited =>
      exec (adb id ("shell input keyevent " ++ memberText key)) None ;;; ret tt
  end.
End PressKey.

(** The interface ScreenInfo of src/types.ts. *)
Record ScreenInfo : Type := mkScreenInfo {
  width : number;
  height : number;
  density : number;
  orientation : string
}.

(** [/(\d+)x(\d+)/] and [/(\d+)/] *)
Definition sizeRegex : regex :=
  [Open; Rep true 1 None isDigit; Close; Lit "x"; Open; Rep true 1 None isDigit; Close].
Definition densityRegex : regex :=
  [Open; Rep true 1 None isDigit; Close].

(** What [getScreenInfo] makes of the two outputs. *)
Definition screenInfoOf (sizeOutput densityOutput : string) : ScreenInfo :=
  let sizeMatch := search sizeRegex sizeOutput in
  let width := match sizeMatch with Some m => parseInt (group 1 m) | None => 0%Q end in
  let height := match sizeMatch with Some m => parseInt (group 2 m) | None => 0%Q end in
  let densityMatch := search densityRegex densityOutput in
  let density := match densityMatch with Some m => parseInt (group 1 m) | None => 0%Q end in
  let orientation := if ltb height width then "landscape" else "portrait" in
  mkScreenInfo width height density orientation.

Definition getScreenInfo (deviceId : option string) : async World ScreenInfo :=
  id <- resolveDevice getFirstDeviceId deviceId ;;
  outputs <- all2 (exec (adb id "shell wm size") None)
                  (exec (adb id "shell wm density") None) ;;
  ret (screenInfoOf (fst outputs) (snd outputs)).

End AndroidDevice.

(** ** The iOS adapter: device choice and text input (src/platforms/ios.ts) *)

Module IosDevice.
Import Js Types Async.
Local Open Scope async_scope.

Definition noDeviceError : Error :=
  mkError "No connected iOS devices or booted simulators found. Boot a simulator with `xcrun simctl boot <device>` or connect a device with idb.".

Definition hasStatus (s : string) (d : AndroidDevice.Device) : bool :=
  strictEq (AndroidDevice.status d) s.

Section Devices.
(** [listDevices] reads the JSON of simctl and of idb; here it is any
    asynchronous operation that yields the devices. *)
Variable listDevices : async Android.World (list AndroidDevice.Device).

Definition getFirstDeviceId : async Android.World string :=
  devices <- listDevices ;;
  match List.filter (hasStatus "booted") devices with
  | d :: _ => ret (AndroidDevice.id d)
  | [] =>
      match List.filter (fun d => hasStatus "booted" d || hasStatus "connected" d) devices with
      | [] => throw noDeviceError
      | d :: _ => ret (AndroidDevice.id d)
      end
  end.

Definition resolveDevice (deviceId : option string) : async Android.World string :=
  match deviceId with
  | Some id => ret id
  | None => getFirstDeviceId
  end.

(** [hasIdb]: the probe resolves to [false] when the command fails. *)
Definition hasIdb : async Android.World bool :=
  try_catch (Android.exec "which idb" None ;;; ret true) (ret false).

Definition apostrophe : ascii := "039"%char.

(** The replacement of [typeText]: an apostrophe becomes apostrophe,
    backslash, apostrophe, apostrophe. *)
Definition escapeText (text : string) : string :=
  AndroidDevice.replaceAll apostrophe
    (String apostrophe (String AndroidDevice.backslash
       (String apostrophe (String apostrophe EmptyString))))
    text.

Definition singleQuoted (s : string) : string :=
  String apostrophe (s ++ String apostrophe EmptyString).

Definition typeText (text : string) (deviceId : option string) : async Android.World unit :=
  id <- resolveDevice deviceId ;;
  idb <- hasIdb ;;
  if idb then
    Android.exec ("idb ui text --udid " ++ id ++ " " ++ singleQuoted (escapeText text)) None ;;;
    ret tt
  else
    Android.exec ("xcrun simctl io " ++ id ++ " type " ++ singleQuoted (escapeText text)) None ;;;
    ret tt.
End Devices.

End IosDevice.

(** ** The response builder (src/utils/format-response.ts) and the tools
       that poll (src/tools/wait-for-stable.ts, src/tools/wait-for-element.ts) *)

Module Tools.
Import Js Types Async UiFilter Observe.
Local Open Scope async_scope.

Inductive ContentItem : Type :=
| TextItem (text : string)
| ImageItem (data : string) (mimeType : string).

(** What a tool returns; a result without [isError] has it [false]. *)
Record ToolResult : Type := mkToolResult {
  content : list ContentItem;
  isError : bool
}.

(** [s.toLowerCase()] on the code units below 256: the capital letters of
    ASCII and of Latin-1 (the multiplication sign excepted) move up by 32. *)
Definition lowerChar (c : ascii) : ascii :=
  let n := nat_of_ascii c in
  if ((65 <=? n) && (n <=? 90))%nat
     || ((192 <=? n) && (n <=? 222) && negb (n =? 215))%nat
  then ascii_of_nat (n + 32)
  else c.

Fixpoint toLowerCase (s : string) : string :=
  match s with
  | EmptyString => EmptyString
  | String c s' => String (lowerChar c) (toLowerCase s')
  end.

(** [s.includes(sub)] *)
Fixpoint includes (s sub : string) : bool :=
  String.prefix sub s
  || match s with
     | EmptyString => false
     | String _ s' => includes s' sub
     end.

Section Handlers.
(** [JSON.stringify(elements, null, 2)] and the template literal of a
    number. *)
Variable JSON_stringify : list UiElement -> string.
Variable Number_toString : number -> string.

Definition lengthText {A} (l : list A) : string :=
  Number_toString (inject_Z (Z.of_nat (List.length l))).

Definition screenshotItems (shot : Screenshot) : list ContentItem :=
  [ImageItem (base64 shot) "image/jpeg";
   TextItem ("Screenshot captured (" ++ Number_toString (shot_width shot) ++ "x"
             ++ Number_toString (shot_height shot) ++ ")")].

Definition buildResponseContent (confirmationText : string)
    (observation : option ObservationResult) : list ContentItem :=
  let content := [TextItem confirmationText] in
  match observation with
  | None => content
  | Some observation =>
      let content :=
        match uiTree observation with
        | Some tree =>
            (content ++ [TextItem ("--- UI Tree (" ++ lengthText tree ++ " elements) ---"
                                   ++ String LF (JSON_stringify tree))])%list
        | None => content
        end in
      match screenshot observation with
      | Some shot => (content ++ screenshotItems shot)%list
      | None => content
      end
  end.

(** The handler of the tool wait_for_stable. *)
Definition waitForStable (platform : Platform) (device_id : option string)
    (timeout_ms poll_interval_ms : option Z) (include_screenshot filter_ui : option bool)
    : async World ToolResult :=
  tree <- waitForStableUiTree Number_toString platform device_id
            (default 500%Z poll_interval_ms) (default 10000%Z timeout_ms) ;;
  let filtered := filterUiElements tree (Some (negb (default true filter_ui))) in
  let content :=
    [TextItem ("Screen stabilized (" ++ lengthText filtered ++ " elements):"
               ++ String LF (JSON_stringify filtered))] in
  if default false include_screenshot then
    shot <- getScreenshot platform device_id ;;
    ret (mkToolResult (content ++ screenshotItems shot)%list false)
  else
    ret (mkToolResult content false).

(** The criteria of the tool wait_for_element. *)
Record Criteria : Type := mkCriteria {
  text_contains : option string;
  text_exact : option string;
  type_contains : option string;
  clickable_is : option bool
}.

(** The callback of the filter of the handler. *)
Definition matchElement (criteria : Criteria) (el : UiElement) : bool :=
  match text_exact criteria with
  | Some t => String.eqb (text el) t
  | None => true
  end
  && match text_contains criteria with
     | Some t => includes (toLowerCase (text el)) (toLowerCase t)
     | None => true
     end
  && match type_contains criteria with
     | Some t => includes (toLowerCase (type el)) (toLowerCase t)
     | None => true
     end
  && match clickable_is criteria with
     | Some c => Bool.eqb (clickable el) c
     | None => true
     end.

Section WaitForElement.
Variables (platform : Platform) (device_id : option string) (criteria : Criteria).
Variables (timeout pollInterval : Z) (observe : option ObserveMode).

Definition foundText (matches : list UiElement) (elapsed : Z) : string :=
  "Found " ++ lengthText matches ++ " matching element(s) after "
    ++ Number_toString (inject_Z elapsed) ++ "ms:" ++ String LF (JSON_stringify matches).

Definition timeoutText (filtered : list UiElement) : string :=
  "Timeout after " ++ Number_toString (inject_Z timeout)
    ++ "ms: no element found matching criteria. Last UI tree ("
    ++ lengthText filtered ++ " relevant elements):" ++ String LF (JSON_stringify filtered).

(** The [while] loop of the handler; as in the detector, the length of the
    clock script bounds the iterations. *)
Fixpoint waitLoop (fuel : nat) (start : Z) (lastTree : list UiElement)
    : async World ToolResult :=
  match fuel with
  | O => fun _ => Stuck
  | S fuel' =>
      now <- Date_now ;;
      if (now - start <? timeout)%Z then
        tree <- getUiTree platform device_id ;;
        let matches := List.filter (matchElement criteria) tree in
        if (0 <? List.length matches)%nat then
          observation <-
            performObservation Number_toString
              (mkObserveOptions (default Mode.none observe) platform device_id
                 (Some 0%Z) (Some false) None None None) ;;
          finished <- Date_now ;;
          ret (mkToolResult
                 (buildResponseContent (foundText matches (finished - start)) observation)
                 false)
        else
          delay pollInterval ;;;
          waitLoop fuel' start tree
      else
        ret (mkToolResult [TextItem (timeoutText (filterUiElements lastTree None))] true)
  end.

Definition waitForElement : async World ToolResult :=
  fun w =>
    (start <- Date_now ;;
     waitLoop (List.length (clock w)) start []) w.
End WaitForElement.

(** The handler of the tool wait_for_element with the defaults of its
    parameters. *)
Definition waitForElementTool (platform : Platform) (device_id : option string)
    (criteria : Criteria) (timeout_ms poll_interval_ms : option Z)
    (observe : option ObserveMode) : async World ToolResult :=
  waitForElement platform device_id criteria
    (default 10000%Z timeout_ms) (default 500%Z poll_interval_ms) observe.

End Handlers.

End Tools.

(** ** Further notions *)

Module MoreNotions.
Import Js Types Notions.

(** Two elements that agree on what a signature line shows. *)
Definition sameSignature (a b : UiElement) : Prop :=
  type a = type b /\ text a = text b /\ bounds a = bounds b /\ clickable a = clickable b.

(** A capture that fails, or whose tree has volatile elements only. *)
Definition barOnlyCapture (c : Error + list UiElement) : Prop :=
  match c with
  | inl _ => True
  | inr tree => Forall Notions.volatile tree
  end.

(** The closing tag of an accessibility dump. *)
Definition closingTag : string := "</hierarchy>".

(** The characters [typeText] of the Android adapter puts a backslash
    before. *)
Definition shellSpecial (c : ascii) : bool :=
  existsb (Ascii.eqb c)
    [AndroidDevice.backslash; dquote; "'"; "&"; "<"; ">"; "|"; ";"; "("; ")"; "$"; "`"]%char.

(** What one character of a text should become in the command line. *)
Definition escapeChar (c : ascii) : string :=
  if Ascii.eqb c " " then "%s"
  else if shellSpecial c then AndroidDevice.escaped c
  else String c EmptyString.

(** A string built character by character. *)
Fixpoint flatMap (f : ascii -> string) (s : string) : string :=
  match s with
  | EmptyString => EmptyString
  | String c s' => f c ++ flatMap f s'
  end.

(** The reading of an escaped text: a backslash gives the character after
    it, the two characters percent and s give a space. *)
Fixpoint unescape (s : string) : string :=
  match s with
  | EmptyString => EmptyString
  | String c s' =>
      match s' with
      | String d s'' =>
          if Ascii.eqb c AndroidDevice.backslash then String d (unescape s'')
          else if Ascii.eqb c "%" && Ascii.eqb d "s" then String " " (unescape s'')
          else String c (unescape s')
      | EmptyString => String c EmptyString
      end
  end.

(** A token of a line: not empty, without white space. *)
Definition isWord (w : string) : bool :=
  negb (isEmpty w) && allOf (fun c => negb (isWhiteSpace c)) w.

(** The white space between two tokens of one line. *)
Definition isGap (g : string) : bool :=
  negb (isEmpty g) && allOf (fun c => isWhiteSpace c && negb (Ascii.eqb c LF)) g.

(** The rest of a line after a token: nothing, or white space and anything
    up to the end of the line. *)
Definition isTail (t : string) : bool :=
  negb (stopsAt isWhiteSpace t && negb (isEmpty t))
  && allOf (fun c => negb (Ascii.eqb c LF)) t.

(** The first line of a device listing: it starts with a character that is
    not white space. *)
Definition isHeader (h : string) : bool :=
  negb (isEmpty h) && stopsAt isWhiteSpace h && allOf (fun c => negb (Ascii.eqb c LF)) h.

(** A line of the device listing: the serial number, the state and what
    follows. *)
Record Row : Type := mkRow {
  row_id : string;
  row_gap : string;
  row_state : string;
  row_tail : string
}.

Definition rowText (r : Row) : string :=
  row_id r ++ row_gap r ++ row_state r ++ row_tail r.

Definition isRow (r : Row) : bool :=
  isWord (row_id r) && negb (AndroidDevice.startsWith (row_id r) "*")
  && isGap (row_gap r) && isWord (row_state r) && isTail (row_tail r).

Fixpoint rowsText (rows : list Row) : string :=
  match rows with
  | [] => EmptyString
  | r :: rows' => String LF (rowText r ++ rowsText rows')
  end.

(** The output of the device listing command: a header line, one line for
    each device, and white space after the last one. *)
Definition listing (header : string) (rows : list Row) (trailing : string) : string :=
  header ++ rowsText rows ++ trailing.

(** A device that stands for a row of the listing. *)
Definition deviceOfRow (r : Row) (d : AndroidDevice.Device) : Prop :=
  AndroidDevice.id d = row_id r
  /\ AndroidDevice.status d = Some (row_state r)
  /\ AndroidDevice.platform d = android.

(** The state of a device that is ready. *)
Definition ready (r : Row) : bool := String.eqb (row_state r) "device".

(** How a POSIX shell reads one word: between apostrophes every character
    stands for itself; outside them a backslash gives the character after it,
    and white space or an operator character is not part of a word. *)
Fixpoint shRead (quoted : bool) (s : string) : option string :=
  match s with
  | EmptyString => if quoted then None else Some EmptyString
  | String c s' =>
      if quoted then
        if Ascii.eqb c IosDevice.apostrophe then shRead false s'
        else option_map (String c) (shRead true s')
      else if Ascii.eqb c IosDevice.apostrophe then shRead true s'
      else if Ascii.eqb c AndroidDevice.backslash then
        match s' with
        | String d s'' => option_map (String d) (shRead false s'')
        | EmptyString => None
        end
      else if isWhiteSpace c || shellSpecial c then None
      else option_map (String c) (shRead false s')
  end.

(** The accessibility dump as markup.  A node is written as a tag: the
    characters <node, white space, the attributes, and > or />; [node_after]
    is the markup between the tag and the next one (line breaks, closing
    tags).  The attributes start with a character that is not white space,
    hold no >, and do not end with a slash; the markup between two tags
    does not hold the two characters <n. *)
Record Node : Type := mkNode {
  node_gap : string;
  node_attrs : string;
  node_selfClosing : bool;
  node_after : string
}.

Fixpoint endsWith (c : ascii) (s : string) : bool :=
  match s with
  | EmptyString => false
  | String a s' =>
      match s' with
      | EmptyString => Ascii.eqb a c
      | String _ _ => endsWith c s'
      end
  end.

Definition isAttrs (attrs : string) : bool :=
  negb (isEmpty attrs) && stopsAt isWhiteSpace attrs
  && allOf (fun c => negb (Ascii.eqb c ">")) attrs && negb (endsWith "/" attrs).

Definition noNodeStart (s : string) : bool := negb (Tools.includes s "<n").

Definition nodeTag (n : Node) : string :=
  "<node" ++ node_gap n ++ node_attrs n ++ (if node_selfClosing n then "/>" else ">").

Definition isNode (n : Node) : bool :=
  negb (isEmpty (node_gap n)) && allOf isWhiteSpace (node_gap n)
  && isAttrs (node_attrs n) && noNodeStart (node_after n).

Fixpoint nodesText (nodes : list Node) : string :=
  match nodes with
  | [] => EmptyString
  | n :: nodes' => nodeTag n ++ node_after n ++ nodesText nodes'
  end.

(** A dump: what precedes the first tag, and the nodes in document order. *)
Definition document (before : string) (nodes : list Node) : string :=
  before ++ nodesText nodes.

(** The text a node shows: its text attribute when that is not empty, its
    content description otherwise. *)
Definition displayText (attrs : string) : string :=
  if isEmpty (primaryText attrs) then accessibilityDescription attrs else primaryText attrs.

(** The bounds attribute of the node holds two corner points in digits. *)
Definition hasBounds (attrs : string) : bool :=
  match Regex.search Android.boundsRegex
          (default EmptyString (Android.extractAttr attrs "bounds")) with
  | Some _ => true
  | None => false
  end.

(** The text a record of the inspection bridge shows: the first of title,
    AXLabel and label that is present. *)
Definition entryText (entry : Idb.Entry) : string :=
  default EmptyString
    (firstPresent [Idb.title entry; Idb.AXLabel entry; Idb.label entry]).

(** The numeral of an integer, with a minus sign when it is negative. *)
Definition signed (z : Z) : string :=
  if (z <? 0)%Z then "-" ++ numeral (Z.abs_N z) else numeral (Z.to_N z).

(** The number of occurrences of a character. *)
Fixpoint countChar (c : ascii) (s : string) : nat :=
  match s with
  | EmptyString => 0
  | String a s' => (if Ascii.eqb a c then 1 else 0) + countChar c s'
  end.

(** The sample of the test suite of the Android adapter as a dump: what
    precedes its first tag, its two nodes, and the node left of the screen. *)
Definition sampleBefore : string :=
  "<?xml " ++ attribute "version" "1.0" ++ " " ++ attribute "encoding" "UTF-8" ++ "?>"
    ++ String LF ("<hierarchy " ++ attribute "rotation" "0" ++ ">") ++ String LF "  ".

Definition settingsNode : Node := mkNode " " (settingsAttrs ++ " ") true (String LF "  ").
Definition offscreenNode : Node := mkNode " " (offscreenAttrs ++ " ") true (String LF "  ").
Definition searchNode : Node :=
  mkNode " " (searchAttrs ++ " ") true (String LF "</hierarchy>").

(** A node whose first corner lies beyond 2^53. *)
Definition farNode : Node :=
  mkNode " " (attribute "bounds" "[9007199254740993,0][9007199254740994,10]") true
    EmptyString.

(** Sample data for the runs below. *)

(** The button of [doneScreen] as another capture may number it. *)
Definition doneButtonRenumbered : UiElement :=
  mkUiElement 7 "Button" "Done" (mkBounds 0 200 540 100)%Q 0%Q 0%Q true
    (Some "done") (Some true) None.

Definition sampleShot : Observe.Screenshot :=
  Observe.mkScreenshot "aGVsbG8=" 540%Q 960%Q.

(** A stand-in for [JSON.stringify]: the texts of the elements. *)
Definition renderTexts (l : list UiElement) : string :=
  "[" ++ join "," (map text l) ++ "]".

Definition sampleHeader : string := "List of devices attached".

Definition sampleRows : list Row :=
  [mkRow "ABC123" "               " "unauthorized" " transport_id:2";
   mkRow "emulator-5554" "          " "device"
     " product:sdk_gphone64_arm64 model:Pixel_6 transport_id:1"].

Definition sampleTrailing : string := String LF (String LF EmptyString).

Definition sampleIosDevices : list AndroidDevice.Device :=
  [AndroidDevice.mkDevice "00008030-001C" "iPhone" ios (Some "connected");
   AndroidDevice.mkDevice "SIM-1" "iPhone 15 (iOS-17-0)" ios (Some "shutdown");
   AndroidDevice.mkDevice "SIM-2" "iPhone 15 Pro (iOS-17-0)" ios (Some "booted")].

Definition doneCriteria : Tools.Criteria :=
  Tools.mkCriteria (Some "done") None None None.

Definition dumpNotice : string := "UI hierchary dumped to: /dev/tty".

End MoreNotions.

(** * Properties *)

(** ** Double precision *)

Section DoubleFacts.
Import Js.

Lemma pow2_pos (e : Z) : (0 < pow2 e)%Q.
Proof.
  unfold pow2. destruct (0 <=? e)%Z eqn:E.
  - apply Z.leb_le in E. unfold Qlt, inject_Z. cbn [Qnum Qden].
    pose proof (Z.pow_pos_nonneg 2 e). lia.
  - reflexivity.
Qed.

Lemma pow2_neg_mul (e : Z) : (e <= 0)%Z -> (pow2 e * inject_Z (2 ^ (- e)) == 1)%Q.
Proof.
  intros H. unfold pow2. destruct (0 <=? e)%Z eqn:E.
  - apply Z.leb_le in E. replace e with 0%Z by lia. reflexivity.
  - unfold Qeq, Qmult, inject_Z. cbn [Qnum Qden].
    pose proof (Z.pow_pos_nonneg 2 (- e)).
    rewrite Pos.mul_1_r, Z2Pos.id by lia. lia.
Qed.

(** An integer divided by the weight of a last bit below one. *)
Lemma scaled_integer (z e : Z) :
  (e <= 0)%Z -> (inject_Z z / pow2 e == inject_Z (z * 2 ^ (- e)))%Q.
Proof.
  intros H. pose proof (pow2_pos e) as P. pose proof (pow2_neg_mul e H) as M.
  rewrite inject_Z_mult.
  apply (Qmult_inj_r _ _ (pow2 e)); [intros C; rewrite C in P; discriminate P|].
  rewrite <- Qmult_assoc, (Qmult_comm (inject_Z (2 ^ (- e)))), M.
  field. intros C; rewrite C in P; discriminate P.
Qed.

Lemma roundHalfEven_integer (q : Q) (m : Z) : (q == inject_Z m)%Q -> roundHalfEven q = m.
Proof.
  intros H. unfold roundHalfEven.
  assert (F : Qfloor q = m) by (rewrite (Qfloor_comp _ _ H); apply Qfloor_Z).
  rewrite F.
  assert (C : (q - inject_Z m ?= 1 # 2)%Q = Lt).
  { rewrite H. assert (E : (inject_Z m - inject_Z m == 0)%Q) by ring. now rewrite E. }
  now rewrite C.
Qed.

Lemma binade_comp (a b : Q) : (a == b)%Q -> binade a = binade b.
Proof.
  intros H. unfold binade.
  assert (L : Qle_bool 1 a = Qle_bool 1 b) by now rewrite H.
  rewrite L. destruct (Qle_bool 1 b).
  - now rewrite (Qfloor_comp _ _ H).
  - assert (I : (/ a == / b)%Q) by now rewrite H.
    now rewrite (Qceiling_comp _ _ I).
Qed.

Lemma roundHalfEven_comp (a b : Q) : (a == b)%Q -> roundHalfEven a = roundHalfEven b.
Proof.
  intros H. unfold roundHalfEven. rewrite (Qfloor_comp _ _ H).
  assert (C : (a - inject_Z (Qfloor b) ?= 1 # 2)%Q = (b - inject_Z (Qfloor b) ?= 1 # 2)%Q)
    by now rewrite H.
  now rewrite C.
Qed.

(** The double of a number depends on its value only. *)
Lemma toDouble_comp (a b : Q) : (a == b)%Q -> toDouble a = toDouble b.
Proof.
  intros H. unfold toDouble.
  assert (Z0 : Qeq_bool a 0 = Qeq_bool b 0).
  { destruct (Qeq_bool b 0) eqn:E.
    - apply Qeq_bool_iff. apply Qeq_bool_iff in E. now rewrite H.
    - apply not_true_is_false. intros C. apply Qeq_bool_iff in C.
      rewrite H in C. apply Qeq_bool_iff in C. congruence. }
  rewrite Z0. destruct (Qeq_bool b 0); [reflexivity|].
  assert (A : (Qabs a == Qabs b)%Q) by now rewrite H.
  rewrite (binade_comp _ _ A).
  apply Qred_complete.
  assert (S : (a / pow2 (Z.max (-1074) (binade (Qabs b) - 52))
               == b / pow2 (Z.max (-1074) (binade (Qabs b) - 52)))%Q) by now rewrite H.
  now rewrite (roundHalfEven_comp _ _ S).
Qed.

(** A number whose quotient by the weight of its last bit is an integer is
    a double. *)
Lemma toDouble_exact (q : Q) (m : Z) :
  (q / pow2 (Z.max (-1074) (binade (Qabs q) - 52)) == inject_Z m)%Q ->
  toDouble q = Qred q.
Proof.
  intros H. unfold toDouble. destruct (Qeq_bool q 0) eqn:E.
  - apply Qeq_bool_iff in E. symmetry. exact (Qred_complete _ _ E).
  - apply Qred_complete. rewrite (roundHalfEven_integer _ _ H), <- H.
    field. pose proof (pow2_pos (Z.max (-1074) (binade (Qabs q) - 52))) as P.
    intros C. rewrite C in P. discriminate P.
Qed.

Lemma binade_bound (a : Q) (k : Z) :
  (0 < k)%Z -> (a < inject_Z (2 ^ k))%Q -> (binade a < k)%Z.
Proof.
  intros Hk Ha. unfold binade. destruct (Qle_bool 1 a) eqn:E.
  - apply Qle_bool_iff in E.
    assert (F1 : (1 <= Qfloor a)%Z).
    { change 1%Z with (Qfloor 1). now apply Qfloor_resp_le. }
    assert (F2 : (Qfloor a < 2 ^ k)%Z).
    { apply Z.lt_le_trans with (Qfloor (inject_Z (2 ^ k))); [|rewrite Qfloor_Z; lia].
      destruct (Z.lt_ge_cases (Qfloor a) (Qfloor (inject_Z (2 ^ k)))) as [L|G]; [exact L|].
      exfalso. rewrite Qfloor_Z in G.
      apply (Qlt_not_le _ _ Ha). apply Qle_trans with (inject_Z (Qfloor a)).
      - now rewrite <- Zle_Qle.
      - apply Qfloor_le. }
    apply Z.log2_lt_pow2; lia.
  - pose proof (Z.log2_up_nonneg (Qceiling (/ a))). lia.
Qed.

(** An integer below 2^53 in magnitude, over a power of two, is a double. *)
Lemma toDouble_dyadic (z k : Z) :
  (0 <= k <= 1)%Z -> (Z.abs z < 2 ^ 53)%Z ->
  toDouble (inject_Z z / inject_Z (2 ^ k)) = Qred (inject_Z z / inject_Z (2 ^ k)).
Proof.
  intros Hk Hz.
  set (q := (inject_Z z / inject_Z (2 ^ k))%Q).
  assert (P2 : (0 < 2 ^ k)%Z) by (apply Z.pow_pos_nonneg; lia).
  assert (Q2 : ~ (inject_Z (2 ^ k) == 0)%Q).
  { intros C. unfold Qeq, inject_Z in C. cbn [Qnum Qden] in C. lia. }
  assert (A : (Qabs q == inject_Z (Z.abs z) / inject_Z (2 ^ k))%Q).
  { unfold q, Qdiv. rewrite Qabs_Qmult, Qabs_Qinv.
    rewrite (Qabs_pos (inject_Z (2 ^ k))).
    - reflexivity.
    - unfold Qle, inject_Z. cbn [Qnum Qden]. lia. }
  assert (B : (binade (Qabs q) < 53 - k)%Z).
  { apply binade_bound; [lia|]. rewrite A.
    apply Qlt_shift_div_r.
    - unfold Qlt, inject_Z. cbn [Qnum Qden]. lia.
    - rewrite <- inject_Z_mult, <- Zlt_Qlt, <- Z.pow_add_r by lia.
      replace (53 - k + k)%Z with 53%Z by lia. exact Hz. }
  set (e := Z.max (-1074) (binade (Qabs q) - 52)).
  assert (E : (e <= - k)%Z) by (unfold e; lia).
  apply (toDouble_exact q (z * 2 ^ (- e - k))). fold e.
  pose proof (pow2_pos e) as P. pose proof (pow2_neg_mul e ltac:(lia)) as M.
  apply (Qmult_inj_r _ _ (pow2 e)); [intros C; rewrite C in P; discriminate P|].
  transitivity q; [field; intros C; rewrite C in P; discriminate P|].
  unfold q.
  replace (- e)%Z with (k + (- e - k))%Z in M by lia.
  rewrite Z.pow_add_r, inject_Z_mult in M by lia.
  rewrite inject_Z_mult.
  transitivity (inject_Z z * (pow2 e * (inject_Z (2 ^ k) * inject_Z (2 ^ (- e - k))))
                / inject_Z (2 ^ k))%Q.
  - rewrite M. field. exact Q2.
  - field. exact Q2.
Qed.

Lemma toDouble_integer (z : Z) :
  (Z.abs z < 2 ^ 53)%Z -> toDouble (inject_Z z) = inject_Z z.
Proof.
  intros H.
  rewrite (toDouble_comp (inject_Z z) (inject_Z z / inject_Z (2 ^ 0))).
  - rewrite (toDouble_dyadic z 0) by lia.
    transitivity (Qred (inject_Z z)).
    + apply Qred_complete. change (inject_Z (2 ^ 0)) with 1%Q. field.
    + unfold Qred, inject_Z.
      pose proof (Z.ggcd_gcd z 1) as GG. pose proof (Z.ggcd_correct_divisors z 1) as D.
      destruct (Z.ggcd z 1) as [g [a b]]. cbn [fst snd] in *.
      rewrite Z.gcd_1_r in GG. subst g. destruct D as [D1 D2].
      replace a with z by lia. replace b with 1%Z by lia. reflexivity.
  - change (inject_Z (2 ^ 0)) with 1%Q. field.
Qed.

Lemma toDouble_half (s : Z) :
  (Z.abs s < 2 ^ 53)%Z -> (toDouble (inject_Z s / 2) == inject_Z s / 2)%Q.
Proof.
  intros H. change 2%Q with (inject_Z (2 ^ 1)).
  rewrite (toDouble_dyadic s 1) by lia. apply Qred_correct.
Qed.

Lemma fadd_integer (a b : Z) :
  (Z.abs (a + b) < 2 ^ 53)%Z -> fadd (inject_Z a) (inject_Z b) = inject_Z (a + b).
Proof.
  intros H. unfold fadd.
  rewrite (toDouble_comp _ (inject_Z (a + b))) by (rewrite inject_Z_plus; reflexivity).
  now apply toDouble_integer.
Qed.

Lemma fsub_integer (a b : Z) :
  (Z.abs (a - b) < 2 ^ 53)%Z -> fsub (inject_Z a) (inject_Z b) = inject_Z (a - b).
Proof.
  intros H. unfold fsub.
  rewrite (toDouble_comp _ (inject_Z (a - b)))
    by (unfold Z.sub; rewrite inject_Z_plus, inject_Z_opp; reflexivity).
  now apply toDouble_integer.
Qed.

(** The centre the Android parser computes from two corner coordinates
    whose sum is below 2^53 is the rounded middle of the rectangle it
    stores. *)
Lemma round_midpoint (a b : Z) :
  (Z.abs (a + b) < 2 ^ 53)%Z ->
  Math_round (fdiv (fadd (inject_Z a) (inject_Z b)) 2%Q)
  = Math_round (inject_Z a + inject_Z (b - a) / 2)%Q.
Proof.
  intros H. rewrite (fadd_integer _ _ H). unfold fdiv, Math_round. f_equal.
  apply Qfloor_comp. rewrite (toDouble_half _ H).
  unfold Z.sub. rewrite !inject_Z_plus, inject_Z_opp. field.
Qed.

End DoubleFacts.


(** ** The element filter *)

Section FilterProperties.
Import Js Types UiFilter Notions.

Lemma filter_sublist {A} (f : A -> bool) (l : list A) : sublist (List.filter f l) l.
Proof.
  induction l as [|a l IH]; simpl.
  - constructor.
  - destruct (f a); now constructor.
Qed.

Lemma isEmpty_true (s : string) : isEmpty s = true <-> s = EmptyString.
Proof. destruct s; simpl; split; congruence. Qed.

Lemma relevant_true (el : UiElement) :
  relevant el = true <-> trim (text el) <> EmptyString \/ clickable el = true.
Proof.
  unfold relevant. rewrite orb_true_iff, negb_true_iff.
  split; intros [H|H]; auto; left.
  - intros E. apply isEmpty_true in E. congruence.
  - destruct (isEmpty (trim (text el))) eqn:E; auto.
    apply isEmpty_true in E. contradiction.
Qed.

Lemma relevant_false (el : UiElement) :
  relevant el = false <-> trim (text el) = EmptyString /\ clickable el = false.
Proof.
  unfold relevant. rewrite orb_false_iff, negb_false_iff, isEmpty_true. tauto.
Qed.

(** C5.  With [includeAll = true] the filter returns its input unchanged.
    With [includeAll = false], which is also the default, it keeps exactly
    the elements whose trimmed text is not empty or that are clickable,
    every element it drops has an empty trimmed text and is not clickable,
    and the kept elements stand in their original order. *)
Theorem filterUiElements_spec (elements : list UiElement) :
  filterUiElements elements (Some true) = elements
  /\ filterUiElements elements None = filterUiElements elements (Some false)
  /\ (forall el, In el (filterUiElements elements (Some false)) <->
                 In el elements /\ (trim (text el) <> EmptyString \/ clickable el = true))
  /\ (forall el, In el elements -> ~ In el (filterUiElements elements (Some false)) ->
                 trim (text el) = EmptyString /\ clickable el = false)
  /\ sublist (filterUiElements elements (Some false)) elements.
Proof.
  unfold filterUiElements; simpl.
  split; [reflexivity|]. split; [reflexivity|]. split; [|split].
  - intros el. rewrite filter_In, relevant_true. tauto.
  - intros el Hin Hout. apply relevant_false.
    destruct (relevant el) eqn:E; [|reflexivity].
    exfalso. apply Hout. apply filter_In. auto.
  - apply filter_sublist.
Qed.

Lemma filterUiElements_spec_witness :
  In (makeElement "Hello" false)
     (filterUiElements
        [makeElement EmptyString false; makeElement "Hello" false;
         makeElement EmptyString true] (Some false))
  /\ trim (text (makeElement EmptyString false)) = EmptyString
  /\ clickable (makeElement EmptyString false) = false.
Proof.
  destruct (filterUiElements_spec
              [makeElement EmptyString false; makeElement "Hello" false;
               makeElement EmptyString true]) as (_ & _ & Hkept & Hdropped & _).
  split.
  - apply Hkept. split; [right; left; reflexivity|left; discriminate].
  - apply Hdropped; [left; reflexivity|].
    intros Hin. apply Hkept in Hin. destruct Hin as [_ [Htext|Hclick]].
    + apply Htext. reflexivity.
    + discriminate Hclick.
Defined.

(** The scenario of the specification and of the test suite: of an element
    without text that is not clickable, an element with the text Hello and
    a clickable element without text, the default filter keeps the second
    and the third, in that order. *)
Example filterUiElements_scenario :
  filterUiElements
    [makeElement EmptyString false; makeElement "Hello" false; makeElement EmptyString true]
    None
  = [makeElement "Hello" false; makeElement EmptyString true].
Proof. reflexivity. Qed.

(** Text made of blanks only counts as empty, as in the test suite. *)
Example filterUiElements_blank :
  filterUiElements [makeElement "   " false; makeElement "   " true] None
  = [makeElement "   " true].
Proof. reflexivity. Qed.

End FilterProperties.

(** ** The stability signature *)

Section SignatureProperties.
Import Js Types Observe Notions.
Variable Number_toString : number -> string.

Lemma ltb_lt (a b : number) : ltb a b = true <-> (a < b)%Q.
Proof.
  unfold ltb. rewrite negb_true_iff. split.
  - intros H. apply Qnot_le_lt. intros Hle.
    apply Qle_bool_iff in Hle. congruence.
  - intros H. destruct (Qle_bool b a) eqn:E; [|reflexivity].
    apply Qle_bool_iff in E. exfalso. exact (Qlt_not_le _ _ H E).
Qed.

Lemma stable_false (el : UiElement) : stable el = false <-> volatile el.
Proof.
  unfold stable, volatile. rewrite <- !ltb_lt.
  destruct (ltb (y (bounds el)) 60%Q), (ltb (height (bounds el)) 60%Q); simpl;
    intuition congruence.
Qed.

Lemma stable_remaining (elements : list UiElement) :
  List.filter stable elements = remaining elements.
Proof.
  unfold remaining. apply filter_ext. intros el.
  destruct (volatile_dec el) as [V|V].
  - now apply stable_false.
  - destruct (stable el) eqn:E; [reflexivity|].
    apply stable_false in E. contradiction.
Qed.

Lemma differ_in_volatile_stable (l1 l2 : list UiElement) :
  differ_in_volatile l1 l2 -> List.filter stable l1 = List.filter stable l2.
Proof.
  induction 1 as [|el l1 l2 _ IH|el l1 l2 V _ IH|el l1 l2 V _ IH]; simpl.
  - reflexivity.
  - now rewrite IH.
  - apply stable_false in V. now rewrite V.
  - apply stable_false in V. now rewrite V.
Qed.

(** C4.  Two element sequences that differ only in elements with [y < 60]
    and [height < 60] have the same stability signature, and the signature
    is the lines of the remaining elements in traversal order, joined by
    line feeds, the line of an element being its type, its text, its four
    bounds numbers separated by commas and its clickable flag, separated
    by vertical bars. *)
Theorem hashUiTree_ignores_volatile (l1 l2 : list UiElement) :
  differ_in_volatile l1 l2 ->
  hashUiTree Number_toString l1 = hashUiTree Number_toString l2
  /\ hashUiTree Number_toString l1
     = join (String LF EmptyString)
         (map (fun el =>
                 type el ++ "|" ++ text el ++ "|"
                   ++ Number_toString (x (bounds el)) ++ ","
                   ++ Number_toString (y (bounds el)) ++ ","
                   ++ Number_toString (width (bounds el)) ++ ","
                   ++ Number_toString (height (bounds el))
                   ++ "|" ++ (if clickable el then "true" else "false"))
              (remaining l1)).
Proof.
  intros D. unfold hashUiTree. split.
  - now rewrite (differ_in_volatile_stable _ _ D).
  - rewrite stable_remaining. reflexivity.
Qed.

End SignatureProperties.

Section SignatureWitness.
Import Js Types Observe Notions.

Lemma statusClock_volatile (t : string) : volatile (statusClock t).
Proof. split; reflexivity. Qed.

Lemma hashUiTree_ignores_volatile_witness :
  differ_in_volatile
    [statusClock "12:00"; button 0 "OK"]
    [button 0 "OK"; statusClock "12:01"; statusClock "98%"]
  /\ hashUiTree decimal [statusClock "12:00"; button 0 "OK"]
     = hashUiTree decimal [button 0 "OK"; statusClock "12:01"; statusClock "98%"].
Proof.
  assert (D : differ_in_volatile
                [statusClock "12:00"; button 0 "OK"]
                [button 0 "OK"; statusClock "12:01"; statusClock "98%"]).
  { apply div_left; [apply statusClock_volatile|].
    apply div_same.
    apply div_right; [apply statusClock_volatile|].
    apply div_right; [apply statusClock_volatile|].
    apply div_nil. }
  split; [exact D|].
  exact (proj1 (hashUiTree_ignores_volatile decimal _ _ D)).
Defined.

(** The signature of a concrete tree: the clock of the status bar leaves no
    line. *)
Example hashUiTree_sample :
  hashUiTree decimal [statusClock "12:00"; button 0 "OK"; button 1 "Cancel"]
  = "Button|OK|0,200,540,100|true" ++ String LF "Button|Cancel|0,200,540,100|true".
Proof. vm_compute. reflexivity. Qed.

End SignatureWitness.

(** ** The stability detector *)

Section DetectorProperties.
Import Js Types Async Observe Notions.
Variable Number_toString : number -> string.
Variables (platform : Platform) (deviceId : option string).
Variables (pollIntervalMs timeoutMs : Z).

Abbreviation hash := (hashUiTree Number_toString).
Abbreviation converges := (Observe.converges Number_toString).
Abbreviation never_converges := (Notions.never_converges Number_toString).
Abbreviation pollLoop := (poll Number_toString platform deviceId pollIntervalMs timeoutMs).
Abbreviation capture := (GetUiTree platform deviceId).
Abbreviation rounds := (Notions.rounds platform deviceId pollIntervalMs).

Lemma converges_true (previousHash : string) (tree : list UiElement) :
  converges previousHash tree = true <->
  hash tree = previousHash /\ previousHash <> EmptyString.
Proof.
  unfold Observe.converges. rewrite andb_true_iff, negb_true_iff, String.eqb_eq.
  destruct previousHash; simpl; intuition congruence.
Qed.

(** One iteration past the deadline. *)
Lemma poll_deadline fuel start previousHash previousTree now readings trees shots calls :
  (timeoutMs <= now - start)%Z ->
  pollLoop (S fuel) start previousHash previousTree
    (mkWorld (now :: readings) trees shots calls)
  = Resolved (TimedOut, previousTree) (mkWorld readings trees shots calls).
Proof.
  intros H. simpl. unfold bind, Date_now; simpl.
  apply Z.ltb_ge in H. now rewrite H.
Qed.

(** One iteration that declares convergence. *)
Lemma poll_converge fuel start previousHash previousTree now readings tree trees shots calls :
  (now - start < timeoutMs)%Z ->
  converges previousHash tree = true ->
  pollLoop (S fuel) start previousHash previousTree
    (mkWorld (now :: readings) (inr tree :: trees) shots calls)
  = Resolved (Converged, tree) (mkWorld readings trees shots (calls ++ [capture])).
Proof.
  intros H C. simpl. unfold bind, Date_now; simpl.
  apply Z.ltb_lt in H. rewrite H. unfold getUiTree; simpl.
  now rewrite C.
Qed.

(** One iteration that goes on polling. *)
Lemma poll_continue fuel start previousHash previousTree now readings tree trees shots calls :
  (now - start < timeoutMs)%Z ->
  converges previousHash tree = false ->
  pollLoop (S fuel) start previousHash previousTree
    (mkWorld (now :: readings) (inr tree :: trees) shots calls)
  = pollLoop fuel start (hash tree) tree
      (mkWorld readings trees shots (calls ++ [capture; Delay pollIntervalMs])).
Proof.
  intros H C. simpl. unfold bind, Date_now; simpl.
  apply Z.ltb_lt in H. rewrite H. unfold getUiTree; simpl.
  rewrite C. unfold delay; simpl.
  now rewrite <- app_assoc.
Qed.

(** One iteration whose capture fails. *)
Lemma poll_reject fuel start previousHash previousTree now readings e trees shots calls :
  (now - start < timeoutMs)%Z ->
  pollLoop (S fuel) start previousHash previousTree
    (mkWorld (now :: readings) (inl e :: trees) shots calls)
  = Rejected e (mkWorld readings trees shots (calls ++ [capture])).
Proof.
  intros H. simpl. unfold bind, Date_now; simpl.
  apply Z.ltb_lt in H. now rewrite H.
Qed.

Lemma adjacent_distinct_never_converges (previousHash : string) trees :
  adjacent_distinct (previousHash :: map hash trees) -> never_converges previousHash trees.
Proof.
  revert previousHash. induction trees as [|tree trees IH]; intros previousHash; simpl.
  - trivial.
  - intros [Hne Hrest]. split; [|now apply IH].
    destruct (converges previousHash tree) eqn:C; [|reflexivity].
    apply converges_true in C. destruct C as [C _]. congruence.
Qed.

Lemma never_converges_first trees :
  adjacent_distinct (map hash trees) -> never_converges EmptyString trees.
Proof.
  destruct trees as [|tree trees]; simpl; [trivial|].
  intros H. split.
  - unfold Observe.converges. simpl. now rewrite andb_false_r.
  - now apply adjacent_distinct_never_converges.
Qed.

Lemma last_cons {A} (l : list A) (a d : A) : List.last (a :: l) d = List.last l a.
Proof.
  revert a d. induction l as [|b l IH]; intros a d; [reflexivity|].
  change (List.last (a :: b :: l) d) with (List.last (b :: l) d).
  now rewrite (IH b d), (IH b a).
Qed.

(** The loop that meets no convergence runs until the first reading past
    the deadline and returns the tree captured last. *)
Lemma poll_times_out trees :
  forall readings fuel start previousHash previousTree late more rest shots calls,
    List.length readings = List.length trees ->
    Forall (fun now => (now - start < timeoutMs)%Z) readings ->
    never_converges previousHash trees ->
    (timeoutMs <= late - start)%Z ->
    (List.length readings < fuel)%nat ->
    pollLoop fuel start previousHash previousTree
      (mkWorld (readings ++ late :: more) (map inr trees ++ rest) shots calls)
    = Resolved (TimedOut, List.last trees previousTree)
        (mkWorld more rest shots (calls ++ rounds trees)).
Proof.
  induction trees as [|tree trees IH];
    intros readings fuel start previousHash previousTree late more rest shots calls
      Hlen Hin Hnc Hlate Hfuel.
  - destruct readings; [|discriminate]. simpl in *.
    destruct fuel as [|fuel]; [lia|].
    rewrite (poll_deadline _ _ _ _ _ _ _ _ _ Hlate). now rewrite app_nil_r.
  - destruct readings as [|now readings]; [discriminate|].
    destruct fuel as [|fuel]; [simpl in Hfuel; lia|].
    inversion Hin as [|? ? Hnow Hin']; subst.
    destruct Hnc as [Hc Hnc]. cbn [app map].
    rewrite (poll_continue _ _ _ _ _ _ _ _ _ _ Hnow Hc).
    rewrite (IH readings fuel start (hash tree) tree late more rest shots);
      [ | simpl in Hlen; lia | assumption | assumption | assumption
        | simpl in Hfuel; lia ].
    f_equal.
    + f_equal. symmetry. apply last_cons.
    + f_equal. unfold Notions.rounds. simpl. now rewrite <- app_assoc.
Qed.

Lemma captureCount_app (l1 l2 : list Call) :
  captureCount (l1 ++ l2) = (captureCount l1 + captureCount l2)%nat.
Proof. unfold captureCount. now rewrite List.filter_app, List.length_app. Qed.

(** Convergence needs a capture, and a second one when the loop starts
    without a previous signature. *)
Lemma poll_converged fuel :
  forall start previousHash previousTree w tree w',
    pollLoop fuel start previousHash previousTree w = Resolved (Converged, tree) w' ->
    (captureCount (calls w) + 1 <= captureCount (calls w'))%nat
    /\ (previousHash = EmptyString ->
        (captureCount (calls w) + 2 <= captureCount (calls w'))%nat).
Proof.
  induction fuel as [|fuel IH]; intros start previousHash previousTree w tree w' H;
    [discriminate|].
  destruct w as [readings trees shots made].
  destruct readings as [|now readings]; [discriminate|].
  destruct (Z.ltb_spec (now - start) timeoutMs) as [Hin|Hout].
  - destruct trees as [|[e|captured] trees].
    + simpl in H. unfold bind, Date_now in H; simpl in H.
      apply Z.ltb_lt in Hin. rewrite Hin in H. discriminate.
    + rewrite (poll_reject _ _ _ _ _ _ _ _ _ _ Hin) in H. discriminate.
    + destruct (converges previousHash captured) eqn:C.
      * rewrite (poll_converge _ _ _ _ _ _ _ _ _ _ Hin C) in H.
        injection H as _ <-. cbn [calls]. rewrite captureCount_app.
        split; [cbn; lia|].
        intros ->. apply converges_true in C. destruct C as [_ C]. congruence.
      * rewrite (poll_continue _ _ _ _ _ _ _ _ _ _ Hin C) in H.
        apply IH in H. destruct H as [H _]. cbn [calls] in *.
        rewrite captureCount_app in H. cbn in H. split; [lia|intros _; lia].
  - rewrite (poll_deadline _ _ _ _ _ _ _ _ _ Hout) in H. discriminate.
Qed.

(** C1 as amended.  When the first three captures are observed (each of the
    three loop tests finds the clock before the deadline and each capture
    yields a tree), the first and the second signatures differ, and the
    second and the third signatures are equal and not empty, the detector
    declares convergence at the third capture: it returns the tree of the
    third capture after exactly three captures and two waits. *)
Theorem waitForStableUiTree_converges_at_third
    start r1 r2 r3 readings c1 c2 c3 rest shots made :
  (r1 - start < timeoutMs)%Z ->
  (r2 - start < timeoutMs)%Z ->
  (r3 - start < timeoutMs)%Z ->
  hash c1 <> hash c2 ->
  hash c2 = hash c3 ->
  hash c2 <> EmptyString ->
  detect Number_toString platform deviceId pollIntervalMs timeoutMs
    (mkWorld (start :: r1 :: r2 :: r3 :: readings)
             (inr c1 :: inr c2 :: inr c3 :: rest) shots made)
  = Resolved (Converged, c3)
      (mkWorld readings rest shots
         (made ++ [capture; Delay pollIntervalMs; capture; Delay pollIntervalMs; capture]))
  /\ waitForStableUiTree Number_toString platform deviceId pollIntervalMs timeoutMs
       (mkWorld (start :: r1 :: r2 :: r3 :: readings)
                (inr c1 :: inr c2 :: inr c3 :: rest) shots made)
     = Resolved c3
         (mkWorld readings rest shots
            (made ++ [capture; Delay pollIntervalMs; capture; Delay pollIntervalMs; capture])).
Proof.
  intros H1 H2 H3 Hne Heq Hnonempty.
  assert (C1 : converges EmptyString c1 = false).
  { unfold Observe.converges. simpl. now rewrite andb_false_r. }
  assert (C2 : converges (hash c1) c2 = false).
  { destruct (converges (hash c1) c2) eqn:C; [|reflexivity].
    apply converges_true in C. destruct C as [C _]. congruence. }
  assert (C3 : converges (hash c2) c3 = true).
  { apply converges_true. split; [congruence|assumption]. }
  assert (D : detect Number_toString platform deviceId pollIntervalMs timeoutMs
                (mkWorld (start :: r1 :: r2 :: r3 :: readings)
                   (inr c1 :: inr c2 :: inr c3 :: rest) shots made)
              = Resolved (Converged, c3)
                  (mkWorld readings rest shots
                     (made ++ [capture; Delay pollIntervalMs; capture;
                               Delay pollIntervalMs; capture]))).
  { unfold detect, bind at 1, Date_now at 1. cbn [clock uiTrees screenshots calls List.length].
    rewrite (poll_continue _ _ _ _ _ _ _ _ _ _ H1 C1).
    rewrite (poll_continue _ _ _ _ _ _ _ _ _ _ H2 C2).
    rewrite (poll_converge _ _ _ _ _ _ _ _ _ _ H3 C3).
    now rewrite <- !app_assoc. }
  split; [exact D|].
  unfold waitForStableUiTree, bind. now rewrite D.
Qed.

(** C2 as amended.  Whatever the poll interval and the timeout, a run that
    declares convergence has taken at least two captures: convergence is
    never declared on the first capture. *)
Theorem convergence_needs_two_captures w tree w' :
  detect Number_toString platform deviceId pollIntervalMs timeoutMs w
  = Resolved (Converged, tree) w' ->
  (captureCount (calls w) + 2 <= captureCount (calls w'))%nat.
Proof.
  unfold detect, bind at 1, Date_now at 1.
  destruct w as [readings trees shots made]. cbn [clock uiTrees screenshots calls].
  destruct readings as [|start readings]; [discriminate|].
  intros H. apply poll_converged in H. destruct H as [_ H]. now apply H.
Qed.

(** C3.  When the loop test finds the clock at or past the deadline after
    captures of which no two consecutive ones have equal signatures, the
    detector resolves, without raising, to the most recent captured tree:
    the last of [trees], the captures taken.  (When the deadline precedes the
    first capture there is no capture, and the result is the empty tree the
    detector starts with.) *)
Theorem waitForStableUiTree_soft_timeout
    start readings late more trees rest shots made :
  List.length readings = List.length trees ->
  Forall (fun now => (now - start < timeoutMs)%Z) readings ->
  (timeoutMs <= late - start)%Z ->
  adjacent_distinct (map hash trees) ->
  waitForStableUiTree Number_toString platform deviceId pollIntervalMs timeoutMs
    (mkWorld (start :: readings ++ late :: more) (map inr trees ++ rest) shots made)
  = Resolved (List.last trees []) (mkWorld more rest shots (made ++ rounds trees)).
Proof.
  intros Hlen Hin Hlate Hdist.
  unfold waitForStableUiTree, detect, bind, Date_now.
  cbn [clock uiTrees screenshots calls].
  rewrite (poll_times_out trees readings _ start EmptyString [] late more
             rest shots made Hlen Hin (never_converges_first _ Hdist) Hlate).
  - reflexivity.
  - cbn [List.length]. rewrite List.length_app. cbn [List.length]. lia.
Qed.

(** Without any capture before the deadline the detector resolves to the
    empty tree it starts with. *)
Lemma waitForStableUiTree_no_capture start late more trees shots made :
  (timeoutMs <= late - start)%Z ->
  detect Number_toString platform deviceId pollIntervalMs timeoutMs
    (mkWorld (start :: late :: more) trees shots made)
  = Resolved (TimedOut, []) (mkWorld more trees shots made).
Proof.
  intros Hlate. unfold detect, bind at 1, Date_now at 1.
  cbn [clock uiTrees screenshots calls List.length].
  now rewrite (poll_deadline _ _ _ _ _ _ _ _ _ Hlate).
Qed.

End DetectorProperties.

Section DetectorRuns.
Import Js Types Async Observe Notions.

Lemma waitForStableUiTree_converges_at_third_witness :
  waitForStableUiTree decimal android None 500 10000
    (mkWorld [0; 3; 520; 1040; 1560]%Z
       [inr loadingScreen; inr doneScreen; inr doneScreenLater; inr loadingScreen] [] [])
  = Resolved doneScreenLater
      (mkWorld [1560]%Z [inr loadingScreen] []
         [GetUiTree android None; Delay 500; GetUiTree android None; Delay 500;
          GetUiTree android None]).
Proof.
  apply (waitForStableUiTree_converges_at_third decimal android None 500 10000
           0 3 520 1040 [1560]%Z loadingScreen doneScreen doneScreenLater
           [inr loadingScreen] [] []); try lia;
    vm_compute; congruence.
Defined.

(** C1 as stated fails.  Three captures are observed, the first signature
    differs from the second, the second equals the third, but both are the
    empty signature of a screen that shows its status bar only: the
    detector does not converge at the third capture, goes on, and resolves
    at its deadline to the tree of a fourth capture. *)
Lemma waitForStableUiTree_converges_at_third_counterexample :
  ~ (forall (Number_toString : number -> string) platform deviceId pollIntervalMs timeoutMs
            start r1 r2 r3 readings c1 c2 c3 rest shots made,
        (r1 - start < timeoutMs)%Z ->
        (r2 - start < timeoutMs)%Z ->
        (r3 - start < timeoutMs)%Z ->
        hashUiTree Number_toString c1 <> hashUiTree Number_toString c2 ->
        hashUiTree Number_toString c2 = hashUiTree Number_toString c3 ->
        exists w',
          detect Number_toString platform deviceId pollIntervalMs timeoutMs
            (mkWorld (start :: r1 :: r2 :: r3 :: readings)
                     (inr c1 :: inr c2 :: inr c3 :: rest) shots made)
          = Resolved (Converged, c3) w').
Proof.
  intros H.
  destruct (H decimal android None 500%Z 10000%Z
              0%Z 3%Z 520%Z 1040%Z [1560; 10080]%Z
              loadingScreen (barOnly "12:00") (barOnly "12:01")
              [inr doneScreen] [] [])
    as [w' E]; try lia; try (vm_compute; congruence).
  vm_compute in E. discriminate E.
Qed.

(** The run of the counterexample: what the detector returns is the fourth
    capture. *)
Example waitForStableUiTree_empty_signature_run :
  waitForStableUiTree decimal android None 500 10000
    (mkWorld [0; 3; 520; 1040; 1560; 10080]%Z
       [inr loadingScreen; inr (barOnly "12:00"); inr (barOnly "12:01"); inr doneScreen]
       [] [])
  = Resolved doneScreen
      (mkWorld [] [] []
         [GetUiTree android None; Delay 500; GetUiTree android None; Delay 500;
          GetUiTree android None; Delay 500; GetUiTree android None; Delay 500]).
Proof. vm_compute. reflexivity. Qed.

Lemma convergence_needs_two_captures_witness :
  (captureCount [] + 2
   <= captureCount [GetUiTree android None; Delay 500; GetUiTree android None])%nat.
Proof.
  apply (convergence_needs_two_captures decimal android None 500 10000
           (mkWorld [0; 3; 520; 1040]%Z [inr doneScreen; inr doneScreenLater] [] [])
           doneScreenLater
           (mkWorld [1040]%Z [] []
              [GetUiTree android None; Delay 500; GetUiTree android None])).
  vm_compute. reflexivity.
Defined.

(** C2 as stated fails.  A first capture that returns after the deadline is
    the only capture of the run: the detector resolves, without any
    failure, after one capture. *)
Lemma at_least_two_captures_counterexample :
  ~ (forall (Number_toString : number -> string) platform deviceId pollIntervalMs timeoutMs
            w exit tree w',
        detect Number_toString platform deviceId pollIntervalMs timeoutMs w
        = Resolved (exit, tree) w' ->
        (captureCount (calls w) + 2 <= captureCount (calls w'))%nat).
Proof.
  intros H.
  specialize (H decimal android None 500%Z 10000%Z
                (mkWorld [0; 3; 12500]%Z [inr loadingScreen] [] [])
                TimedOut loadingScreen
                (mkWorld [] [] [] [GetUiTree android None; Delay 500])).
  vm_compute in H. specialize (H eq_refl). lia.
Qed.

(** With a timeout that is not positive the detector takes no capture at
    all and resolves to the empty tree. *)
Example waitForStableUiTree_zero_timeout :
  detect decimal android None 500 0
    (mkWorld [1000; 1000]%Z [inr loadingScreen] [] [])
  = Resolved (TimedOut, []) (mkWorld [] [inr loadingScreen] [] []).
Proof. vm_compute. reflexivity. Qed.

Lemma waitForStableUiTree_soft_timeout_witness :
  waitForStableUiTree decimal android None 500 1000
    (mkWorld [0; 3; 520; 1040]%Z [inr loadingScreen; inr doneScreen] [] [])
  = Resolved doneScreen
      (mkWorld [] [] []
         [GetUiTree android None; Delay 500; GetUiTree android None; Delay 500]).
Proof.
  apply (waitForStableUiTree_soft_timeout decimal android None 500 1000
           0 [3; 520]%Z 1040 [] [loadingScreen; doneScreen] [] [] []).
  - reflexivity.
  - repeat constructor.
  - lia.
  - vm_compute. split; [congruence|exact I].
Defined.

End DetectorRuns.

(** ** The observation orchestrator *)

Section OrchestratorProperties.
Import Js Types Async UiFilter Observe Notions.
Variable Number_toString : number -> string.

Abbreviation observe := (performObservation Number_toString).

(** The includeAll argument the orchestrator hands to the filter. *)
Abbreviation includeAllOf options := (Some (negb (default true (filterUi options)))).

(** The capture that follows the wait: once the wait has resolved, a mode
    that requests a tree takes exactly one tree capture and stores it,
    filtered, in the result. *)
Lemma capture_after_settle options w w1 tree trees :
  wantTree (mode options) = true ->
  settle Number_toString options w = Resolved tt w1 ->
  uiTrees w1 = inr tree :: trees ->
  (wantScreenshot (mode options) = true ->
   exists shot shots, screenshots w1 = inr shot :: shots) ->
  exists res w2,
    observe options w = Resolved (Some res) w2
    /\ uiTree res = Some (filterUiElements tree (includeAllOf options))
    /\ uiTrees w2 = trees
    /\ captureCount (calls w2) = (captureCount (calls w1) + 1)%nat.
Proof.
  intros Hwant Hsettle Htrees Hshots.
  unfold performObservation.
  destruct (mode options) eqn:M; try discriminate Hwant.
  - unfold bind at 1. rewrite Hsettle.
    cbn [wantTree wantScreenshot].
    unfold bind, all2, getUiTree, ret. rewrite Htrees. cbn -[captureCount].
    eexists _, _. split; [reflexivity|]. cbn -[captureCount].
    repeat split. rewrite captureCount_app. reflexivity.
  - destruct (Hshots eq_refl) as (shot & shots & Hs).
    unfold bind at 1. rewrite Hsettle.
    cbn [wantTree wantScreenshot].
    unfold bind, all2, getUiTree, getScreenshot, ret. rewrite Htrees. cbn -[captureCount].
    rewrite Hs.
    eexists _, _. split; [reflexivity|]. cbn -[captureCount].
    repeat split. rewrite !captureCount_app. cbn. lia.
Qed.

(** C6.  When the mode requests a tree, the captured tree goes through the
    element filter with includeAll equal to the negation of the filterUi
    option: filterUi = false gives includeAll = true, hence the tree
    unfiltered, and filterUi left out or true gives includeAll = false,
    hence the filtered tree. *)
Theorem performObservation_filter_flag options w w1 tree trees :
  wantTree (mode options) = true ->
  settle Number_toString options w = Resolved tt w1 ->
  uiTrees w1 = inr tree :: trees ->
  (wantScreenshot (mode options) = true ->
   exists shot shots, screenshots w1 = inr shot :: shots) ->
  exists res w2,
    observe options w = Resolved (Some res) w2
    /\ uiTree res
       = Some (filterUiElements tree (Some (negb (default true (filterUi options)))))
    /\ (filterUi options = Some false ->
        uiTree res = Some (filterUiElements tree (Some true)) /\ uiTree res = Some tree)
    /\ (filterUi options = None \/ filterUi options = Some true ->
        uiTree res = Some (filterUiElements tree (Some false))).
Proof.
  intros Hwant Hsettle Htrees Hshots.
  destruct (capture_after_settle options w w1 tree trees Hwant Hsettle Htrees Hshots)
    as (res & w2 & Hrun & Htree & _).
  exists res, w2. split; [exact Hrun|]. split; [exact Htree|]. split.
  - intros F. rewrite F in Htree. cbn in Htree. split; exact Htree.
  - intros [F|F]; rewrite F in Htree; exact Htree.
Qed.

(** C10.  With stabilize set and a mode that requests a tree, the tree the
    stability detector resolves to is dropped: after the detector the
    orchestrator takes one more tree capture, and the uiTree of the result
    is that capture, filtered. *)
Theorem performObservation_recaptures_after_stabilize options w detected w1 tree trees :
  default false (stabilize options) = true ->
  wantTree (mode options) = true ->
  waitForStableUiTree Number_toString (platform options) (deviceId options)
    (default 500%Z (stabilizePollMs options))
    (default 10000%Z (stabilizeTimeoutMs options)) w
  = Resolved detected w1 ->
  uiTrees w1 = inr tree :: trees ->
  (wantScreenshot (mode options) = true ->
   exists shot shots, screenshots w1 = inr shot :: shots) ->
  exists res w2,
    observe options w = Resolved (Some res) w2
    /\ uiTree res
       = Some (filterUiElements tree (Some (negb (default true (filterUi options)))))
    /\ uiTrees w2 = trees
    /\ captureCount (calls w2) = (captureCount (calls w1) + 1)%nat.
Proof.
  intros Hstab Hwant Hwait Htrees Hshots.
  apply (capture_after_settle options w w1 tree trees Hwant); try assumption.
  unfold settle. rewrite Hstab. unfold bind. now rewrite Hwait.
Qed.

(** Mode none makes no call at all and yields no result. *)
Lemma performObservation_none options w :
  mode options = Mode.none -> observe options w = Resolved None w.
Proof. intros M. unfold performObservation. now rewrite M. Qed.

End OrchestratorProperties.

Section OrchestratorRuns.
Import Js Types Async UiFilter Observe Notions.

Lemma performObservation_filter_flag_witness :
  exists res w2,
    performObservation decimal (sampleOptions Mode.ui_tree None (Some false))
      (mkWorld [] [inr doneScreen] [] [])
    = Resolved (Some res) w2
    /\ uiTree res = Some doneScreen.
Proof.
  destruct (performObservation_filter_flag decimal
              (sampleOptions Mode.ui_tree None (Some false))
              (mkWorld [] [inr doneScreen] [] []) (mkWorld [] [inr doneScreen] [] [])
              doneScreen [] eq_refl eq_refl eq_refl)
    as (res & w2 & Hrun & _ & Hoff & _).
  - discriminate.
  - exists res, w2. split; [exact Hrun|]. exact (proj2 (Hoff eq_refl)).
Defined.

(** The default of filterUi filters: the panel without text is dropped. *)
Example performObservation_default_filters :
  performObservation decimal (sampleOptions Mode.ui_tree None None)
    (mkWorld [] [inr doneScreen] [] [])
  = Resolved (Some (mkObservationResult (Some [statusClock "12:00"; button 2 "Done"]) None))
      (mkWorld [] [] [] [GetUiTree android (Some "emulator-5554")]).
Proof. vm_compute. reflexivity. Qed.

Lemma performObservation_recaptures_after_stabilize_witness :
  exists res w2,
    performObservation decimal (sampleOptions Mode.ui_tree (Some true) (Some false))
      (mkWorld [0; 3; 520]%Z [inr loadingScreen; inr loadingScreen; inr doneScreen] [] [])
    = Resolved (Some res) w2
    /\ uiTree res = Some doneScreen
    /\ uiTrees w2 = []
    /\ captureCount (calls w2) = 3%nat.
Proof.
  destruct (performObservation_recaptures_after_stabilize decimal
              (sampleOptions Mode.ui_tree (Some true) (Some false))
              (mkWorld [0; 3; 520]%Z
                 [inr loadingScreen; inr loadingScreen; inr doneScreen] [] [])
              loadingScreen
              (mkWorld [] [inr doneScreen] []
                 [GetUiTree android (Some "emulator-5554"); Delay 500;
                  GetUiTree android (Some "emulator-5554")])
              doneScreen [] eq_refl eq_refl)
    as (res & w2 & Hrun & Htree & Hrest & Hcount).
  - vm_compute. reflexivity.
  - reflexivity.
  - discriminate.
  - exists res, w2. repeat split; assumption.
Defined.

End OrchestratorRuns.

(** ** Regular expressions: matching a run of a class *)

Section RegexFacts.
Import Js Regex Notions.

Lemma string_length_app (s1 s2 : string) :
  String.length (s1 ++ s2) = (String.length s1 + String.length s2)%nat.
Proof. induction s1 as [|c s1 IH]; simpl; [reflexivity|now rewrite IH]. Qed.

Lemma substring_prefix (s1 s2 : string) : substring 0 (String.length s1) (s1 ++ s2) = s1.
Proof.
  induction s1 as [|c s1 IH]; simpl.
  - destruct s2; reflexivity.
  - now rewrite IH.
Qed.

Lemma consumed_app (s1 s2 : string) : consumed (s1 ++ s2) s2 = s1.
Proof.
  unfold consumed. rewrite string_length_app.
  replace (String.length s1 + String.length s2 - String.length s2)%nat
    with (String.length s1) by lia.
  apply substring_prefix.
Qed.

(** A greedy quantifier without upper bound takes a whole run of its class
    when the continuation accepts what follows the run. *)
Lemma rep_greedy_run {A} (lo : nat) (cls : ascii -> bool) (k : string -> option A)
    (d rest : string) (r : A) :
  allOf cls d = true ->
  stopsAt cls rest = true ->
  k rest = Some r ->
  forall n, (lo <= n + String.length d)%nat ->
  rep true lo None cls k n (d ++ rest) = Some r.
Proof.
  intros Hall Hstop Hk. induction d as [|c d IH]; intros n Hlo.
  - simpl in Hlo. apply Nat.leb_le in Hlo. rewrite Nat.add_0_r in Hlo.
    destruct rest as [|c rest]; simpl.
    + now rewrite Hlo.
    + simpl in Hstop. apply negb_true_iff in Hstop. rewrite Hstop. now rewrite Hlo.
  - simpl in Hall. apply andb_true_iff in Hall. destruct Hall as [Hc Hall].
    simpl. rewrite Hc. rewrite (IH Hall (S n)); [reflexivity|simpl in Hlo; lia].
Qed.

(** A capture group around a greedy run of at least one character. *)
Lemma run_group (r : regex) (cls : ascii -> bool) (opened caps : list string)
    (d rest : string) (res : list string * string) :
  allOf cls d = true ->
  isEmpty d = false ->
  stopsAt cls rest = true ->
  run r opened (caps ++ [d]) rest = Some res ->
  run (Open :: Rep true 1 None cls :: Close :: r) opened caps (d ++ rest) = Some res.
Proof.
  intros Hall Hne Hstop Hrun. cbn [run].
  apply rep_greedy_run; try assumption.
  - cbn [run]. now rewrite consumed_app.
  - destruct d; [discriminate|simpl; lia].
Qed.

End RegexFacts.

(** ** The Android parser *)

Section NumeralFacts.
Import Js Regex Notions.

Lemma uint_text_digits (d : Decimal.uint) :
  allOf isDigit (NilEmpty.string_of_uint d) = true.
Proof. induction d; simpl; auto. Qed.

Lemma numeral_digits (n : N) :
  allOf isDigit (numeral n) = true /\ isEmpty (numeral n) = false.
Proof.
  unfold numeral, NilZero.string_of_uint.
  destruct (N.to_uint n) eqn:E; try (split; [|reflexivity]);
    try (rewrite <- E; rewrite E; apply (uint_text_digits _)).
  reflexivity.
Qed.

Lemma parseDigits_uint_acc (d : Decimal.uint) :
  forall acc : positive,
    parseDigits (Z.pos acc) (NilEmpty.string_of_uint d) = Z.pos (Pos.of_uint_acc d acc).
Proof.
  induction d; intros acc; cbn [NilEmpty.string_of_uint parseDigits Pos.of_uint_acc];
    [reflexivity| | | | | | | | | | ];
    (change (isDigit _) with true; cbv iota;
     match goal with
     | |- context [digitValue ?c] =>
         let v := eval vm_compute in (digitValue c) in
         change (digitValue c) with v
     end;
     rewrite <- IHd; f_equal; lia).
Qed.

Lemma parseDigits_uint (d : Decimal.uint) :
  parseDigits 0 (NilEmpty.string_of_uint d) = Z.of_N (Pos.of_uint d).
Proof.
  induction d; cbn [NilEmpty.string_of_uint parseDigits Pos.of_uint];
    [reflexivity| | | | | | | | | | ];
    change (isDigit _) with true; cbv iota;
    match goal with
    | |- context [digitValue ?c] =>
        let v := eval vm_compute in (digitValue c) in
        change (digitValue c) with v
    end;
    [exact IHd| | | | | | | | | ];
    cbn [Z.mul Z.add Z.of_N]; apply (parseDigits_uint_acc d).
Qed.

(** The digits of the numeral of a number write that number. *)
Lemma parseDigits_numeral (n : N) : parseDigits 0 (numeral n) = Z.of_N n.
Proof.
  rewrite <- (DecimalN.Unsigned.of_to n) at 2.
  unfold numeral, NilZero.string_of_uint, N.of_uint.
  destruct (N.to_uint n) eqn:E; try (rewrite <- E; rewrite E; now apply parseDigits_uint).
  reflexivity.
Qed.

(** Parsing the decimal numeral of a natural number below 2^53 gives that
    number. *)
Lemma parseInt_numeral (n : N) :
  (Z.of_N n < 2 ^ 53)%Z -> parseInt (numeral n) = inject_Z (Z.of_N n).
Proof.
  intros H. unfold parseInt. rewrite parseDigits_numeral.
  apply toDouble_integer. lia.
Qed.

End NumeralFacts.

Section AndroidParserProperties.
Import Js Types Regex Android Notions.

Lemma strip_app (l s : string) : strip l (l ++ s) = Some s.
Proof.
  induction l as [|c l IH]; simpl.
  - destruct s; reflexivity.
  - now rewrite Ascii.eqb_refl.
Qed.

Lemma run_lit (l : string) (r : regex) (opened caps : list string) (s : string) :
  run (Lit l :: r) opened caps (l ++ s) = run r opened caps s.
Proof. cbn [run]. now rewrite strip_app. Qed.

(** The bounds expression on two corner points written in digits. *)
Lemma bounds_run (d1 d2 d3 d4 : string) :
  allOf isDigit d1 = true -> isEmpty d1 = false ->
  allOf isDigit d2 = true -> isEmpty d2 = false ->
  allOf isDigit d3 = true -> isEmpty d3 = false ->
  allOf isDigit d4 = true -> isEmpty d4 = false ->
  run boundsRegex [] [] (boundsText d1 d2 d3 d4) = Some ([d1; d2; d3; d4], EmptyString).
Proof.
  intros A1 E1 A2 E2 A3 E3 A4 E4. unfold boundsRegex, boundsText.
  rewrite run_lit. apply run_group; [assumption|assumption|reflexivity|]. cbn [app].
  rewrite run_lit. apply run_group; [assumption|assumption|reflexivity|]. cbn [app].
  rewrite run_lit. apply run_group; [assumption|assumption|reflexivity|]. cbn [app].
  rewrite run_lit. apply run_group; [assumption|assumption|reflexivity|]. cbn [app].
  reflexivity.
Qed.

Lemma bounds_search (d1 d2 d3 d4 : string) :
  allOf isDigit d1 = true -> isEmpty d1 = false ->
  allOf isDigit d2 = true -> isEmpty d2 = false ->
  allOf isDigit d3 = true -> isEmpty d3 = false ->
  allOf isDigit d4 = true -> isEmpty d4 = false ->
  exists m, search boundsRegex (boundsText d1 d2 d3 d4) = Some m
            /\ groups m = [d1; d2; d3; d4].
Proof.
  intros A1 E1 A2 E2 A3 E3 A4 E4.
  pose proof (bounds_run d1 d2 d3 d4 A1 E1 A2 E2 A3 E3 A4 E4) as R.
  unfold boundsText in *. cbn [append search]. unfold exec_at.
  cbn [append] in R. rewrite R. eexists. split; reflexivity.
Qed.

Lemma inject_Z_minus (a b : Z) : (inject_Z a - inject_Z b)%Q = inject_Z (a - b).
Proof.
  unfold Qminus, Qplus, Qopp, inject_Z. cbn [Qnum Qden].
  f_equal. lia.
Qed.

(** What [parseNode] makes of a node whose bounds text matches. *)
Lemma parseNode_match (index : nat) (attrs : string) (m : result) :
  search boundsRegex (default EmptyString (extractAttr attrs "bounds")) = Some m ->
  exists el,
    parseNode index attrs = Some el
    /\ bounds el = mkBounds (parseInt (group 1 m)) (parseInt (group 2 m))
                     (fsub (parseInt (group 3 m)) (parseInt (group 1 m)))
                     (fsub (parseInt (group 4 m)) (parseInt (group 2 m)))
    /\ center_x el = Math_round (fdiv (fadd (parseInt (group 1 m)) (parseInt (group 3 m))) 2%Q)
    /\ center_y el = Math_round (fdiv (fadd (parseInt (group 2 m)) (parseInt (group 4 m))) 2%Q)
    /\ text el = (if isEmpty (primaryText attrs) then accessibilityDescription attrs
                  else primaryText attrs)
    /\ index = Types.index el.
Proof.
  intros H. unfold parseNode. rewrite H. eexists. split; [reflexivity|].
  cbn. repeat split.
Qed.

Lemma parseNodes_In (nodes : list string) :
  forall index el, In el (parseNodes index nodes) ->
  exists i attrs, In attrs nodes /\ parseNode i attrs = Some el.
Proof.
  induction nodes as [|attrs nodes IH]; intros index el H; [contradiction|].
  cbn [parseNodes] in H.
  destruct (parseNode index attrs) as [el'|] eqn:E.
  - destruct H as [<-|H].
    + exists index, attrs. split; [now left|exact E].
    + destruct (IH _ _ H) as (i & a & Ha & Hp). exists i, a. split; [now right|exact Hp].
  - destruct (IH _ _ H) as (i & a & Ha & Hp). exists i, a. split; [now right|exact Hp].
Qed.

(** Every element [parseNode] makes comes from a match of the bounds
    expression and carries the rectangle and the centre computed from it. *)
Lemma parseNode_inv (index : nat) (attrs : string) (el : UiElement) :
  parseNode index attrs = Some el ->
  exists m,
    search boundsRegex (default EmptyString (extractAttr attrs "bounds")) = Some m
    /\ bounds el = mkBounds (parseInt (group 1 m)) (parseInt (group 2 m))
                     (fsub (parseInt (group 3 m)) (parseInt (group 1 m)))
                     (fsub (parseInt (group 4 m)) (parseInt (group 2 m)))
    /\ center_x el = Math_round (fdiv (fadd (parseInt (group 1 m)) (parseInt (group 3 m))) 2%Q)
    /\ center_y el = Math_round (fdiv (fadd (parseInt (group 2 m)) (parseInt (group 4 m))) 2%Q).
Proof.
  intros H.
  destruct (search boundsRegex (default EmptyString (extractAttr attrs "bounds")))
    as [m|] eqn:E.
  - destruct (parseNode_match index attrs m E) as (el' & Hel & Hb & Hcx & Hcy & _).
    rewrite H in Hel. injection Hel as <-. exists m. repeat split; assumption.
  - unfold parseNode in H. rewrite E in H. discriminate.
Qed.

End AndroidParserProperties.

Section AndroidParserRuns.
Import Js Types Regex Android Notions.

(** The test suite of the adapter: both nodes of its sample parse to the
    elements it expects. *)
Example parseUiXml_sample : parseUiXml sampleXml = [settingsElement; searchElement].
Proof. vm_compute. reflexivity. Qed.

(** A node whose bounds do not parse leaves no element and takes no index:
    the nodes around it parse as before. *)
Example parseUiXml_skips_offscreen :
  parseUiXml sampleXmlOffscreen = [settingsElement; searchElement].
Proof. vm_compute. reflexivity. Qed.

End AndroidParserRuns.

(** ** The text of a canonical element *)

Section TextProperties.
Import Js Types Regex Notions.

Lemma parseNode_text (index : nat) (attrs : string) (el : UiElement) :
  Android.parseNode index attrs = Some el ->
  text el = (if isEmpty (primaryText attrs) then accessibilityDescription attrs
             else primaryText attrs).
Proof.
  intros H.
  destruct (search Android.boundsRegex
              (default EmptyString (Android.extractAttr attrs "bounds"))) as [m|] eqn:E.
  - destruct (parseNode_match index attrs m E) as (el' & Hel & _ & _ & _ & Ht & _).
    congruence.
  - unfold Android.parseNode in H. rewrite E in H. discriminate.
Qed.

Lemma parseLines_In (JSON_parse : string -> option Idb.Entry) (lines : list string) :
  forall index el, In el (Ios.parseLines JSON_parse index lines) ->
  exists i line entry,
    In line lines /\ JSON_parse line = Some entry /\ el = Ios.entryElement i entry.
Proof.
  induction lines as [|line lines IH]; intros index el H; [contradiction|].
  cbn [Ios.parseLines] in H.
  destruct (JSON_parse line) as [entry|] eqn:E.
  - destruct H as [<-|H].
    + exists index, line, entry. repeat split; [now left|exact E].
    + destruct (IH _ _ H) as (i & l & e & Hl & Hp & He).
      exists i, l, e. repeat split; [now right|exact Hp|exact He].
  - destruct (IH _ _ H) as (i & l & e & Hl & Hp & He).
    exists i, l, e. repeat split; [now right|exact Hp|exact He].
Qed.

Lemma entryElement_text (index : nat) (entry : Idb.Entry) :
  text (Ios.entryElement index entry)
  = default EmptyString
      (firstPresent [Idb.title entry; Idb.AXLabel entry; Idb.label entry]).
Proof.
  unfold Ios.entryElement, Ios.coalesce. cbn [text firstPresent].
  destruct (Idb.title entry), (Idb.AXLabel entry), (Idb.label entry); reflexivity.
Qed.

End TextProperties.

Section TextRuns.
Import Js Types Regex Notions.

(** On iOS a title that is present and empty is the text: the accessibility
    label does not replace it. *)
Example parseIdbDescribeAll_empty_title :
  map text (Ios.parseIdbDescribeAll readSearchField searchFieldLine) = [EmptyString].
Proof. vm_compute. reflexivity. Qed.

(** C9 as stated fails on iOS.  The claim makes the text the title when the
    title is not empty and the accessibility description otherwise; for the
    record with the empty title and the label Search the parser yields the
    empty string. *)
Lemma element_text_fallback_counterexample :
  ~ (forall (JSON_parse : string -> option Idb.Entry) (output : string) (el : UiElement),
        In el (Ios.parseIdbDescribeAll JSON_parse output) ->
        exists line entry,
          In line (split LF (trim output))
          /\ JSON_parse line = Some entry
          /\ text el
             = (if isEmpty (default EmptyString (Idb.title entry))
                then default EmptyString (Ios.coalesce (Idb.AXLabel entry) (Idb.label entry))
                else default EmptyString (Idb.title entry))).
Proof.
  intros H.
  destruct (H readSearchField searchFieldLine (Ios.entryElement 0 searchFieldEntry))
    as (line & entry & Hline & Hparse & Htext).
  - vm_compute. left. reflexivity.
  - unfold readSearchField in Hparse.
    destruct (String.eqb line searchFieldLine); [|discriminate].
    injection Hparse as <-. vm_compute in Htext. discriminate Htext.
Qed.

End TextRuns.

(** ** The retrieval strategies of the Android adapter *)

Section StrategyProperties.
Import Js Types Async Android Notions.

Lemma parseUiXml_empty : parseUiXml EmptyString = [].
Proof. reflexivity. Qed.

(** The outcome of the body of the [try] with its [catch]. *)
Lemma attempt_hit strategy w elements w' :
  yields strategy w elements w' ->
  try_catch (attempt strategy) (ret None) w = Resolved (Some elements) w'.
Proof.
  intros (xml & Hs & Hp & Hne).
  unfold try_catch, attempt, bind. rewrite Hs.
  destruct xml as [|c xml]; cbn [isEmpty].
  - rewrite parseUiXml_empty in Hp. congruence.
  - rewrite Hp. destruct elements; [congruence|reflexivity].
Qed.

Lemma attempt_miss strategy w w' :
  misses strategy w w' ->
  try_catch (attempt strategy) (ret None) w = Resolved None w'.
Proof.
  intros [(e & Hs)|[Hs|(xml & Hs & Hp)]];
    unfold try_catch, attempt, bind; rewrite Hs; try reflexivity.
  destruct (isEmpty xml); [reflexivity|]. now rewrite Hp.
Qed.

(** The body of the [try] with its [catch] never rejects, and what it
    resolves to tells a hit from a miss. *)
Lemma attempt_inv strategy w found w' :
  try_catch (attempt strategy) (ret None) w = Resolved found w' ->
  match found with
  | Some elements => yields strategy w elements w'
  | None => misses strategy w w'
  end.
Proof.
  unfold try_catch, attempt, bind, ret.
  destruct (strategy w) as [[xml|] w1|e w1|] eqn:Hs; try discriminate.
  - destruct (isEmpty xml) eqn:Hx.
    + intros H. injection H as <- <-. right. right. exists xml. split; [exact Hs|].
      destruct xml; [reflexivity|discriminate].
    + destruct (parseUiXml xml) as [|el els] eqn:Hp; cbn [List.length Nat.ltb Nat.leb].
      * intros H. injection H as <- <-. right. right. exists xml. now split.
      * intros H. injection H as <- <-. exists xml.
        split; [exact Hs|]. split; [exact Hp|discriminate].
  - intros H. injection H as <- <-. right. now left.
  - intros H. injection H as <- <-. left. now exists e.
Qed.

Lemma attempt_no_reject strategy w e w' :
  try_catch (attempt strategy) (ret None) w <> Rejected e w'.
Proof.
  unfold try_catch, attempt, bind, ret.
  destruct (strategy w) as [[xml|] w1|e1 w1|]; try discriminate.
  destruct (isEmpty xml); [discriminate|].
  destruct (0 <? List.length (parseUiXml xml))%nat; discriminate.
Qed.

(** The loop does what the relation says. *)
Lemma tryStrategies_attempts strategies w found w' :
  attempts strategies w found w' -> tryStrategies strategies w = Resolved found w'.
Proof.
  induction 1 as [w|strategy strategies w elements w' Hy
                  |strategy strategies w w1 found w' Hm _ IH].
  - reflexivity.
  - cbn [tryStrategies]. unfold bind. now rewrite (attempt_hit _ _ _ _ Hy).
  - cbn [tryStrategies]. unfold bind. now rewrite (attempt_miss _ _ _ Hm).
Qed.

(** The loop does nothing but what the relation says. *)
Lemma tryStrategies_inv strategies :
  forall w found w',
    tryStrategies strategies w = Resolved found w' -> attempts strategies w found w'.
Proof.
  induction strategies as [|strategy strategies IH]; intros w found w' H.
  - injection H as <- <-. constructor.
  - cbn [tryStrategies] in H. unfold bind in H.
    destruct (try_catch (attempt strategy) (ret None) w) as [[elements|] w1|e w1|] eqn:Ha;
      try discriminate.
    + injection H as <- <-. apply attempts_hit. exact (attempt_inv _ _ _ _ Ha).
    + apply attempts_miss with w1; [exact (attempt_inv _ _ _ _ Ha)|now apply IH].
Qed.

Lemma tryStrategies_no_reject strategies :
  forall w e w', tryStrategies strategies w <> Rejected e w'.
Proof.
  induction strategies as [|strategy strategies IH]; intros w e w'; [discriminate|].
  cbn [tryStrategies]. unfold bind.
  destruct (try_catch (attempt strategy) (ret None) w) as [[elements|] w1|e1 w1|] eqn:Ha;
    try discriminate.
  - apply IH.
  - exfalso. exact (attempt_no_reject _ _ _ _ Ha).
Qed.

(** The third and the fourth strategy are the first and the second after a
    wait of 800 ms. *)
Lemma delayed_strategy {A} (strategy : async World A) (w : World) :
  bind (delay 800%Z) (fun _ => strategy) w
  = strategy (mkWorld (answers w) (trace w ++ [Sleep 800%Z])).
Proof. reflexivity. Qed.

(** C8 as amended.  A call whose device cannot be resolved rejects with the
    error of the lookup, and no strategy runs.  Once the device is resolved,
    the four strategies are tried in the order tty, file, tty after the
    settle delay, file after the settle delay, the delay being a wait of
    800 ms before the dump command; the first one that succeeds and yields at
    least one parsed element ends the call with its elements and the later
    ones are not run; the call rejects when all four miss, with the error that
    advises a retry after a short delay; and it rejects in no other case. *)
Theorem getUiTree_strategies getFirstDeviceId deviceId w :
  (forall e w0,
      resolveDevice getFirstDeviceId deviceId w = Rejected e w0 ->
      getUiTree getFirstDeviceId deviceId w = Rejected e w0)
  /\ (forall id w0,
         resolveDevice getFirstDeviceId deviceId w = Resolved id w0 ->
         strategies id
         = [dumpUiViaTty id; dumpUiViaFile id;
            bind (delay 800%Z) (fun _ => dumpUiViaTty id);
            bind (delay 800%Z) (fun _ => dumpUiViaFile id)]
         /\ (forall v,
                bind (delay 800%Z) (fun _ => dumpUiViaTty id) v
                = dumpUiViaTty id (mkWorld (answers v) (trace v ++ [Sleep 800%Z]))
                /\ bind (delay 800%Z) (fun _ => dumpUiViaFile id) v
                   = dumpUiViaFile id (mkWorld (answers v) (trace v ++ [Sleep 800%Z])))
         /\ (forall output script log,
                dumpUiViaTty id (mkWorld (Exited output :: script) log)
                = Resolved (extractXml (trim (stripNul output)))
                    (mkWorld script
                       (log ++ [Exec (adb id "exec-out uiautomator dump /dev/tty") 30000%Z])))
         /\ (forall notice output script log,
                dumpUiViaFile id (mkWorld (Exited notice :: Exited output :: script) log)
                = Resolved (extractXml (trim (stripNul output)))
                    (mkWorld script
                       (log ++ [Exec (adb id "shell uiautomator dump /sdcard/window_dump.xml")
                                  30000%Z;
                                Exec (adb id "shell cat /sdcard/window_dump.xml") 10000%Z;
                                Detached (adb id "shell rm -f /sdcard/window_dump.xml")
                                  DEFAULT_TIMEOUT])))
         /\ (forall elements w',
                attempts (strategies id) w0 (Some elements) w' ->
                getUiTree getFirstDeviceId deviceId w = Resolved elements w')
         /\ (forall w1 w2 w3 w4,
                misses (dumpUiViaTty id) w0 w1 ->
                misses (dumpUiViaFile id) w1 w2 ->
                misses (bind (delay 800%Z) (fun _ => dumpUiViaTty id)) w2 w3 ->
                misses (bind (delay 800%Z) (fun _ => dumpUiViaFile id)) w3 w4 ->
                getUiTree getFirstDeviceId deviceId w = Rejected treeParseError w4))
  /\ (forall e w',
         getUiTree getFirstDeviceId deviceId w = Rejected e w' ->
         resolveDevice getFirstDeviceId deviceId w = Rejected e w'
         \/ (e = treeParseError
             /\ exists id w0 w1 w2 w3,
                  resolveDevice getFirstDeviceId deviceId w = Resolved id w0
                  /\ misses (dumpUiViaTty id) w0 w1
                  /\ misses (dumpUiViaFile id) w1 w2
                  /\ misses (bind (delay 800%Z) (fun _ => dumpUiViaTty id)) w2 w3
                  /\ misses (bind (delay 800%Z) (fun _ => dumpUiViaFile id)) w3 w')).
Proof.
  split; [|split].
  - intros e w0 Hid. unfold getUiTree, bind at 1. now rewrite Hid.
  - intros id w0 Hid. split; [reflexivity|]. split; [|split; [|split; [|split]]].
    + intros v. split; apply delayed_strategy.
    + intros output script log. reflexivity.
    + intros notice output script log.
      unfold dumpUiViaFile, bind, exec, exec_detached, ret.
      cbn [answers trace default]. now rewrite <- !app_assoc.
    + intros elements w' Ha. unfold getUiTree, bind at 1. rewrite Hid.
      unfold bind. now rewrite (tryStrategies_attempts _ _ _ _ Ha).
    + intros w1 w2 w3 w4 M1 M2 M3 M4. unfold getUiTree, bind at 1. rewrite Hid.
      unfold bind at 1.
      rewrite (tryStrategies_attempts (strategies id) w0 None w4); [reflexivity|].
      apply attempts_miss with w1; [exact M1|].
      apply attempts_miss with w2; [exact M2|].
      apply attempts_miss with w3; [exact M3|].
      apply attempts_miss with w4; [exact M4|].
      constructor.
  - intros e w' H. unfold getUiTree, bind at 1 in H.
    destruct (resolveDevice getFirstDeviceId deviceId w) as [id w0|e0 w0|] eqn:Hid;
      [|left; injection H as <- <-; reflexivity|discriminate].
    right. unfold bind at 1 in H.
    destruct (tryStrategies (strategies id) w0) as [[elements|] w1|e1 w1|] eqn:Ht;
      try discriminate.
    + injection H as <- <-. split; [reflexivity|].
      apply tryStrategies_inv in Ht.
      inversion Ht as [| |? ? ? x1 ? ? M1 R1]; subst.
      inversion R1 as [| |? ? ? x2 ? ? M2 R2]; subst.
      inversion R2 as [| |? ? ? x3 ? ? M3 R3]; subst.
      inversion R3 as [| |? ? ? x4 ? ? M4 R4]; subst.
      inversion R4; subst.
      exists id, w0, x1, x2, x3. repeat split; assumption.
    + exfalso. exact (tryStrategies_no_reject _ _ _ _ Ht).
Qed.

End StrategyProperties.

Section StrategyRuns.
Import Js Types Async Android Notions.

(** The tty dump is refused, the file dump works: the second strategy ends
    the call, and no wait and no further dump follows. *)
Lemma getUiTree_strategies_witness :
  getUiTree (throw noDevice) (Some "emulator-5554")
    (mkWorld [Failed "error: closed" "Command failed";
              Exited "UI hierchary dumped to: /sdcard/window_dump.xml";
              Exited sampleXml] [])
  = Resolved [settingsElement; searchElement]
      (mkWorld []
         [Exec "adb -s emulator-5554 exec-out uiautomator dump /dev/tty" 30000;
          Exec "adb -s emulator-5554 shell uiautomator dump /sdcard/window_dump.xml" 30000;
          Exec "adb -s emulator-5554 shell cat /sdcard/window_dump.xml" 10000;
          Detached "adb -s emulator-5554 shell rm -f /sdcard/window_dump.xml" 15000]).
Proof.
  destruct (getUiTree_strategies (throw noDevice) (Some "emulator-5554")
              (mkWorld [Failed "error: closed" "Command failed";
                        Exited "UI hierchary dumped to: /sdcard/window_dump.xml";
                        Exited sampleXml] [])) as (_ & Hresolved & _).
  destruct (Hresolved "emulator-5554"
              (mkWorld [Failed "error: closed" "Command failed";
                        Exited "UI hierchary dumped to: /sdcard/window_dump.xml";
                        Exited sampleXml] []) eq_refl)
    as (_ & _ & _ & _ & Hhit & _).
  apply Hhit.
  eapply attempts_miss.
  - left. eexists. lazy. reflexivity.
  - apply attempts_hit. exists sampleXml.
    split; [vm_compute; reflexivity|]. split; [vm_compute; reflexivity|discriminate].
Defined.

(** C8 as stated fails.  No device identifier is given and the device
    listing shows no device: the call rejects with the error of the lookup,
    not with the error that advises a retry, and no strategy has run. *)
Lemma getUiTree_strategies_counterexample :
  ~ (forall (getFirstDeviceId : async World string) (deviceId : option string)
            (w : World) (e : Error) (w' : World),
        getUiTree getFirstDeviceId deviceId w = Rejected e w' ->
        e = treeParseError).
Proof.
  intros H.
  specialize (H AndroidDevice.getFirstDeviceId None
                (mkWorld [Exited "List of devices attached"] [])
                AndroidDevice.noDeviceError
                (mkWorld [] [Exec "adb devices -l" 15000%Z]) eq_refl).
  discriminate H.
Qed.

(** The run of the counterexample: the only command is the device listing. *)
Example getUiTree_no_connected_device :
  getUiTree AndroidDevice.getFirstDeviceId None
    (mkWorld [Exited "List of devices attached"] [])
  = Rejected AndroidDevice.noDeviceError (mkWorld [] [Exec "adb devices -l" 15000%Z]).
Proof. reflexivity. Qed.

(** The test suite of the adapter: when every command fails, the four
    strategies run in their order, the two waits before the third and the
    fourth, and the call rejects with the advice to retry. *)
Example getUiTree_all_fail :
  getUiTree (throw noDevice) (Some "dev1")
    (mkWorld [Failed EmptyString "dump failed"; Failed EmptyString "dump failed";
              Failed EmptyString "dump failed"; Failed EmptyString "dump failed"] [])
  = Rejected treeParseError
      (mkWorld []
         [Exec "adb -s dev1 exec-out uiautomator dump /dev/tty" 30000;
          Exec "adb -s dev1 shell uiautomator dump /sdcard/window_dump.xml" 30000;
          Sleep 800;
          Exec "adb -s dev1 exec-out uiautomator dump /dev/tty" 30000;
          Sleep 800;
          Exec "adb -s dev1 shell uiautomator dump /sdcard/window_dump.xml" 30000]).
Proof. vm_compute. reflexivity. Qed.

(** Without a device identifier and without a connected device the call
    rejects before any strategy runs. *)
Example getUiTree_no_device :
  getUiTree (throw noDevice) None (mkWorld [Exited sampleXml] [])
  = Rejected noDevice (mkWorld [Exited sampleXml] []).
Proof. reflexivity. Qed.

End StrategyRuns.


(** * Further properties of the code *)

(** ** The signature and the detector *)

Section MoreSignatureProperties.
Import Js Types Async Observe Notions MoreNotions.
Variable Number_toString : number -> string.

Abbreviation hash' := (hashUiTree Number_toString).

Lemma sameSignature_stable (a b : UiElement) : sameSignature a b -> stable a = stable b.
Proof. intros (_ & _ & Hb & _). unfold stable. now rewrite Hb. Qed.

Lemma sameSignature_line (a b : UiElement) :
  sameSignature a b -> signatureLine Number_toString a = signatureLine Number_toString b.
Proof.
  intros (Ht & Hx & Hb & Hc). unfold signatureLine. now rewrite Ht, Hx, Hb, Hc.
Qed.

(** X1.  The signature reads the type, the text, the bounds and the
    clickable flag only: two trees whose elements agree on these four, one by
    one, have the same signature, whatever their indices, centres, resource
    identifiers, enabled and focused flags. *)
Theorem hashUiTree_reads_four_fields (l1 l2 : list UiElement) :
  Forall2 sameSignature l1 l2 -> hash' l1 = hash' l2.
Proof.
  intros H. unfold hashUiTree. f_equal.
  induction H as [|a b l1 l2 Hab _ IH]; [reflexivity|].
  cbn [List.filter]. rewrite (sameSignature_stable _ _ Hab).
  destruct (stable b); [|exact IH].
  cbn [map]. now rewrite (sameSignature_line _ _ Hab), IH.
Qed.

Lemma append_not_empty (s1 : string) (c : ascii) (s2 : string) :
  isEmpty (s1 ++ String c s2) = false.
Proof. destruct s1; reflexivity. Qed.

Lemma signatureLine_not_empty (el : UiElement) :
  isEmpty (signatureLine Number_toString el) = false.
Proof. unfold signatureLine. apply append_not_empty. Qed.

Lemma join_not_empty (sep line : string) (lines : list string) :
  isEmpty line = false -> isEmpty (join sep (line :: lines)) = false.
Proof.
  intros H. destruct lines as [|l lines]; cbn [join]; [exact H|].
  destruct line; [discriminate|reflexivity].
Qed.

(** X2.  The signature is the empty string exactly when no element is left
    outside the status bar band, that is when every element has [y < 60] and
    [height < 60] (the empty tree included). *)
Theorem hashUiTree_empty_iff (elements : list UiElement) :
  hash' elements = EmptyString <-> Forall volatile elements.
Proof.
  unfold hashUiTree. split.
  - intros H. apply List.Forall_forall. intros el Hin.
    apply (stable_false el).
    destruct (stable el) eqn:S; [|reflexivity]. exfalso.
    assert (Hf : In el (List.filter stable elements)).
    { apply List.filter_In. split; assumption. }
    destruct (List.filter stable elements) as [|a rest]; [contradiction|].
    cbn [map] in H.
    pose proof (join_not_empty (String LF EmptyString) _
                  (map (signatureLine Number_toString) rest)
                  (signatureLine_not_empty a)) as N.
    rewrite H in N. discriminate.
  - intros H. replace (List.filter stable elements) with (@nil UiElement); [reflexivity|].
    symmetry. induction H as [|el l V _ IH]; [reflexivity|].
    cbn [List.filter]. apply stable_false in V. now rewrite V.
Qed.

End MoreSignatureProperties.

Section MoreDetectorProperties.
Import Js Types Async Observe Notions MoreNotions.
Variable Number_toString : number -> string.
Variables (platform : Platform) (deviceId : option string).
Variables (pollIntervalMs timeoutMs : Z).

Abbreviation hash'' := (hashUiTree Number_toString).
Abbreviation pollLoop' := (poll Number_toString platform deviceId pollIntervalMs timeoutMs).
Abbreviation detector := (detect Number_toString platform deviceId pollIntervalMs timeoutMs).
Abbreviation waitStable :=
  (waitForStableUiTree Number_toString platform deviceId pollIntervalMs timeoutMs).

(** What a convergence of the loop rests on: the captures it consumed end
    with the returned tree, whose signature is not empty and equals the
    signature before it. *)
Lemma poll_converged_inv fuel :
  forall start previousHash previousTree w tree w',
    pollLoop' fuel start previousHash previousTree w = Resolved (Converged, tree) w' ->
    exists before,
      uiTrees w = (map inr before ++ inr tree :: uiTrees w')%list
      /\ List.last (map hash'' before) previousHash = hash'' tree
      /\ hash'' tree <> EmptyString.
Proof.
  induction fuel as [|fuel IH]; intros start previousHash previousTree w tree w' H;
    [discriminate|].
  destruct w as [readings trees shots made].
  destruct readings as [|now readings]; [discriminate|].
  destruct (Z.ltb_spec (now - start) timeoutMs) as [Hin|Hout].
  - destruct trees as [|[e|captured] trees].
    + simpl in H. unfold bind, Date_now in H; simpl in H.
      apply Z.ltb_lt in Hin. rewrite Hin in H. discriminate.
    + rewrite (poll_reject _ _ _ _ _ _ _ _ _ _ _ _ _ _ _ Hin) in H. discriminate.
    + destruct (converges Number_toString previousHash captured) eqn:C.
      * rewrite (poll_converge _ _ _ _ _ _ _ _ _ _ _ _ _ _ _ Hin C) in H.
        injection H as <- <-. exists []. cbn [map app uiTrees List.last].
        apply converges_true in C. destruct C as [C1 C2].
        repeat split; congruence.
      * rewrite (poll_continue _ _ _ _ _ _ _ _ _ _ _ _ _ _ _ Hin C) in H.
        apply IH in H. destruct H as (before & Ht & Hl & Hne).
        cbn [uiTrees] in *. exists (captured :: before).
        cbn [map app]. rewrite Ht. repeat split; [|exact Hne].
        rewrite <- Hl. apply last_cons.
  - rewrite (poll_deadline _ _ _ _ _ _ _ _ _ _ _ _ _ _ Hout) in H. discriminate.
Qed.

Lemma detect_converged_inv w tree w' :
  detector w = Resolved (Converged, tree) w' ->
  exists before previous,
    uiTrees w = (map inr before ++ inr previous :: inr tree :: uiTrees w')%list
    /\ hash'' previous = hash'' tree
    /\ hash'' tree <> EmptyString.
Proof.
  unfold detect, bind at 1, Date_now at 1.
  destruct w as [readings trees shots made]. cbn [clock uiTrees screenshots calls].
  destruct readings as [|start readings]; [discriminate|].
  intros H. apply poll_converged_inv in H. cbn [uiTrees] in H.
  destruct H as (before & Ht & Hl & Hne).
  destruct before as [|b before] using rev_ind.
  - cbn in Hl. congruence.
  - clear IHbefore. exists before, b.
    rewrite List.map_app in Hl. cbn [map] in Hl. rewrite List.last_last in Hl.
    rewrite Ht, List.map_app, <- app_assoc. repeat split; assumption.
Qed.

(** X3.  Convergence is sound: when the detector declares convergence, the
    tree it returns is the capture taken last, the capture just before it
    has the same signature, and that signature is not empty. *)
Theorem convergence_is_sound w tree w' :
  detect Number_toString platform deviceId pollIntervalMs timeoutMs w
  = Resolved (Converged, tree) w' ->
  exists before previous,
    uiTrees w = (map inr before ++ inr previous :: inr tree :: uiTrees w')%list
    /\ hashUiTree Number_toString previous = hashUiTree Number_toString tree
    /\ hashUiTree Number_toString tree <> EmptyString.
Proof. exact (detect_converged_inv w tree w'). Qed.

Lemma volatile_hash_empty (tree : list UiElement) :
  Forall volatile tree -> hash'' tree = EmptyString.
Proof.
  intros H. unfold hashUiTree.
  replace (List.filter stable tree) with (@nil UiElement); [reflexivity|].
  symmetry. induction H as [|el l V _ IH]; [reflexivity|].
  cbn [List.filter]. apply stable_false in V. now rewrite V.
Qed.

(** X4.  A device that shows status bar elements only (or nothing) never
    lets the detector declare convergence, however many equal captures it
    delivers: such a run ends at the deadline or with a failed capture. *)
Theorem bar_only_never_converges w tree w' :
  Forall barOnlyCapture (uiTrees w) ->
  detector w <> Resolved (Converged, tree) w'.
Proof.
  intros Hall H.
  destruct (detect_converged_inv _ _ _ H) as (before & previous & Ht & _ & Hne).
  rewrite Ht in Hall.
  apply Forall_app in Hall. destruct Hall as [_ Hall].
  inversion Hall as [|? ? _ Hrest]; subst.
  inversion Hrest as [|? ? Htree _]; subst.
  apply Hne. exact (volatile_hash_empty tree Htree).
Qed.

(** The loop that meets no convergence and then a capture that fails. *)
Lemma poll_rejects trees :
  forall readings fuel start previousHash previousTree now more e rest shots made,
    List.length readings = List.length trees ->
    Forall (fun r => (r - start < timeoutMs)%Z) readings ->
    never_converges Number_toString previousHash trees ->
    (now - start < timeoutMs)%Z ->
    (List.length readings < fuel)%nat ->
    pollLoop' fuel start previousHash previousTree
      (mkWorld (readings ++ now :: more) (map inr trees ++ inl e :: rest) shots made)
    = Rejected e
        (mkWorld more rest shots
           (made ++ rounds platform deviceId pollIntervalMs trees
              ++ [GetUiTree platform deviceId])).
Proof.
  induction trees as [|tree trees IH];
    intros readings fuel start previousHash previousTree now more e rest shots made
      Hlen Hin Hnc Hnow Hfuel.
  - destruct readings; [|discriminate]. simpl in *.
    destruct fuel as [|fuel]; [lia|].
    now rewrite (poll_reject _ _ _ _ _ _ _ _ _ _ _ _ _ _ _ Hnow).
  - destruct readings as [|r readings]; [discriminate|].
    destruct fuel as [|fuel]; [simpl in Hfuel; lia|].
    inversion Hin as [|? ? Hr Hin']; subst.
    destruct Hnc as [Hc Hnc]. cbn [app map].
    rewrite (poll_continue _ _ _ _ _ _ _ _ _ _ _ _ _ _ _ Hr Hc).
    rewrite (IH readings fuel start (hash'' tree) tree now more e rest shots);
      [ | simpl in Hlen; lia | assumption | assumption | assumption
        | simpl in Hfuel; lia ].
    f_equal. f_equal. unfold rounds. simpl. now rewrite <- !app_assoc.
Qed.

(** X5.  A capture that fails ends the detector with that failure: the
    captures taken before it are not returned, and the error is the one of
    the capture. *)
Theorem waitForStableUiTree_capture_failure
    start readings now more trees e rest shots made :
  List.length readings = List.length trees ->
  Forall (fun r => (r - start < timeoutMs)%Z) readings ->
  (now - start < timeoutMs)%Z ->
  adjacent_distinct (map hash'' trees) ->
  waitStable
    (mkWorld (start :: readings ++ now :: more) (map inr trees ++ inl e :: rest) shots made)
  = Rejected e
      (mkWorld more rest shots
         (made ++ rounds platform deviceId pollIntervalMs trees
            ++ [GetUiTree platform deviceId])).
Proof.
  intros Hlen Hin Hnow Hdist.
  unfold waitForStableUiTree, detect, bind, Date_now.
  cbn [clock uiTrees screenshots calls].
  rewrite (poll_rejects trees readings _ start EmptyString [] now more e rest shots made
             Hlen Hin (never_converges_first _ _ Hdist) Hnow).
  - reflexivity.
  - cbn [List.length]. rewrite List.length_app. cbn [List.length]. lia.
Qed.

End MoreDetectorProperties.

(** ** The orchestrator: both captures *)

Section MoreOrchestratorProperties.
Import Js Types Async UiFilter Observe Notions.
Variable Number_toString : number -> string.

Abbreviation observe' := (performObservation Number_toString).
Abbreviation treeCall options := (GetUiTree (platform options) (deviceId options)).
Abbreviation shotCall options := (GetScreenshot (platform options) (deviceId options)).

(** X6.  With mode both, once the wait has resolved, the orchestrator makes
    exactly one tree capture and one screenshot capture, the tree first, and
    both are present in the result. *)
Theorem performObservation_both options w w1 tree trees shot shots :
  mode options = Mode.both ->
  settle Number_toString options w = Resolved tt w1 ->
  uiTrees w1 = inr tree :: trees ->
  screenshots w1 = inr shot :: shots ->
  observe' options w
  = Resolved
      (Some (mkObservationResult
               (Some (filterUiElements tree (Some (negb (default true (filterUi options))))))
               (Some shot)))
      (mkWorld (clock w1) trees shots (calls w1 ++ [treeCall options; shotCall options])).
Proof.
  intros M Hsettle Htrees Hshots.
  unfold performObservation. rewrite M.
  unfold bind at 1. rewrite Hsettle. cbn [wantTree wantScreenshot].
  unfold bind, all2, getUiTree, getScreenshot, ret. rewrite Htrees.
  cbn [clock uiTrees screenshots calls]. rewrite Hshots.
  now rewrite <- app_assoc.
Qed.

(** X7.  With mode both the two captures stand or fall together: when the
    screenshot fails the observation rejects with its error although the
    tree was captured, and when the tree capture fails the observation
    rejects with the error of the tree although the screenshot was taken;
    both captures are made in either case. *)
Theorem performObservation_both_failure options w w1 :
  mode options = Mode.both ->
  settle Number_toString options w = Resolved tt w1 ->
  (forall tree trees e shots,
      uiTrees w1 = inr tree :: trees ->
      screenshots w1 = inl e :: shots ->
      observe' options w
      = Rejected e
          (mkWorld (clock w1) trees shots
             (calls w1 ++ [treeCall options; shotCall options])))
  /\ (forall e trees shot shots,
         uiTrees w1 = inl e :: trees ->
         screenshots w1 = inr shot :: shots ->
         observe' options w
         = Rejected e
             (mkWorld (clock w1) trees shots
                (calls w1 ++ [treeCall options; shotCall options]))).
Proof.
  intros M Hsettle. split.
  - intros tree trees e shots Htrees Hshots.
    unfold performObservation. rewrite M.
    unfold bind at 1. rewrite Hsettle. cbn [wantTree wantScreenshot].
    unfold bind, all2, getUiTree, getScreenshot, ret. rewrite Htrees.
    cbn [clock uiTrees screenshots calls]. rewrite Hshots.
    now rewrite <- app_assoc.
  - intros e trees shot shots Htrees Hshots.
    unfold performObservation. rewrite M.
    unfold bind at 1. rewrite Hsettle. cbn [wantTree wantScreenshot].
    unfold bind, all2, getUiTree, getScreenshot, ret. rewrite Htrees.
    cbn [clock uiTrees screenshots calls]. rewrite Hshots.
    now rewrite <- app_assoc.
Qed.

End MoreOrchestratorProperties.

(** ** The Android parser: indices, types and resource identifiers *)

Section MoreParserProperties.
Import Js Types Regex Android Notions.

Lemma parseNode_index (i : nat) (attrs : string) (el : UiElement) :
  parseNode i attrs = Some el -> index el = i.
Proof.
  unfold parseNode.
  destruct (search boundsRegex (default EmptyString (extractAttr attrs "bounds")));
    [|discriminate].
  intros H. injection H as <-. reflexivity.
Qed.

Lemma parseNodes_indices (nodes : list string) :
  forall i, map index (parseNodes i nodes) = seq i (List.length (parseNodes i nodes)).
Proof.
  induction nodes as [|attrs nodes IH]; intros i; [reflexivity|].
  cbn [parseNodes]. destruct (parseNode i attrs) as [el|] eqn:E.
  - cbn [map List.length seq]. rewrite (parseNode_index _ _ _ E). f_equal. apply IH.
  - apply IH.
Qed.

Lemma parseLines_indices (JSON_parse : string -> option Idb.Entry) (lines : list string) :
  forall i,
    map index (Ios.parseLines JSON_parse i lines)
    = seq i (List.length (Ios.parseLines JSON_parse i lines)).
Proof.
  induction lines as [|line lines IH]; intros i; [reflexivity|].
  cbn [Ios.parseLines]. destruct (JSON_parse line) as [entry|].
  - cbn [map List.length seq]. f_equal. apply IH.
  - apply IH.
Qed.

(** X8.  On both adapters the indices of the parsed elements count up from
    zero without gap, in the order of the elements: a node or a line that is
    skipped takes no index. *)
Theorem parsed_indices_count_up :
  (forall xml : string,
      map index (parseUiXml xml) = seq 0 (List.length (parseUiXml xml)))
  /\ (forall (JSON_parse : string -> option Idb.Entry) (output : string),
         map index (Ios.parseIdbDescribeAll JSON_parse output)
         = seq 0 (List.length (Ios.parseIdbDescribeAll JSON_parse output))).
Proof.
  split.
  - intros xml. apply parseNodes_indices.
  - intros JSON_parse output. apply parseLines_indices.
Qed.

Lemma split_not_nil (sep : ascii) (s : string) : split sep s <> [].
Proof.
  destruct s as [|c s]; cbn [split]; [discriminate|].
  destruct (Ascii.eqb c sep); [discriminate|].
  destruct (split sep s); discriminate.
Qed.

(** Splitting distributes over a separator. *)
Lemma split_app (sep : ascii) (a b : string) :
  split sep (a ++ String sep b) = (split sep a ++ split sep b)%list.
Proof.
  induction a as [|c a IH]; cbn [append split].
  - now rewrite Ascii.eqb_refl.
  - destruct (Ascii.eqb c sep).
    + now rewrite IH.
    + rewrite IH. pose proof (split_not_nil sep a) as N.
      destruct (split sep a) as [|h t]; [congruence|reflexivity].
Qed.

Lemma split_whole (sep : ascii) (s : string) :
  allOf (fun c => negb (Ascii.eqb c sep)) s = true -> split sep s = [s].
Proof.
  induction s as [|c s IH]; cbn [allOf split]; [reflexivity|].
  intros H. apply andb_true_iff in H. destruct H as [Hc Hs].
  apply negb_true_iff in Hc. rewrite Hc, (IH Hs). reflexivity.
Qed.

Lemma last_app_cons {A} (l1 l2 : list A) (a : A) : last (l1 ++ l2 ++ [a]) = Some a.
Proof.
  rewrite app_assoc. induction (l1 ++ l2)%list as [|b l IH]; [reflexivity|].
  cbn [app]. destruct (l ++ [a])%list eqn:E; [destruct l; discriminate|].
  exact IH.
Qed.

(** The last segment of a dotted name. *)
Lemma pop_split_dotted (package name : string) :
  allOf (fun c => negb (Ascii.eqb c ".")) name = true ->
  pop (split "." (package ++ String "." name)) = Some name.
Proof.
  intros H. rewrite split_app, (split_whole _ _ H). unfold pop.
  apply (last_app_cons (split "." package) []).
Qed.

(** The shape of the element [parseNode] makes, field by field. *)
Lemma parseNode_fields (i : nat) (attrs : string) (el : UiElement) :
  parseNode i attrs = Some el ->
  type el = match extractAttr attrs "class" with
            | Some c => default "Unknown" (pop (split "." c))
            | None => "Unknown"
            end
  /\ resource_id el
     = (if isEmpty (default EmptyString (extractAttr attrs "resource-id")) then None
        else Some (stripPackagePrefix (default EmptyString (extractAttr attrs "resource-id"))))
  /\ clickable el = strictEq (extractAttr attrs "clickable") "true"
  /\ enabled el = Some (strictEq (extractAttr attrs "enabled") "true")
  /\ focused el = Some (strictEq (extractAttr attrs "focused") "true").
Proof.
  unfold parseNode.
  destruct (search boundsRegex (default EmptyString (extractAttr attrs "bounds")));
    [|discriminate].
  intros H. injection H as <-. repeat split.
Qed.

(** X9.  The type of an Android element is the last segment of the class
    name of its node: the text after the last dot, the whole name when it has
    no dot, and Unknown when the node has no class attribute. *)
Theorem parseNode_type (i : nat) (attrs : string) (el : UiElement) :
  parseNode i attrs = Some el ->
  (forall package name,
      allOf (fun c => negb (Ascii.eqb c ".")) name = true ->
      extractAttr attrs "class" = Some (package ++ String "." name) ->
      type el = name)
  /\ (forall name,
         allOf (fun c => negb (Ascii.eqb c ".")) name = true ->
         extractAttr attrs "class" = Some name ->
         type el = name)
  /\ (extractAttr attrs "class" = None -> type el = "Unknown").
Proof.
  intros H. destruct (parseNode_fields _ _ _ H) as (Ht & _). split; [|split].
  - intros package name Hn Hc. rewrite Ht, Hc, (pop_split_dotted _ _ Hn). reflexivity.
  - intros name Hn Hc. rewrite Ht, Hc, (split_whole _ _ Hn). reflexivity.
  - intros Hc. now rewrite Ht, Hc.
Qed.

End MoreParserProperties.

Section ResourceIdProperties.
Import Js Types Regex Android Notions.

Lemma allOf_app (cls : ascii -> bool) (a b : string) :
  allOf cls (a ++ b) = allOf cls a && allOf cls b.
Proof.
  induction a as [|c a IH]; cbn [append allOf]; [reflexivity|].
  now rewrite IH, andb_assoc.
Qed.

(** A greedy quantifier fails when its continuation fails at every position
    of the subject. *)
Lemma rep_greedy_none {A} (lo : nat) (cls : ascii -> bool) (k : string -> option A)
    (s : string) :
  (forall pre t, s = pre ++ t -> k t = None) ->
  forall n, rep true lo None cls k n s = None.
Proof.
  induction s as [|c s IH]; intros H n.
  - cbn [rep]. rewrite (H EmptyString EmptyString eq_refl). now destruct (lo <=? n)%nat.
  - cbn [rep]. rewrite IH.
    + rewrite (H EmptyString (String c s) eq_refl).
      destruct (below n None && cls c); now destruct (lo <=? n)%nat.
    + intros pre t E. apply (H (String c pre) t). cbn [append]. now rewrite E.
Qed.

Abbreviation notColon := (fun c : ascii => negb (Ascii.eqb c ":")).

Lemma strip_id_colon_free (t : string) :
  allOf notColon t = true -> strip ":id/" t = None.
Proof.
  destruct t as [|c t]; [reflexivity|].
  cbn [allOf strip]. intros H. apply andb_true_iff in H. destruct H as [Hc _].
  apply negb_true_iff in Hc. rewrite Ascii.eqb_sym. now rewrite Hc.
Qed.

Lemma stripPackagePrefix_prefixed (package name : string) :
  allOf notColon package = true ->
  isEmpty package = false ->
  stripPackagePrefix (package ++ ":id/" ++ name) = name.
Proof.
  intros Hall Hne. unfold stripPackagePrefix, exec_at, packagePrefixRegex.
  cbn [run].
  rewrite (rep_greedy_run 1 notColon _ package (":id/" ++ name) ([], name));
    [reflexivity|exact Hall|reflexivity| |].
  - cbn [run]. now rewrite strip_app.
  - destruct package; [discriminate|simpl; lia].
Qed.

Lemma stripPackagePrefix_plain (s : string) :
  allOf notColon s = true -> stripPackagePrefix s = s.
Proof.
  intros Hall. unfold stripPackagePrefix, exec_at, packagePrefixRegex.
  cbn [run]. rewrite rep_greedy_none; [reflexivity|].
  intros pre t E. cbn [run]. rewrite strip_id_colon_free; [reflexivity|].
  rewrite E, allOf_app in Hall. apply andb_true_iff in Hall. tauto.
Qed.

(** X10.  The resource identifier of an Android element is the resource-id
    attribute without its package prefix: [package:id/name] gives [name], an
    identifier without colon stays as it is, and a node whose attribute is
    missing or empty has no resource identifier. *)
Theorem parseNode_resource_id (i : nat) (attrs : string) (el : UiElement) :
  parseNode i attrs = Some el ->
  (forall package name,
      allOf notColon package = true ->
      isEmpty package = false ->
      extractAttr attrs "resource-id" = Some (package ++ ":id/" ++ name) ->
      resource_id el = Some name)
  /\ (forall name,
         allOf notColon name = true ->
         isEmpty name = false ->
         extractAttr attrs "resource-id" = Some name ->
         resource_id el = Some name)
  /\ (extractAttr attrs "resource-id" = None
      \/ extractAttr attrs "resource-id" = Some EmptyString ->
      resource_id el = None).
Proof.
  intros H. destruct (parseNode_fields _ _ _ H) as (_ & Hr & _). split; [|split].
  - intros package name Hall Hne Hattr. rewrite Hr, Hattr.
    change (default EmptyString (Some (package ++ ":id/" ++ name)))
      with (package ++ ":id/" ++ name).
    rewrite (stripPackagePrefix_prefixed _ _ Hall Hne).
    destruct package; [discriminate|reflexivity].
  - intros name Hall Hne Hattr. rewrite Hr, Hattr.
    change (default EmptyString (Some name)) with name.
    now rewrite Hne, (stripPackagePrefix_plain _ Hall).
  - intros [Hattr|Hattr]; now rewrite Hr, Hattr.
Qed.

End ResourceIdProperties.


(** ** The Android adapter: cutting the markup out of the dump *)

Section ExtractXmlProperties.
Import Js Types Regex Android Notions MoreNotions.

Lemma string_app_assoc (a b c : string) : (a ++ b) ++ c = a ++ b ++ c.
Proof. induction a as [|x a IH]; cbn [append]; [reflexivity|now rewrite IH]. Qed.

Lemma strip_inv (l s s' : string) : strip l s = Some s' -> s = l ++ s'.
Proof.
  revert s. induction l as [|a l IH]; intros s H.
  - destruct s; injection H as <-; reflexivity.
  - destruct s as [|b s]; [discriminate|]. cbn [strip] in H.
    destruct (Ascii.eqb a b) eqn:E; [|discriminate].
    apply Ascii.eqb_eq in E. subst b. cbn [append]. f_equal. now apply IH.
Qed.

(** A quantifier hands a suffix of its subject to its continuation. *)
Lemma rep_inv {A} (greedy : bool) (lo : nat) (hi : option nat) (cls : ascii -> bool)
    (k : string -> option A) (s : string) :
  forall n r, rep greedy lo hi cls k n s = Some r ->
  exists mid rest, s = mid ++ rest /\ k rest = Some r.
Proof.
  induction s as [|c s IH]; intros n r H.
  - exists EmptyString, EmptyString. split; [reflexivity|].
    cbn [rep] in H. destruct greedy, (lo <=? n)%nat; try discriminate;
      destruct (k EmptyString); congruence.
  - cbn [rep] in H.
    assert (Hmore : forall r', (if below n hi && cls c then rep greedy lo hi cls k (S n) s
                                else None) = Some r' ->
                               exists mid rest, String c s = mid ++ rest /\ k rest = Some r').
    { intros r' H'. destruct (below n hi && cls c); [|discriminate].
      destruct (IH _ _ H') as (mid & rest & E & K).
      exists (String c mid), rest. split; [cbn [append]; now rewrite E|exact K]. }
    assert (Hstop : forall r', (if (lo <=? n)%nat then k (String c s) else None) = Some r' ->
                               exists mid rest, String c s = mid ++ rest /\ k rest = Some r').
    { intros r' H'. destruct (lo <=? n)%nat; [|discriminate].
      exists EmptyString, (String c s). split; [reflexivity|exact H']. }
    destruct greedy.
    + destruct (if below n hi && cls c then rep true lo hi cls k (S n) s else None) eqn:E.
      * injection H as <-. now apply Hmore.
      * now apply Hstop.
    + destruct (if (lo <=? n)%nat then k (String c s) else None) eqn:E.
      * injection H as <-. now apply Hstop.
      * now apply Hmore.
Qed.

Lemma search_inv (r : regex) (s : string) (m : result) :
  search r s = Some m -> exists before s', s = before ++ s' /\ exec_at r s' = Some m.
Proof.
  induction s as [|c s IH]; cbn [search]; intros H.
  - exists EmptyString, EmptyString. split; [reflexivity|].
    destruct (exec_at r EmptyString); [exact H|discriminate].
  - destruct (exec_at r (String c s)) eqn:E.
    + exists EmptyString, (String c s). split; [reflexivity|congruence].
    + destruct (IH H) as (before & s' & Es & Em).
      exists (String c before), s'. split; [cbn [append]; now rewrite Es|exact Em].
Qed.

Lemma search_here (r : regex) (s : string) (m : result) :
  exec_at r s = Some m -> search r s = Some m.
Proof. intros H. destruct s; cbn [search]; now rewrite H. Qed.

(** A match of an opening literal, anything, and the closing tag. *)
Lemma delimited_match (opening s : string) (m : result) :
  exec_at [Lit opening; Rep true 0 None (fun _ => true); Lit closingTag] s = Some m ->
  exists mid, s = (opening ++ mid ++ closingTag) ++ rest m
              /\ whole m = opening ++ mid ++ closingTag.
Proof.
  unfold exec_at. cbn [run].
  destruct (strip opening s) as [s1|] eqn:E1; [|discriminate].
  destruct (rep true 0 None (fun _ => true)
              (fun s0 => match strip closingTag s0 with
                         | Some s' => Some ([], s')
                         | None => None
                         end) 0 s1) as [[caps s3]|] eqn:E2; [|discriminate].
  intros H. injection H as <-. cbn [rest whole].
  destruct (rep_inv _ _ _ _ _ _ _ _ E2) as (mid & s2 & Es1 & K).
  destruct (strip closingTag s2) as [s4|] eqn:E3; [|discriminate].
  injection K as _ <-.
  apply strip_inv in E1. apply strip_inv in E3. subst s s1 s2.
  exists mid.
  assert (E : opening ++ mid ++ closingTag ++ s4 = (opening ++ mid ++ closingTag) ++ s4).
  { now rewrite !string_app_assoc. }
  rewrite E. split; [reflexivity|]. apply consumed_app.
Qed.

(** X11.  What [extractXml] returns is a piece of the output that starts
    with the XML declaration or with the hierarchy tag and ends with the
    closing hierarchy tag; in particular it is never the empty string. *)
Theorem extractXml_shape (output xml : string) :
  extractXml output = Some xml ->
  exists before mid after,
    output = before ++ xml ++ after
    /\ (xml = "<?xml" ++ mid ++ closingTag \/ xml = "<hierarchy" ++ mid ++ closingTag)
    /\ isEmpty xml = false.
Proof.
  unfold extractXml. intros H.
  destruct (search xmlRegex output) as [m|] eqn:E.
  - injection H as <-.
    destruct (search_inv _ _ _ E) as (before & s' & Eo & Em).
    destruct (delimited_match _ _ _ Em) as (mid & Es & Ew).
    exists before, mid, (rest m). rewrite Ew. repeat split; [now rewrite Eo, Es|now left].
  - destruct (search altRegex output) as [m|] eqn:E'; [|discriminate].
    injection H as <-.
    destruct (search_inv _ _ _ E') as (before & s' & Eo & Em).
    destruct (delimited_match _ _ _ Em) as (mid & Es & Ew).
    exists before, mid, (rest m). rewrite Ew. repeat split; [now rewrite Eo, Es|now right].
Qed.

End ExtractXmlProperties.

Section ExtractXmlTrailer.
Import Js Types Regex Android Notions MoreNotions.

Lemma strip_none_prefix (l t : string) : String.prefix l t = false -> strip l t = None.
Proof.
  revert t. induction l as [|a l IH]; intros t H; [destruct t; discriminate|].
  destruct t as [|b t]; [reflexivity|]. cbn [String.prefix strip] in *.
  destruct (ascii_dec a b) as [->|N].
  - rewrite Ascii.eqb_refl. now apply IH.
  - apply Ascii.eqb_neq in N. now rewrite N.
Qed.

Lemma includes_false_suffix (s sub : string) :
  Tools.includes s sub = false ->
  forall pre t, s = pre ++ t -> String.prefix sub t = false.
Proof.
  induction s as [|c s IH]; intros H pre t E.
  - destruct pre; [|discriminate]. cbn [append] in E. subst t.
    cbn [Tools.includes] in H. now apply orb_false_iff in H.
  - cbn [Tools.includes] in H. apply orb_false_iff in H. destruct H as [H1 H2].
    destruct pre as [|p pre]; cbn [append] in E.
    + now subst t.
    + injection E as _ E. exact (IH H2 pre t E).
Qed.

(** A greedy run of any character stops at the position its continuation
    accepts when the continuation accepts no later position. *)
Lemma rep_any_skip {A} (k : string -> option A) (b : string) (r : A) :
  (forall n, rep true 0 None (fun _ => true) k n b = Some r) ->
  forall mid n, rep true 0 None (fun _ => true) k n (mid ++ b) = Some r.
Proof.
  intros H. induction mid as [|c mid IH]; intros n; [apply H|].
  cbn [append rep below andb]. now rewrite IH.
Qed.

Lemma closing_tag_last (trailer : string) :
  Tools.includes trailer closingTag = false ->
  forall n,
    rep true 0 None (fun _ => true) (run [Lit closingTag] [] []) n (closingTag ++ trailer)
    = Some ([], trailer).
Proof.
  intros Hinc n. unfold closingTag. cbn [append rep below andb].
  rewrite rep_greedy_none.
  - cbn. reflexivity.
  - intros pre t E. cbn [run]. rewrite strip_none_prefix; [reflexivity|].
    exact (includes_false_suffix _ _ Hinc _ _ E).
Qed.

(** X12.  When the command prints text after the markup, as the tty dump
    does, [extractXml] cuts it off: of an output that starts with the XML
    declaration, the result runs up to the last closing hierarchy tag. *)
Theorem extractXml_strips_trailer (mid trailer : string) :
  Tools.includes trailer closingTag = false ->
  extractXml ("<?xml" ++ mid ++ closingTag ++ trailer)
  = Some ("<?xml" ++ mid ++ closingTag).
Proof.
  intros Hinc. unfold extractXml.
  rewrite (search_here xmlRegex _
             (mkResult ("<?xml" ++ mid ++ closingTag) [] trailer)); [reflexivity|].
  unfold exec_at, xmlRegex. rewrite run_lit. cbn [run].
  change (fun s => match strip "</hierarchy>" s with
                   | Some s' => Some ([], s')
                   | None => None
                   end) with (run [Lit closingTag] [] []).
  rewrite (rep_any_skip _ _ _ (closing_tag_last trailer Hinc)).
  f_equal. f_equal.
  assert (E : "<?xml" ++ mid ++ closingTag ++ trailer
              = ("<?xml" ++ mid ++ closingTag) ++ trailer).
  { now rewrite !string_app_assoc. }
  rewrite E. apply consumed_app.
Qed.

End ExtractXmlTrailer.

(** ** The Android adapter: the screen size *)

Section ScreenInfoProperties.
Import Js Types Async Regex Android Notions.

Abbreviation notDigit := (fun c : ascii => negb (isDigit c)).

(** A group of at least one character of a class fails on a subject that
    does not start with the class. *)
Lemma run_group_fail (r : regex) (cls : ascii -> bool) (opened caps : list string)
    (s : string) :
  stopsAt cls s = true ->
  run (Open :: Rep true 1 None cls :: r) opened caps s = None.
Proof.
  intros H. cbn [run]. destruct s as [|c s]; cbn [rep]; [reflexivity|].
  cbn [stopsAt] in H. apply negb_true_iff in H. rewrite H. now rewrite andb_false_r.
Qed.

Lemma exec_at_group_fail (r : regex) (cls : ascii -> bool) (s : string) :
  stopsAt cls s = true -> exec_at (Open :: Rep true 1 None cls :: r) s = None.
Proof. intros H. unfold exec_at. now rewrite run_group_fail. Qed.

(** The search for an expression that starts with digits passes over text
    without digits. *)
Lemma search_skip_no_digit (r : regex) (pre s : string) :
  allOf notDigit pre = true ->
  search (Open :: Rep true 1 None isDigit :: r) (pre ++ s)
  = search (Open :: Rep true 1 None isDigit :: r) s.
Proof.
  induction pre as [|c pre IH]; intros H; [reflexivity|].
  cbn [allOf] in H. apply andb_true_iff in H. destruct H as [Hc Hpre].
  cbn [append search]. rewrite exec_at_group_fail; [now apply IH|].
  exact Hc.
Qed.

Lemma search_no_digit (r : regex) (s : string) :
  allOf notDigit s = true ->
  search (Open :: Rep true 1 None isDigit :: r) s = None.
Proof.
  induction s as [|c s IH]; intros H.
  - cbn [search]. now rewrite exec_at_group_fail.
  - cbn [allOf] in H. apply andb_true_iff in H. destruct H as [Hc Hs].
    cbn [search]. rewrite exec_at_group_fail; [now apply IH|exact Hc].
Qed.

Lemma size_match (w h : N) (post : string) :
  stopsAt isDigit post = true ->
  exists m,
    search AndroidDevice.sizeRegex (numeral w ++ "x" ++ numeral h ++ post) = Some m
    /\ groups m = [numeral w; numeral h].
Proof.
  intros Hpost.
  destruct (numeral_digits w) as [A1 E1]. destruct (numeral_digits h) as [A2 E2].
  assert (R : run AndroidDevice.sizeRegex [] [] (numeral w ++ "x" ++ numeral h ++ post)
              = Some ([numeral w; numeral h], post)).
  { unfold AndroidDevice.sizeRegex.
    apply run_group; [assumption|assumption|reflexivity|]. cbn [app].
    rewrite run_lit. apply run_group; [assumption|assumption|assumption|]. reflexivity. }
  eexists. split.
  - apply search_here. unfold exec_at. rewrite R. reflexivity.
  - reflexivity.
Qed.

Lemma density_match (d : N) (post : string) :
  stopsAt isDigit post = true ->
  exists m,
    search AndroidDevice.densityRegex (numeral d ++ post) = Some m
    /\ groups m = [numeral d].
Proof.
  intros Hpost. destruct (numeral_digits d) as [A1 E1].
  assert (R : run AndroidDevice.densityRegex [] [] (numeral d ++ post)
              = Some ([numeral d], post)).
  { unfold AndroidDevice.densityRegex.
    apply run_group; [assumption|assumption|assumption|]. reflexivity. }
  eexists. split.
  - apply search_here. unfold exec_at. rewrite R. reflexivity.
  - reflexivity.
Qed.

Lemma ltb_N (a b : N) :
  ltb (inject_Z (Z.of_N a)) (inject_Z (Z.of_N b)) = (a <? b)%N.
Proof.
  unfold ltb, Qle_bool, inject_Z. cbn [Qnum Qden].
  destruct (N.ltb_spec a b), (Z.leb_spec (Z.of_N b * 1) (Z.of_N a * 1));
    cbn [negb]; try reflexivity; lia.
Qed.

(** X13.  From the output of the size command, a width and a height in
    digits around an x, and from the output of the density command, a number,
    each after any text without digits and each below 2^53,
    [getScreenInfo] reads exactly these numbers, and the orientation is
    landscape when the width exceeds the height and portrait otherwise. *)
Theorem getScreenInfo_reads_numbers
    (id pre post pre' post' : string) (w h d : N) (script : list Answer)
    (log : list Event) :
  allOf notDigit pre = true ->
  stopsAt isDigit post = true ->
  allOf notDigit pre' = true ->
  stopsAt isDigit post' = true ->
  (Z.of_N w < 2 ^ 53)%Z ->
  (Z.of_N h < 2 ^ 53)%Z ->
  (Z.of_N d < 2 ^ 53)%Z ->
  AndroidDevice.getScreenInfo (Some id)
    (mkWorld (Exited (pre ++ numeral w ++ "x" ++ numeral h ++ post)
              :: Exited (pre' ++ numeral d ++ post') :: script) log)
  = Async.Resolved
      (AndroidDevice.mkScreenInfo
         (inject_Z (Z.of_N w)) (inject_Z (Z.of_N h)) (inject_Z (Z.of_N d))
         (if (h <? w)%N then "landscape" else "portrait"))
      (mkWorld script
         (log ++ [Exec (adb id "shell wm size") DEFAULT_TIMEOUT;
                    Exec (adb id "shell wm density") DEFAULT_TIMEOUT])).
Proof.
  intros Hpre Hpost Hpre' Hpost' Hw Hh Hd.
  destruct (size_match w h post Hpost) as (m & Hm & Hg).
  destruct (density_match d post' Hpost') as (m' & Hm' & Hg').
  unfold AndroidDevice.getScreenInfo, Async.bind, resolveDevice, Async.ret, Async.all2, exec.
  cbn [answers Android.trace fst snd].
  unfold AndroidDevice.screenInfoOf.
  unfold AndroidDevice.sizeRegex, AndroidDevice.densityRegex in *.
  rewrite (search_skip_no_digit _ pre _ Hpre), (search_skip_no_digit _ pre' _ Hpre').
  rewrite Hm, Hm'. unfold group. rewrite Hg, Hg'. cbn [nth Nat.sub].
  rewrite (parseInt_numeral w Hw), (parseInt_numeral h Hh), (parseInt_numeral d Hd).
  rewrite ltb_N, <- app_assoc. reflexivity.
Qed.

(** X14.  Outputs without any digit do not make [getScreenInfo] fail: every
    number it cannot read is zero, and the orientation is then portrait. *)
Theorem getScreenInfo_degrades
    (id sizeOutput densityOutput : string) (script : list Answer) (log : list Event) :
  allOf notDigit sizeOutput = true ->
  allOf notDigit densityOutput = true ->
  AndroidDevice.getScreenInfo (Some id)
    (mkWorld (Exited sizeOutput :: Exited densityOutput :: script) log)
  = Async.Resolved
      (AndroidDevice.mkScreenInfo 0%Q 0%Q 0%Q "portrait")
      (mkWorld script
         (log ++ [Exec (adb id "shell wm size") DEFAULT_TIMEOUT;
                    Exec (adb id "shell wm density") DEFAULT_TIMEOUT])).
Proof.
  intros Hs Hd.
  unfold AndroidDevice.getScreenInfo, Async.bind, resolveDevice, Async.ret, Async.all2, exec.
  cbn [answers Android.trace fst snd].
  unfold AndroidDevice.screenInfoOf.
  unfold AndroidDevice.sizeRegex, AndroidDevice.densityRegex.
  rewrite (search_no_digit _ _ Hs), (search_no_digit _ _ Hd), <- app_assoc. reflexivity.
Qed.

End ScreenInfoProperties.

(** ** The Android adapter: the escaping of typed text *)

Section EscapeProperties.
Import Js Types Async Android Notions MoreNotions.

Lemma replaceAll_app (c : ascii) (r a b : string) :
  AndroidDevice.replaceAll c r (a ++ b)
  = AndroidDevice.replaceAll c r a ++ AndroidDevice.replaceAll c r b.
Proof.
  induction a as [|x a IH]; cbn [append AndroidDevice.replaceAll]; [reflexivity|].
  destruct (Ascii.eqb x c).
  - now rewrite IH, string_app_assoc.
  - now rewrite IH.
Qed.

Lemma escapeText_app (a b : string) :
  AndroidDevice.escapeText (a ++ b)
  = AndroidDevice.escapeText a ++ AndroidDevice.escapeText b.
Proof. unfold AndroidDevice.escapeText. now rewrite !replaceAll_app. Qed.

Lemma escapeText_char (c : ascii) :
  AndroidDevice.escapeText (String c EmptyString) = escapeChar c.
Proof.
  destruct c as [[] [] [] [] [] [] [] []]; vm_compute; reflexivity.
Qed.

Lemma escapeText_cons (c : ascii) (s : string) :
  AndroidDevice.escapeText (String c s) = escapeChar c ++ AndroidDevice.escapeText s.
Proof.
  change (String c s) with (String c EmptyString ++ s).
  now rewrite escapeText_app, escapeText_char.
Qed.

(** X15.  The thirteen replacements of [typeText] do not act on each
    other's output: every character of the text is escaped exactly once, a
    space to percent-s, a shell character to itself after one backslash, and
    any other character is kept. *)
Theorem escapeText_escapes_each_character_once (text : string) :
  AndroidDevice.escapeText text = flatMap escapeChar text.
Proof.
  induction text as [|c text IH]; [reflexivity|].
  rewrite escapeText_cons, IH. reflexivity.
Qed.

Lemma unescape_escapeChar (c : ascii) (s : string) :
  Ascii.eqb c "%" = false ->
  unescape (escapeChar c ++ s) = String c (unescape s) \/ s = EmptyString.
Proof.
  intros H. destruct s as [|d s]; [now right|left].
  destruct c as [[] [] [] [] [] [] [] []]; try discriminate H; reflexivity.
Qed.

Lemma unescape_escapeChar_last (c : ascii) :
  Ascii.eqb c "%" = false ->
  unescape (escapeChar c) = String c EmptyString.
Proof.
  intros H. destruct c as [[] [] [] [] [] [] [] []]; try discriminate H; reflexivity.
Qed.

Lemma append_empty_r (s : string) : s ++ EmptyString = s.
Proof. induction s as [|c s IH]; cbn [append]; [reflexivity|now rewrite IH]. Qed.

Lemma escapeChar_not_empty (c : ascii) (s : string) :
  escapeChar c ++ s <> EmptyString.
Proof. destruct c as [[] [] [] [] [] [] [] []]; discriminate. Qed.

Lemma unescape_escapeText (text : string) :
  allOf (fun c => negb (Ascii.eqb c "%")) text = true ->
  unescape (AndroidDevice.escapeText text) = text.
Proof.
  induction text as [|c text IH]; intros H; [reflexivity|].
  cbn [allOf] in H. apply andb_true_iff in H. destruct H as [Hc Ht].
  apply negb_true_iff in Hc. rewrite escapeText_cons.
  destruct (unescape_escapeChar c (AndroidDevice.escapeText text) Hc) as [E|E].
  - rewrite E, (IH Ht). reflexivity.
  - rewrite E, append_empty_r, unescape_escapeChar_last by exact Hc.
    destruct text as [|d text]; [reflexivity|].
    rewrite escapeText_cons in E. now apply escapeChar_not_empty in E.
Qed.

(** X16.  Two texts without a percent sign that [typeText] escapes to the
    same command text are the same text. *)
Theorem escapeText_injective (a b : string) :
  allOf (fun c => negb (Ascii.eqb c "%")) a = true ->
  allOf (fun c => negb (Ascii.eqb c "%")) b = true ->
  AndroidDevice.escapeText a = AndroidDevice.escapeText b ->
  a = b.
Proof.
  intros Ha Hb E.
  rewrite <- (unescape_escapeText a Ha), <- (unescape_escapeText b Hb), E. reflexivity.
Qed.

(** X17.  [typeText] sends the same command for a text with a space and for
    the text with the two characters percent and s in place of that space. *)
Theorem typeText_space_collision (a b : string) (deviceId : option string) (w : World) :
  AndroidDevice.typeText (a ++ " " ++ b) deviceId w
  = AndroidDevice.typeText (a ++ "%s" ++ b) deviceId w.
Proof.
  unfold AndroidDevice.typeText.
  rewrite !escapeText_app.
  change (AndroidDevice.escapeText " ") with "%s".
  change (AndroidDevice.escapeText "%s") with "%s".
  reflexivity.
Qed.

End EscapeProperties.

(** ** The Android adapter: the device listing *)

Section TrimFacts.
Import Js Notions MoreNotions.

Lemma trimEnd_app_keep (a b : string) :
  trimEnd b <> EmptyString -> trimEnd (a ++ b) = a ++ trimEnd b.
Proof.
  intros H. induction a as [|c a IH]; cbn [append trimEnd]; [reflexivity|].
  rewrite IH. destruct (a ++ trimEnd b) eqn:E; [|reflexivity].
  destruct a; [|discriminate]. cbn [append] in E. contradiction.
Qed.

Lemma trimEnd_app_drop (a b : string) :
  trimEnd b = EmptyString -> trimEnd (a ++ b) = trimEnd a.
Proof.
  intros H. induction a as [|c a IH]; cbn [append trimEnd]; [assumption|].
  now rewrite IH.
Qed.

Lemma trimEnd_white (t : string) : allOf isWhiteSpace t = true -> trimEnd t = EmptyString.
Proof.
  induction t as [|c t IH]; cbn [allOf trimEnd]; [reflexivity|].
  intros H. apply andb_true_iff in H. destruct H as [Hc Ht].
  now rewrite (IH Ht), Hc.
Qed.

Lemma trimEnd_word (w : string) :
  allOf (fun c => negb (isWhiteSpace c)) w = true -> trimEnd w = w.
Proof.
  induction w as [|c w IH]; cbn [allOf trimEnd]; [reflexivity|].
  intros H. apply andb_true_iff in H. destruct H as [Hc Hw].
  apply negb_true_iff in Hc. rewrite (IH Hw), Hc. now destruct w.
Qed.

Lemma trimEnd_after_word (a w b : string) :
  isWord w = true -> trimEnd (a ++ w ++ b) = a ++ w ++ trimEnd b.
Proof.
  intros H. apply andb_true_iff in H. destruct H as [Hne Hw].
  assert (E : trimEnd (w ++ b) = w ++ trimEnd b).
  { destruct (trimEnd b) eqn:Eb.
    - rewrite (trimEnd_app_drop _ _ Eb), (trimEnd_word _ Hw).
      clear. induction w as [|c w IH]; cbn [append]; [reflexivity|now rewrite <- IH].
    - rewrite trimEnd_app_keep; rewrite Eb; [reflexivity|discriminate]. }
  rewrite trimEnd_app_keep; rewrite E; [reflexivity|].
  destruct w; [discriminate|discriminate].
Qed.

Lemma allOf_trimEnd (cls : ascii -> bool) (s : string) :
  allOf cls s = true -> allOf cls (trimEnd s) = true.
Proof.
  induction s as [|c s IH]; cbn [allOf trimEnd]; [reflexivity|].
  intros H. apply andb_true_iff in H. destruct H as [Hc Hs].
  specialize (IH Hs). destruct (trimEnd s).
  - destruct (isWhiteSpace c); [reflexivity|]. cbn [allOf]. now rewrite Hc.
  - cbn [allOf] in *. now rewrite Hc, IH.
Qed.

Lemma isTail_trimEnd (t : string) : isTail t = true -> isTail (trimEnd t) = true.
Proof.
  unfold isTail. intros H. apply andb_true_iff in H. destruct H as [Hs Hl].
  rewrite (allOf_trimEnd _ _ Hl), andb_true_r.
  destruct t as [|c t]; [reflexivity|]. cbn [trimEnd].
  cbn [stopsAt isEmpty] in Hs. rewrite andb_true_r, negb_involutive in Hs.
  destruct (trimEnd t); [now rewrite Hs|]. cbn [stopsAt isEmpty]. now rewrite Hs.
Qed.

Lemma trimStart_fixed (s : string) : stopsAt isWhiteSpace s = true -> trimStart s = s.
Proof.
  destruct s as [|c s]; [reflexivity|]. cbn [stopsAt trimStart].
  intros H. apply negb_true_iff in H. now rewrite H.
Qed.

Lemma allOf_impl (p q : ascii -> bool) (s : string) :
  (forall c, p c = true -> q c = true) -> allOf p s = true -> allOf q s = true.
Proof.
  intros Hpq. induction s as [|c s IH]; cbn [allOf]; [reflexivity|].
  intros H. apply andb_true_iff in H. destruct H as [Hc Hs].
  now rewrite (Hpq _ Hc), (IH Hs).
Qed.

Lemma word_no_line_break (w : string) :
  allOf (fun c => negb (isWhiteSpace c)) w = true ->
  allOf (fun c => negb (Ascii.eqb c LF)) w = true.
Proof.
  apply allOf_impl. intros c H. apply negb_true_iff in H. apply negb_true_iff.
  destruct (Ascii.eqb_spec c LF) as [->|]; [discriminate H|reflexivity].
Qed.

End TrimFacts.

Section SplitRunsFacts.
Import Js Notions MoreNotions.

Lemma splitRuns_not_nil (b : bool) (s : string) : AndroidDevice.splitRuns b s <> [].
Proof.
  revert b. induction s as [|c s IH]; intros b; cbn [AndroidDevice.splitRuns]; [discriminate|].
  destruct (isWhiteSpace c).
  - destruct b; [apply IH|discriminate].
  - destruct (AndroidDevice.splitRuns false s); discriminate.
Qed.

Lemma splitRuns_word (w s piece : string) (pieces : list string) :
  allOf (fun c => negb (isWhiteSpace c)) w = true ->
  AndroidDevice.splitRuns false s = piece :: pieces ->
  AndroidDevice.splitRuns false (w ++ s) = (w ++ piece) :: pieces.
Proof.
  intros Hw Hs. induction w as [|c w IH]; cbn [append]; [assumption|].
  cbn [allOf] in Hw. apply andb_true_iff in Hw. destruct Hw as [Hc Hw].
  apply negb_true_iff in Hc. cbn [AndroidDevice.splitRuns]. now rewrite Hc, (IH Hw).
Qed.

Lemma splitRuns_white (g s : string) :
  allOf isWhiteSpace g = true ->
  AndroidDevice.splitRuns true (g ++ s) = AndroidDevice.splitRuns true s.
Proof.
  induction g as [|c g IH]; cbn [append allOf]; [reflexivity|].
  intros H. apply andb_true_iff in H. destruct H as [Hc Hg].
  cbn [AndroidDevice.splitRuns]. now rewrite Hc, (IH Hg).
Qed.

Lemma splitRuns_after_run (s : string) :
  stopsAt isWhiteSpace s = true ->
  AndroidDevice.splitRuns true s = AndroidDevice.splitRuns false s.
Proof.
  destruct s as [|c s]; [reflexivity|]. cbn [stopsAt AndroidDevice.splitRuns].
  intros H. apply negb_true_iff in H. now rewrite H.
Qed.

Lemma splitRuns_tail (t : string) :
  isTail t = true -> exists pieces, AndroidDevice.splitRuns false t = EmptyString :: pieces.
Proof.
  unfold isTail. intros H. apply andb_true_iff in H. destruct H as [H _].
  destruct t as [|c t]; [now exists []|].
  cbn [stopsAt isEmpty] in H. rewrite andb_true_r, negb_involutive in H.
  cbn [AndroidDevice.splitRuns]. rewrite H. now eexists.
Qed.

Lemma word_starts (w s : string) :
  isWord w = true -> stopsAt isWhiteSpace (w ++ s) = true /\ isEmpty (w ++ s) = false.
Proof.
  unfold isWord. destruct w as [|c w]; [discriminate|]. cbn [isEmpty negb andb allOf append stopsAt].
  intros H. apply andb_true_iff in H. now destruct H.
Qed.

(** The first two tokens of a line with a serial number and a state. *)
Lemma splitWhiteSpace_row (r : Row) :
  isRow r = true ->
  exists more,
    AndroidDevice.splitWhiteSpace (rowText r) = row_id r :: row_state r :: more.
Proof.
  unfold isRow. intros H.
  apply andb_true_iff in H. destruct H as [H Htail].
  apply andb_true_iff in H. destruct H as [H Hstate].
  apply andb_true_iff in H. destruct H as [H Hgap].
  apply andb_true_iff in H. destruct H as [Hid Hstar].
  destruct (splitRuns_tail _ Htail) as [more Hmore].
  exists more. unfold AndroidDevice.splitWhiteSpace, rowText.
  assert (Hst : AndroidDevice.splitRuns false (row_state r ++ row_tail r)
                = row_state r :: more).
  { rewrite (splitRuns_word _ _ _ _ (proj2 (proj1 (andb_true_iff _ _) Hstate)) Hmore).
    now rewrite append_empty_r. }
  assert (Hg : AndroidDevice.splitRuns false (row_gap r ++ row_state r ++ row_tail r)
               = EmptyString :: row_state r :: more).
  { unfold isGap in Hgap. apply andb_true_iff in Hgap. destruct Hgap as [Hne Hws].
    destruct (row_gap r) as [|c g]; [discriminate|].
    cbn [allOf] in Hws. apply andb_true_iff in Hws. destruct Hws as [Hc Hws].
    apply andb_true_iff in Hc. destruct Hc as [Hc _].
    cbn [append AndroidDevice.splitRuns]. rewrite Hc. f_equal.
    rewrite splitRuns_white.
    - rewrite splitRuns_after_run; [exact Hst|]. now apply word_starts.
    - revert Hws. apply allOf_impl. intros x Hx. apply andb_true_iff in Hx. tauto. }
  rewrite (splitRuns_word _ _ _ _ (proj2 (proj1 (andb_true_iff _ _) Hid)) Hg).
  now rewrite append_empty_r.
Qed.

End SplitRunsFacts.

Section ListingProperties.
Import Js Types Async Android Notions MoreNotions.

(** A row and the same row without the white space at its end. *)
Abbreviation sameRow :=
  (fun r r' : Row => row_id r' = row_id r /\ row_state r' = row_state r /\ isRow r' = true).

Abbreviation noLineBreak := (allOf (fun c => negb (Ascii.eqb c LF))).

Lemma isRow_inv (r : Row) :
  isRow r = true ->
  isWord (row_id r) = true /\ AndroidDevice.startsWith (row_id r) "*" = false
  /\ isGap (row_gap r) = true /\ isWord (row_state r) = true /\ isTail (row_tail r) = true.
Proof.
  unfold isRow. intros H.
  apply andb_true_iff in H. destruct H as [H Htail].
  apply andb_true_iff in H. destruct H as [H Hstate].
  apply andb_true_iff in H. destruct H as [H Hgap].
  apply andb_true_iff in H. destruct H as [Hid Hstar].
  apply negb_true_iff in Hstar. tauto.
Qed.

Lemma rowText_no_line_break (r : Row) : isRow r = true -> noLineBreak (rowText r) = true.
Proof.
  intros H. destruct (isRow_inv r H) as (Hid & _ & Hgap & Hstate & Htail).
  unfold rowText. rewrite !allOf_app.
  apply andb_true_iff in Hid, Hgap, Hstate, Htail.
  rewrite (word_no_line_break _ (proj2 Hid)), (word_no_line_break _ (proj2 Hstate)),
    (proj2 Htail), !andb_true_r.
  destruct Hgap as [_ Hgap]. revert Hgap. apply allOf_impl.
  intros c Hc. apply andb_true_iff in Hc. tauto.
Qed.

Lemma trimEnd_row (a : string) (r : Row) (t : string) :
  isRow r = true ->
  allOf isWhiteSpace t = true ->
  exists r', trimEnd (a ++ rowText r ++ t) = a ++ rowText r' /\ sameRow r r'.
Proof.
  intros H Ht. destruct (isRow_inv r H) as (Hid & Hstar & Hgap & Hstate & Htail).
  exists (mkRow (row_id r) (row_gap r) (row_state r) (trimEnd (row_tail r))).
  split.
  - unfold rowText. cbn [row_id row_gap row_state row_tail].
    replace (a ++ (row_id r ++ row_gap r ++ row_state r ++ row_tail r) ++ t)
      with ((a ++ row_id r ++ row_gap r) ++ row_state r ++ (row_tail r ++ t))
      by now rewrite !string_app_assoc.
    rewrite (trimEnd_after_word _ _ _ Hstate).
    rewrite (trimEnd_app_drop _ _ (trimEnd_white _ Ht)).
    now rewrite !string_app_assoc.
  - split; [reflexivity|]. split; [reflexivity|].
    unfold isRow. cbn [row_id row_gap row_state row_tail].
    now rewrite Hid, Hstar, Hgap, Hstate, (isTail_trimEnd _ Htail).
Qed.

Lemma trim_row (r : Row) :
  isRow r = true -> exists r', trim (rowText r) = rowText r' /\ sameRow r r'.
Proof.
  intros H. destruct (isRow_inv r H) as (Hid & _).
  unfold trim. rewrite trimStart_fixed by (unfold rowText; now apply word_starts).
  destruct (trimEnd_row EmptyString r EmptyString H eq_refl) as (r' & E & Hr').
  exists r'. split; [|exact Hr']. cbn [append] in E. now rewrite append_empty_r in E.
Qed.

Lemma rowsText_not_empty (rows : list Row) : rows <> [] -> rowsText rows <> EmptyString.
Proof. destruct rows; [contradiction|discriminate]. Qed.

Lemma trimEnd_rows (rows : list Row) (t : string) :
  forallb isRow rows = true ->
  allOf isWhiteSpace t = true ->
  rows <> [] ->
  exists rows',
    trimEnd (rowsText rows ++ t) = rowsText rows' /\ Forall2 sameRow rows rows' /\ rows' <> [].
Proof.
  intros Hrows Ht. induction rows as [|r rows IH]; [contradiction|]. intros _.
  cbn [forallb] in Hrows. apply andb_true_iff in Hrows. destruct Hrows as [Hr Hrows].
  destruct rows as [|r2 rows].
  - destruct (trimEnd_row (String LF EmptyString) r t Hr Ht) as (r' & E & Hr').
    exists [r']. split; [|split; [repeat constructor; apply Hr'|discriminate]].
    cbn [rowsText append] in *. now rewrite !append_empty_r.
  - destruct (IH Hrows) as (rows' & E & HF & Hne); [discriminate|].
    destruct (isRow_inv r Hr) as (Hid & Hstar & Hgap & Hstate & Htail).
    exists (r :: rows'). split; [|split; [|discriminate]].
    + change (rowsText (r :: r2 :: rows)) with (String LF (rowText r ++ rowsText (r2 :: rows))).
      replace (String LF (rowText r ++ rowsText (r2 :: rows)) ++ t)
        with (String LF (rowText r) ++ rowsText (r2 :: rows) ++ t)
        by (cbn [append]; now rewrite string_app_assoc).
      rewrite trimEnd_app_keep; rewrite E; [reflexivity|].
      now apply rowsText_not_empty.
    + constructor; [|exact HF]. now rewrite Hr.
Qed.

Lemma split_rows (h : string) (rows : list Row) :
  noLineBreak h = true ->
  forallb isRow rows = true ->
  split LF (h ++ rowsText rows) = h :: map rowText rows.
Proof.
  revert h. induction rows as [|r rows IH]; intros h Hh Hrows.
  - cbn [rowsText map]. rewrite append_empty_r. now apply split_whole.
  - cbn [forallb] in Hrows. apply andb_true_iff in Hrows. destruct Hrows as [Hr Hrows].
    cbn [rowsText map]. rewrite split_app, (split_whole _ _ Hh).
    rewrite (IH _ (rowText_no_line_break _ Hr) Hrows). reflexivity.
Qed.

Lemma sameRow_all (rows rows' : list Row) :
  Forall2 sameRow rows rows' -> forallb isRow rows' = true.
Proof.
  induction 1 as [|r r' rows rows' (_ & _ & Hr) _ IH]; [reflexivity|].
  cbn [forallb]. now rewrite Hr, IH.
Qed.

(** What the listing is after [trim]. *)
Lemma trim_listing (header : string) (rows : list Row) (trailing : string) :
  isHeader header = true ->
  forallb isRow rows = true ->
  allOf isWhiteSpace trailing = true ->
  exists header' rows',
    trim (listing header rows trailing) = header' ++ rowsText rows'
    /\ noLineBreak header' = true
    /\ Forall2 sameRow rows rows'.
Proof.
  unfold isHeader. intros Hh Hrows Ht.
  apply andb_true_iff in Hh. destruct Hh as [Hh Hl].
  apply andb_true_iff in Hh. destruct Hh as [Hne Hs].
  unfold trim, listing. rewrite trimStart_fixed by (destruct header; [discriminate|exact Hs]).
  destruct rows as [|r rows].
  - exists (trimEnd header), []. cbn [rowsText append].
    rewrite (trimEnd_app_drop _ _ (trimEnd_white _ Ht)), append_empty_r.
    split; [reflexivity|]. split; [now apply allOf_trimEnd|constructor].
  - destruct (trimEnd_rows (r :: rows) trailing Hrows Ht) as (rows' & E & HF & Hne');
      [discriminate|].
    exists header, rows'. rewrite trimEnd_app_keep; rewrite E.
    + now repeat split.
    + now apply rowsText_not_empty.
Qed.

Lemma startsWith_app (w s : string) (c : ascii) :
  isEmpty w = false ->
  AndroidDevice.startsWith (w ++ s) (String c EmptyString)
  = AndroidDevice.startsWith w (String c EmptyString).
Proof.
  destruct w as [|a w]; [discriminate|]. intros _.
  unfold AndroidDevice.startsWith. cbn [append String.prefix].
  destruct (ascii_dec c a); [|reflexivity].
  generalize (w ++ s). intros x. now destruct w, x.
Qed.

(** The device the loop of [listDevices] makes of the line of a row. *)
Lemma deviceOfLine_row (r : Row) :
  isRow r = true -> deviceOfRow r (AndroidDevice.deviceOfLine (rowText r)).
Proof.
  intros H. destruct (splitWhiteSpace_row r H) as [more E].
  unfold deviceOfRow, AndroidDevice.deviceOfLine. rewrite E.
  cbn [AndroidDevice.id AndroidDevice.status AndroidDevice.platform nth nth_error].
  now repeat split.
Qed.

Lemma devicesOfLines_rows (rows rows' : list Row) :
  Forall2 sameRow rows rows' ->
  Forall2 deviceOfRow rows (AndroidDevice.devicesOfLines (map rowText rows')).
Proof.
  induction 1 as [|r r' rows rows' (Eid & Est & Hr') _ IH]; [constructor|].
  cbn [map AndroidDevice.devicesOfLines].
  destruct (trim_row r' Hr') as (r'' & E & Eid' & Est' & Hr'').
  destruct (isRow_inv r'' Hr'') as (Hid & Hstar & _).
  rewrite E.
  assert (Hne : isEmpty (row_id r'') = false).
  { apply andb_true_iff in Hid. destruct Hid as [Hid _]. now apply negb_true_iff in Hid. }
  replace (isEmpty (rowText r'')) with false
    by (unfold rowText; destruct (row_id r''); [discriminate|reflexivity]).
  unfold rowText at 1. rewrite (startsWith_app _ _ _ Hne), Hstar. cbn [orb].
  constructor; [|exact IH].
  destruct (deviceOfLine_row r'' Hr'') as (D1 & D2 & D3).
  unfold deviceOfRow. rewrite D1, D2, D3, Eid', Est', Eid, Est. now repeat split.
Qed.

(** The devices read from a listing stand for its rows, in their order. *)
Lemma devices_of_listing (header : string) (rows : list Row) (trailing : string) :
  isHeader header = true ->
  forallb isRow rows = true ->
  allOf isWhiteSpace trailing = true ->
  Forall2 deviceOfRow rows
    (AndroidDevice.devicesOfLines (List.tl (split LF (trim (listing header rows trailing))))).
Proof.
  intros Hh Hrows Ht.
  destruct (trim_listing header rows trailing Hh Hrows Ht) as (h' & rows' & E & Hl & HF).
  rewrite E, (split_rows _ _ Hl (sameRow_all _ _ HF)). cbn [List.tl].
  now apply devicesOfLines_rows.
Qed.

Lemma first_ready (rows : list Row) (devices : list AndroidDevice.Device) :
  Forall2 deviceOfRow rows devices ->
  match List.filter (fun d => strictEq (AndroidDevice.status d) "device") devices with
  | [] => List.find ready rows = None
  | d :: _ => exists r, List.find ready rows = Some r /\ AndroidDevice.id d = row_id r
  end.
Proof.
  induction 1 as [|r d rows devices (Eid & Est & _) _ IH]; [reflexivity|].
  cbn [List.filter List.find]. rewrite Est. unfold ready at 1 3. cbn [strictEq].
  destruct (String.eqb (row_state r) "device"); [now exists r|exact IH].
Qed.

(** X18.  From a device listing (a header line, a line for each device with
    its serial number, white space, its state and anything after more white
    space, then white space) [listDevices] reads one Android device for each
    line, in the order of the lines, with the serial number as its id and the
    state as its status. *)
Theorem listDevices_reads_listing
    (header : string) (rows : list Row) (trailing : string)
    (script : list Answer) (log : list Event) :
  isHeader header = true ->
  forallb isRow rows = true ->
  allOf isWhiteSpace trailing = true ->
  exists devices,
    AndroidDevice.listDevices (mkWorld (Exited (listing header rows trailing) :: script) log)
    = Async.Resolved devices
        (mkWorld script (log ++ [Exec "adb devices -l" DEFAULT_TIMEOUT]))
    /\ Forall2 deviceOfRow rows devices.
Proof.
  intros Hh Hrows Ht. eexists. split; [reflexivity|].
  now apply devices_of_listing.
Qed.

(** X19.  On such a listing [getFirstDeviceId] resolves to the serial number
    of the first line whose state is device, whatever the states of the lines
    before it, and rejects with its own error when no line has that state. *)
Theorem getFirstDeviceId_first_ready
    (header : string) (rows : list Row) (trailing : string)
    (script : list Answer) (log : list Event) :
  isHeader header = true ->
  forallb isRow rows = true ->
  allOf isWhiteSpace trailing = true ->
  AndroidDevice.getFirstDeviceId
    (mkWorld (Exited (listing header rows trailing) :: script) log)
  = match List.find ready rows with
    | Some r =>
        Async.Resolved (row_id r)
          (mkWorld script (log ++ [Exec "adb devices -l" DEFAULT_TIMEOUT]))
    | None =>
        Async.Rejected AndroidDevice.noDeviceError
          (mkWorld script (log ++ [Exec "adb devices -l" DEFAULT_TIMEOUT]))
    end.
Proof.
  intros Hh Hrows Ht.
  pose proof (first_ready _ _ (devices_of_listing header rows trailing Hh Hrows Ht)) as H.
  unfold AndroidDevice.getFirstDeviceId, AndroidDevice.listDevices, Async.bind, exec, Async.ret.
  cbn [answers Android.trace].
  destruct (List.filter _ _) as [|d ds].
  - now rewrite H.
  - destruct H as (r & -> & <-). reflexivity.
Qed.

End ListingProperties.

(** ** The tools that poll *)

Section WaitForElementProperties.
Import Js Types Async UiFilter Observe Notions MoreNotions.

Variable JSON_stringify : list UiElement -> string.
Variable Number_toString : number -> string.
Variables (platform : Platform) (device_id : option string) (criteria : Tools.Criteria).
Variables (timeout pollInterval : Z) (observe : option ObserveMode).

Abbreviation waitLoop' :=
  (Tools.waitLoop JSON_stringify Number_toString platform device_id criteria
     timeout pollInterval observe).
Abbreviation waitForElement' :=
  (Tools.waitForElement JSON_stringify Number_toString platform device_id criteria
     timeout pollInterval observe).
Abbreviation matching := (List.filter (Tools.matchElement criteria)).
Abbreviation polls := (rounds platform device_id pollInterval).

(** The iterations whose captures have no matching element. *)
Lemma waitLoop_misses (misses : list (list UiElement)) :
  forall readings fuel start lastTree later rest shots made,
    List.length readings = List.length misses ->
    Forall (fun now => (now - start < timeout)%Z) readings ->
    Forall (fun tree => matching tree = []) misses ->
    waitLoop' (List.length misses + fuel) start lastTree
      (mkWorld (readings ++ later) (map inr misses ++ rest) shots made)
    = waitLoop' fuel start (List.last misses lastTree)
        (mkWorld later rest shots (made ++ polls misses)).
Proof.
  induction misses as [|tree misses IH];
    intros readings fuel start lastTree later rest shots made Hlen Hin Hmiss.
  - destruct readings; [|discriminate]. cbn [app map List.length Nat.add List.last].
    unfold rounds. cbn [flat_map]. now rewrite app_nil_r.
  - destruct readings as [|now readings]; [discriminate|].
    inversion Hin as [|? ? Hnow Hin']; subst.
    inversion Hmiss as [|? ? Htree Hmiss']; subst.
    cbn [List.length Nat.add app map Tools.waitLoop].
    unfold bind at 1, Date_now at 1. cbn [clock uiTrees screenshots calls].
    apply Z.ltb_lt in Hnow. rewrite Hnow.
    unfold bind at 1, getUiTree at 1. cbn [clock uiTrees screenshots calls].
    rewrite Htree. cbn [List.length Nat.ltb Nat.leb].
    unfold bind at 1, delay at 1. cbn [clock uiTrees screenshots calls].
    rewrite (IH readings fuel start tree later rest shots); [|simpl in Hlen; lia|assumption|assumption].
    f_equal.
    + symmetry. apply last_cons.
    + f_equal. unfold rounds. cbn [flat_map]. now rewrite <- !app_assoc.
Qed.

(** X20.  Polling for an element ends at the first capture with a matching
    element: after captures without a match, each followed by one delay, the
    tool reports the elements of that capture that match, all of them and
    unfiltered, and with no observation asked for it makes no further call. *)
Theorem waitForElement_first_match
    (start now finished : Z) (readings more : list Z)
    (misses : list (list UiElement)) (tree : list UiElement)
    (rest : list (Error + list UiElement)) (shots : list (Error + Screenshot))
    (made : list Call) :
  default Mode.none observe = Mode.none ->
  List.length readings = List.length misses ->
  Forall (fun now => (now - start < timeout)%Z) readings ->
  (now - start < timeout)%Z ->
  Forall (fun tree => matching tree = []) misses ->
  matching tree <> [] ->
  waitForElement'
    (mkWorld (start :: readings ++ now :: finished :: more)
       (map inr misses ++ inr tree :: rest) shots made)
  = Resolved
      (Tools.mkToolResult
         [Tools.TextItem
            (Tools.foundText JSON_stringify Number_toString (matching tree) (finished - start))]
         false)
      (mkWorld more rest shots
         (made ++ polls misses ++ [GetUiTree platform device_id])).
Proof.
  intros Hmode Hlen Hin Hnow Hmiss Hhit.
  unfold Tools.waitForElement. unfold bind at 1, Date_now at 1.
  cbn [clock uiTrees screenshots calls List.length].
  replace (S (List.length (readings ++ now :: finished :: more)))
    with (List.length misses + S (S (S (List.length more))))%nat
    by (rewrite List.length_app; cbn [List.length]; lia).
  rewrite (waitLoop_misses misses readings _ start [] _ _ shots made Hlen Hin Hmiss).
  cbn [Tools.waitLoop]. unfold bind at 1, Date_now at 1.
  cbn [clock uiTrees screenshots calls].
  apply Z.ltb_lt in Hnow. rewrite Hnow.
  unfold bind at 1, getUiTree at 1. cbn [clock uiTrees screenshots calls].
  destruct (matching tree) as [|el els] eqn:E; [contradiction|].
  cbn [List.length Nat.ltb Nat.leb].
  unfold bind at 1. rewrite performObservation_none by exact Hmode.
  unfold bind, Date_now, ret. cbn [clock uiTrees screenshots calls Tools.buildResponseContent].
  now rewrite <- app_assoc.
Qed.

(** X21.  When an observation of the UI tree is asked for, the tree the tool
    reports beside the match is a further capture taken after the match, not
    the capture the match was found in, filtered to the relevant elements. *)
Theorem waitForElement_observes_again
    (start now finished : Z) (more : list Z)
    (tree after : list UiElement)
    (rest : list (Error + list UiElement)) (shots : list (Error + Screenshot))
    (made : list Call) :
  observe = Some Mode.ui_tree ->
  (now - start < timeout)%Z ->
  matching tree <> [] ->
  waitForElement'
    (mkWorld (start :: now :: finished :: more) (inr tree :: inr after :: rest) shots made)
  = Resolved
      (Tools.mkToolResult
         [Tools.TextItem
            (Tools.foundText JSON_stringify Number_toString (matching tree) (finished - start));
          Tools.TextItem
            ("--- UI Tree ("
             ++ Tools.lengthText Number_toString (filterUiElements after (Some false))
             ++ " elements) ---"
             ++ String LF (JSON_stringify (filterUiElements after (Some false))))]
         false)
      (mkWorld more rest shots
         (made ++ [GetUiTree platform device_id; GetUiTree platform device_id])).
Proof.
  intros Hmode Hnow Hhit.
  unfold Tools.waitForElement. unfold bind at 1, Date_now at 1.
  cbn [clock uiTrees screenshots calls List.length Tools.waitLoop].
  unfold bind at 1, Date_now at 1. cbn [clock uiTrees screenshots calls].
  apply Z.ltb_lt in Hnow. rewrite Hnow.
  unfold bind at 1, getUiTree at 1. cbn [clock uiTrees screenshots calls].
  destruct (matching tree) as [|el els] eqn:E; [contradiction|].
  cbn [List.length Nat.ltb Nat.leb]. rewrite Hmode.
  unfold performObservation, settle, positive, all2, bind, getUiTree, Date_now, ret.
  cbn. now rewrite <- app_assoc.
Qed.

(** X22.  When no capture before the deadline has a matching element, the
    tool does not raise: it resolves to an error result whose text shows the
    last captured tree, filtered to the relevant elements. *)
Theorem waitForElement_timeout
    (start late : Z) (readings more : list Z)
    (misses : list (list UiElement))
    (rest : list (Error + list UiElement)) (shots : list (Error + Screenshot))
    (made : list Call) :
  List.length readings = List.length misses ->
  Forall (fun now => (now - start < timeout)%Z) readings ->
  (timeout <= late - start)%Z ->
  Forall (fun tree => matching tree = []) misses ->
  waitForElement'
    (mkWorld (start :: readings ++ late :: more) (map inr misses ++ rest) shots made)
  = Resolved
      (Tools.mkToolResult
         [Tools.TextItem
            (Tools.timeoutText JSON_stringify Number_toString timeout
               (filterUiElements (List.last misses []) None))]
         true)
      (mkWorld more rest shots (made ++ polls misses)).
Proof.
  intros Hlen Hin Hlate Hmiss.
  unfold Tools.waitForElement. unfold bind at 1, Date_now at 1.
  cbn [clock uiTrees screenshots calls List.length].
  replace (S (List.length (readings ++ late :: more)))
    with (List.length misses + S (S (List.length more)))%nat
    by (rewrite List.length_app; cbn [List.length]; lia).
  rewrite (waitLoop_misses misses readings _ start [] _ _ shots made Hlen Hin Hmiss).
  cbn [Tools.waitLoop]. unfold bind at 1, Date_now at 1.
  cbn [clock uiTrees screenshots calls].
  apply Z.ltb_ge in Hlate. rewrite Hlate. reflexivity.
Qed.

End WaitForElementProperties.

Section WaitForStableProperties.
Import Js Types Async UiFilter Observe Notions MoreNotions.

Variable JSON_stringify : list UiElement -> string.
Variable Number_toString : number -> string.
Variables (platform : Platform) (device_id : option string).
Variables (timeout_ms poll_interval_ms : option Z) (filter_ui : option bool).

Abbreviation shown :=
  (fun tree : list UiElement =>
     filterUiElements tree (Some (negb (default true filter_ui)))).

(** X23.  The tool wait_for_stable does not tell a timeout from stability:
    when the deadline passes after captures of which no two consecutive ones
    have equal signatures, it still answers that the screen stabilized, with
    the tree captured last and without the error flag. *)
Theorem waitForStable_reports_timeout_as_stable
    (start late : Z) (readings more : list Z)
    (trees : list (list UiElement))
    (rest : list (Error + list UiElement)) (shots : list (Error + Screenshot))
    (made : list Call) :
  List.length readings = List.length trees ->
  Forall (fun now => (now - start < default 10000 timeout_ms)%Z) readings ->
  (default 10000 timeout_ms <= late - start)%Z ->
  adjacent_distinct (map (hashUiTree Number_toString) trees) ->
  Tools.waitForStable JSON_stringify Number_toString platform device_id
    timeout_ms poll_interval_ms None filter_ui
    (mkWorld (start :: readings ++ late :: more) (map inr trees ++ rest) shots made)
  = Resolved
      (Tools.mkToolResult
         [Tools.TextItem
            ("Screen stabilized ("
             ++ Tools.lengthText Number_toString (shown (List.last trees []))
             ++ " elements):"
             ++ String LF (JSON_stringify (shown (List.last trees []))))]
         false)
      (mkWorld more rest shots
         (made ++ rounds platform device_id (default 500%Z poll_interval_ms) trees)).
Proof.
  intros Hlen Hin Hlate Hdist.
  unfold Tools.waitForStable, waitForStableUiTree, detect.
  unfold bind at 1 2 3, Date_now at 1. cbn [clock uiTrees screenshots calls].
  rewrite (poll_times_out Number_toString platform device_id _ _ trees readings _ start
             EmptyString [] late more rest shots made Hlen Hin
             (never_converges_first _ _ Hdist) Hlate).
  - reflexivity.
  - cbn [List.length]. rewrite List.length_app. cbn [List.length]. lia.
Qed.

End WaitForStableProperties.

(** ** The iOS adapter: the choice of a device and the quoting of typed text *)

Section IosDeviceProperties.
Import Js Types Async Android Notions MoreNotions.

Variable listDevices : async World (list AndroidDevice.Device).

Lemma filter_first {A} (f : A -> bool) (l : list A) :
  List.find f l = List.head (List.filter f l).
Proof.
  induction l as [|a l IH]; [reflexivity|]. cbn [List.find List.filter].
  destruct (f a); [reflexivity|exact IH].
Qed.

Lemma find_either {A} (f g : A -> bool) (l : list A) :
  List.find f l = None -> List.find (fun a => f a || g a) l = List.find g l.
Proof.
  induction l as [|a l IH]; [reflexivity|]. cbn [List.find].
  destruct (f a); [discriminate|]. cbn [orb]. destruct (g a); [reflexivity|exact IH].
Qed.

(** X24.  [getFirstDeviceId] of the iOS adapter prefers a booted simulator
    to a connected device, wherever the two stand in the list: it resolves to
    the first booted device, to the first connected device when none is
    booted, and rejects with its own error when there is neither. *)
Theorem ios_getFirstDeviceId_prefers_booted
    (devices : list AndroidDevice.Device) (w w' : World) :
  listDevices w = Resolved devices w' ->
  IosDevice.getFirstDeviceId listDevices w
  = match List.find (IosDevice.hasStatus "booted") devices with
    | Some d => Resolved (AndroidDevice.id d) w'
    | None =>
        match List.find (IosDevice.hasStatus "connected") devices with
        | Some d => Resolved (AndroidDevice.id d) w'
        | None => Rejected IosDevice.noDeviceError w'
        end
    end.
Proof.
  intros H. unfold IosDevice.getFirstDeviceId, bind. rewrite H.
  destruct (List.find (IosDevice.hasStatus "booted") devices) as [d|] eqn:Eb.
  - rewrite filter_first in Eb.
    destruct (List.filter (IosDevice.hasStatus "booted") devices); [discriminate|].
    injection Eb as ->. reflexivity.
  - rewrite <- (find_either _ (IosDevice.hasStatus "connected") _ Eb).
    rewrite filter_first in Eb.
    destruct (List.filter (IosDevice.hasStatus "booted") devices); [|discriminate].
    rewrite filter_first.
    destruct (List.filter _ devices); reflexivity.
Qed.

Lemma shRead_quoted (text rest : string) :
  shRead true (IosDevice.escapeText text ++ String IosDevice.apostrophe rest)
  = option_map (append text) (shRead false rest).
Proof.
  induction text as [|c text IH].
  - cbn. now destruct (shRead false rest).
  - unfold IosDevice.escapeText in *. cbn [AndroidDevice.replaceAll].
    destruct (Ascii.eqb c IosDevice.apostrophe) eqn:E.
    + apply Ascii.eqb_eq in E. subst c.
      cbn in *. rewrite IH. now destruct (shRead false rest).
    + cbn [append shRead]. rewrite E, IH. now destruct (shRead false rest).
Qed.

(** X25.  The text [typeText] of the iOS adapter puts between apostrophes is
    read back by a shell as one word, and that word is the text typed,
    whatever characters it has. *)
Theorem ios_typeText_quoting (text : string) :
  shRead false (IosDevice.singleQuoted (IosDevice.escapeText text)) = Some text.
Proof.
  unfold IosDevice.singleQuoted.
  change (shRead true (IosDevice.escapeText text ++ String IosDevice.apostrophe EmptyString)
          = Some text).
  rewrite shRead_quoted. cbn [shRead option_map]. now rewrite append_empty_r.
Qed.

End IosDeviceProperties.

(** ** Runs of the properties above on sample data *)

Section MoreRuns.
Import Js Types Async Regex UiFilter Android Observe Notions MoreNotions.

Lemma hashUiTree_reads_four_fields_witness :
  hashUiTree decimal [statusClock "12:00"; button 2 "Done"]
  = hashUiTree decimal [statusClock "12:00"; doneButtonRenumbered].
Proof.
  apply (hashUiTree_reads_four_fields decimal).
  repeat constructor.
Defined.

Lemma convergence_is_sound_witness :
  exists before previous,
    [inr doneScreen; inr doneScreenLater]
    = (map inr before ++ inr previous :: inr doneScreenLater :: [])%list
      :> list (Error + list UiElement)
    /\ hashUiTree decimal previous = hashUiTree decimal doneScreenLater
    /\ hashUiTree decimal doneScreenLater <> EmptyString.
Proof.
  apply (convergence_is_sound decimal android None 500 10000
           (mkWorld [0; 3; 520; 1040]%Z [inr doneScreen; inr doneScreenLater] [] [])
           doneScreenLater
           (mkWorld [1040]%Z [] []
              [GetUiTree android None; Delay 500; GetUiTree android None])).
  vm_compute. reflexivity.
Defined.

Lemma bar_only_never_converges_witness :
  detect decimal android None 500 10000
    (mkWorld [0; 3; 520; 10040]%Z [inr (barOnly "12:00"); inr (barOnly "12:00")] [] [])
  <> Resolved (Converged, barOnly "12:00") (mkWorld [10040]%Z [] [] []).
Proof.
  apply (bar_only_never_converges decimal android None 500 10000).
  repeat constructor.
Defined.

Lemma waitForStableUiTree_capture_failure_witness :
  waitForStableUiTree decimal android None 500 10000
    (mkWorld [0; 3; 520; 1040]%Z [inr loadingScreen; inl noDevice; inr doneScreen] [] [])
  = Rejected noDevice
      (mkWorld [1040]%Z [inr doneScreen] []
         [GetUiTree android None; Delay 500; GetUiTree android None]).
Proof.
  apply (waitForStableUiTree_capture_failure decimal android None 500 10000
           0 [3]%Z 520 [1040]%Z [loadingScreen] noDevice [inr doneScreen] [] []).
  - reflexivity.
  - repeat constructor.
  - lia.
  - exact I.
Defined.

Lemma performObservation_both_witness :
  performObservation decimal (sampleOptions Mode.both None None)
    (mkWorld [] [inr doneScreen] [inr sampleShot] [])
  = Resolved
      (Some (mkObservationResult (Some [statusClock "12:00"; button 2 "Done"])
               (Some sampleShot)))
      (mkWorld [] [] []
         [GetUiTree android (Some "emulator-5554");
          GetScreenshot android (Some "emulator-5554")]).
Proof.
  apply (performObservation_both decimal (sampleOptions Mode.both None None)
           (mkWorld [] [inr doneScreen] [inr sampleShot] [])
           (mkWorld [] [inr doneScreen] [inr sampleShot] [])
           doneScreen [] sampleShot []); reflexivity.
Defined.

Lemma performObservation_both_failure_witness :
  performObservation decimal (sampleOptions Mode.both None None)
    (mkWorld [] [inr doneScreen] [inl noDevice] [])
  = Rejected noDevice
      (mkWorld [] [] []
         [GetUiTree android (Some "emulator-5554");
          GetScreenshot android (Some "emulator-5554")]).
Proof.
  apply (proj1 (performObservation_both_failure decimal (sampleOptions Mode.both None None)
                  (mkWorld [] [inr doneScreen] [inl noDevice] [])
                  (mkWorld [] [inr doneScreen] [inl noDevice] [])
                  eq_refl eq_refl)
           doneScreen [] noDevice []); reflexivity.
Defined.

Lemma parseNode_type_witness :
  exists el, parseNode 0 settingsAttrs = Some el /\ type el = "TextView".
Proof.
  destruct (parseNode 0 settingsAttrs) as [el|] eqn:E; [|vm_compute in E; discriminate E].
  exists el. split; [reflexivity|].
  apply (proj1 (parseNode_type 0 settingsAttrs el E) "android.widget" "TextView");
    reflexivity.
Defined.

Lemma parseNode_resource_id_witness :
  exists el, parseNode 0 settingsAttrs = Some el /\ resource_id el = Some "title".
Proof.
  destruct (parseNode 0 settingsAttrs) as [el|] eqn:E; [|vm_compute in E; discriminate E].
  exists el. split; [reflexivity|].
  apply (proj1 (parseNode_resource_id 0 settingsAttrs el E) "com.android.settings" "title");
    reflexivity.
Defined.

Lemma extractXml_shape_witness :
  exists before mid after,
    "dump: <hierarchy></hierarchy> done" = before ++ "<hierarchy></hierarchy>" ++ after
    /\ ("<hierarchy></hierarchy>" = "<?xml" ++ mid ++ closingTag
        \/ "<hierarchy></hierarchy>" = "<hierarchy" ++ mid ++ closingTag)
    /\ isEmpty "<hierarchy></hierarchy>" = false.
Proof.
  apply (extractXml_shape "dump: <hierarchy></hierarchy> done" "<hierarchy></hierarchy>").
  reflexivity.
Defined.

Lemma extractXml_strips_trailer_witness :
  extractXml ("<?xml" ++ " ?><hierarchy>" ++ closingTag ++ dumpNotice)
  = Some ("<?xml" ++ " ?><hierarchy>" ++ closingTag).
Proof.
  apply (extractXml_strips_trailer " ?><hierarchy>" dumpNotice). reflexivity.
Defined.

Lemma getScreenInfo_reads_numbers_witness :
  AndroidDevice.getScreenInfo (Some "emulator-5554")
    (Android.mkWorld
       [Exited "Physical size: 1080x2400"; Exited "Physical density: 420"] [])
  = Resolved (AndroidDevice.mkScreenInfo 1080%Q 2400%Q 420%Q "portrait")
      (Android.mkWorld []
         [Exec "adb -s emulator-5554 shell wm size" 15000;
          Exec "adb -s emulator-5554 shell wm density" 15000]).
Proof.
  exact (getScreenInfo_reads_numbers "emulator-5554" "Physical size: " EmptyString
           "Physical density: " EmptyString 1080 2400 420 [] []
           eq_refl eq_refl eq_refl eq_refl eq_refl eq_refl eq_refl).
Defined.

Lemma getScreenInfo_degrades_witness :
  AndroidDevice.getScreenInfo (Some "emulator-5554")
    (Android.mkWorld [Exited "error: closed"; Exited EmptyString] [])
  = Resolved (AndroidDevice.mkScreenInfo 0%Q 0%Q 0%Q "portrait")
      (Android.mkWorld []
         [Exec "adb -s emulator-5554 shell wm size" 15000;
          Exec "adb -s emulator-5554 shell wm density" 15000]).
Proof.
  exact (getScreenInfo_degrades "emulator-5554" "error: closed" EmptyString [] []
           eq_refl eq_refl).
Defined.

Lemma escapeText_injective_witness : "it's 5 o'clock" = "it's 5 o'clock".
Proof.
  apply (escapeText_injective "it's 5 o'clock" "it's 5 o'clock"); reflexivity.
Defined.

Lemma listDevices_reads_listing_witness :
  exists devices,
    AndroidDevice.listDevices
      (Android.mkWorld [Exited (listing sampleHeader sampleRows sampleTrailing)] [])
    = Resolved devices (Android.mkWorld [] [Exec "adb devices -l" 15000])
    /\ Forall2 deviceOfRow sampleRows devices.
Proof.
  apply (listDevices_reads_listing sampleHeader sampleRows sampleTrailing [] []);
    reflexivity.
Defined.

Lemma getFirstDeviceId_first_ready_witness :
  AndroidDevice.getFirstDeviceId
    (Android.mkWorld [Exited (listing sampleHeader sampleRows sampleTrailing)] [])
  = Resolved "emulator-5554" (Android.mkWorld [] [Exec "adb devices -l" 15000]).
Proof.
  exact (getFirstDeviceId_first_ready sampleHeader sampleRows sampleTrailing [] []
           eq_refl eq_refl eq_refl).
Defined.

Lemma waitForElement_first_match_witness :
  Tools.waitForElement renderTexts decimal android None doneCriteria 10000 500 None
    (mkWorld [0; 5; 510; 515]%Z [inr loadingScreen; inr doneScreen] [] [])
  = Resolved
      (Tools.mkToolResult
         [Tools.TextItem
            (Tools.foundText renderTexts decimal [button 2 "Done"] (515 - 0))]
         false)
      (mkWorld [] [] []
         [GetUiTree android None; Delay 500; GetUiTree android None]).
Proof.
  apply (waitForElement_first_match renderTexts decimal android None doneCriteria
           10000 500 None 0 510 515 [5]%Z [] [loadingScreen] doneScreen [] [] []).
  - reflexivity.
  - reflexivity.
  - repeat constructor.
  - lia.
  - repeat constructor.
  - discriminate.
Defined.

Lemma waitForElement_observes_again_witness :
  Tools.waitForElement renderTexts decimal android None doneCriteria 10000 500
    (Some Mode.ui_tree)
    (mkWorld [0; 5; 10]%Z [inr doneScreen; inr loadingScreen] [] [])
  = Resolved
      (Tools.mkToolResult
         [Tools.TextItem
            (Tools.foundText renderTexts decimal [button 2 "Done"] (10 - 0));
          Tools.TextItem
            ("--- UI Tree ("
             ++ Tools.lengthText decimal (filterUiElements loadingScreen (Some false))
             ++ " elements) ---"
             ++ String LF (renderTexts (filterUiElements loadingScreen (Some false))))]
         false)
      (mkWorld [] [] [] [GetUiTree android None; GetUiTree android None]).
Proof.
  apply (waitForElement_observes_again renderTexts decimal android None doneCriteria
           10000 500 (Some Mode.ui_tree) 0 5 10 [] doneScreen loadingScreen [] [] []).
  - reflexivity.
  - lia.
  - discriminate.
Defined.

Lemma waitForElement_timeout_witness :
  Tools.waitForElement renderTexts decimal android None doneCriteria 1000 500 None
    (mkWorld [0; 5; 510; 1015]%Z [inr (barOnly "12:00"); inr loadingScreen] [] [])
  = Resolved
      (Tools.mkToolResult
         [Tools.TextItem
            (Tools.timeoutText renderTexts decimal 1000
               [statusClock "12:00"; button 2 "Loading"])]
         true)
      (mkWorld [] [] []
         [GetUiTree android None; Delay 500; GetUiTree android None; Delay 500]).
Proof.
  apply (waitForElement_timeout renderTexts decimal android None doneCriteria
           1000 500 None 0 1015 [5; 510]%Z [] [barOnly "12:00"; loadingScreen] [] [] []).
  - reflexivity.
  - repeat constructor.
  - lia.
  - repeat constructor.
Defined.

Lemma waitForStable_reports_timeout_as_stable_witness :
  Tools.waitForStable renderTexts decimal android None (Some 1000%Z) None None None
    (mkWorld [0; 5; 510; 1015]%Z [inr loadingScreen; inr doneScreen] [] [])
  = Resolved
      (Tools.mkToolResult
         [Tools.TextItem
            ("Screen stabilized ("
             ++ Tools.lengthText decimal [statusClock "12:00"; button 2 "Done"]
             ++ " elements):"
             ++ String LF (renderTexts [statusClock "12:00"; button 2 "Done"]))]
         false)
      (mkWorld [] [] []
         [GetUiTree android None; Delay 500; GetUiTree android None; Delay 500]).
Proof.
  apply (waitForStable_reports_timeout_as_stable renderTexts decimal android None
           (Some 1000%Z) None None 0 1015 [5; 510]%Z [] [loadingScreen; doneScreen]
           [] [] []).
  - reflexivity.
  - repeat constructor.
  - cbn. lia.
  - vm_compute. split; [discriminate|exact I].
Defined.

Lemma ios_getFirstDeviceId_prefers_booted_witness :
  IosDevice.getFirstDeviceId (ret sampleIosDevices) (Android.mkWorld [] [])
  = Resolved "SIM-2" (Android.mkWorld [] []).
Proof.
  apply (ios_getFirstDeviceId_prefers_booted (ret sampleIosDevices) sampleIosDevices
           (Android.mkWorld [] []) (Android.mkWorld [] [])).
  reflexivity.
Defined.

End MoreRuns.

(** ** The Android parser on a dump *)

Section DumpFacts.
Import Js Types Regex Android Notions MoreNotions.

(** A lazy quantifier without upper bound stops at the first point where
    the continuation accepts. *)
Lemma rep_lazy_run {A} (lo : nat) (cls : ascii -> bool) (k : string -> option A)
    (d rest : string) (r : A) :
  allOf cls d = true ->
  (forall d1 d2, d = d1 ++ d2 -> isEmpty d2 = false -> k (d2 ++ rest) = None) ->
  k rest = Some r ->
  forall n, (lo <= n + String.length d)%nat ->
  rep false lo None cls k n (d ++ rest) = Some r.
Proof.
  induction d as [|c d IH]; intros Hall Hfail Hk n Hlo.
  - cbn [String.length] in Hlo. rewrite Nat.add_0_r in Hlo. apply Nat.leb_le in Hlo.
    cbn [append]. destruct rest; cbn [rep]; now rewrite Hlo, Hk.
  - cbn [allOf] in Hall. apply andb_true_iff in Hall. destruct Hall as [Hc Hall].
    cbn [append rep]. rewrite Hc. cbn [below andb].
    assert (F : k (String c (d ++ rest)) = None)
      by (apply (Hfail EmptyString (String c d)); reflexivity).
    rewrite F.
    assert (Hfail' : forall d1 d2, d = d1 ++ d2 -> isEmpty d2 = false ->
                                   k (d2 ++ rest) = None).
    { intros d1 d2 E Hne. apply (Hfail (String c d1) d2); [now rewrite E|exact Hne]. }
    cbn [String.length] in Hlo.
    destruct (lo <=? n)%nat; apply (IH Hall Hfail' Hk); lia.
Qed.

Lemma endsWith_app (c : ascii) (d1 d2 : string) :
  isEmpty d2 = false -> endsWith c (d1 ++ d2) = endsWith c d2.
Proof.
  intros H. induction d1 as [|a d1 IH]; [reflexivity|].
  cbn [append endsWith]. rewrite IH.
  destruct (d1 ++ d2) eqn:E; [|reflexivity].
  destruct d1; [cbn [append] in E; subst d2; discriminate|discriminate].
Qed.

Abbreviation closing :=
  [Close; Rep true 0 (Some 1%nat) (Ascii.eqb "/"); Lit ">"].

(** Inside the attributes the end of the tag is not met. *)
Lemma closing_fails (s0 : string) (caps : list string) (d tail : string) :
  isEmpty d = false ->
  allOf (fun c => negb (Ascii.eqb c ">")) d = true ->
  endsWith "/" d = false ->
  run closing [s0] caps (d ++ tail) = None.
Proof.
  intros Hne Hall Hend. destruct d as [|c d]; [discriminate|].
  cbn [allOf] in Hall. apply andb_true_iff in Hall. destruct Hall as [Hc Hall].
  apply negb_true_iff in Hc.
  assert (S1 : forall x, strip ">" (String c x) = None).
  { intros x. cbn [strip]. rewrite Ascii.eqb_sym, Hc. reflexivity. }
  cbn [run append rep below Nat.ltb Nat.leb andb].
  destruct (Ascii.eqb "/" c) eqn:E.
  - destruct d as [|c2 d].
    + exfalso. cbn [endsWith] in Hend. rewrite Ascii.eqb_sym in Hend. congruence.
    + cbn [allOf] in Hall. apply andb_true_iff in Hall. destruct Hall as [Hc2 _].
      apply negb_true_iff in Hc2.
      cbn [append rep below Nat.ltb Nat.leb andb run strip].
      rewrite (Ascii.eqb_sym ">" c2), Hc2, (Ascii.eqb_sym ">" c), Hc. reflexivity.
  - cbn [run]. now rewrite S1.
Qed.

(** The node expression at the start of a tag: the group is the attributes
    and the search resumes after the tag. *)
Lemma node_exec (n : Node) (more : string) :
  isNode n = true ->
  exec_at nodeRegex (nodeTag n ++ more)
  = Some (mkResult (nodeTag n) [node_attrs n] more).
Proof.
  unfold isNode, isAttrs. intros H.
  apply andb_true_iff in H. destruct H as [H _].
  apply andb_true_iff in H. destruct H as [H Hattrs].
  apply andb_true_iff in H. destruct H as [Hgne Hgap].
  apply andb_true_iff in Hattrs. destruct Hattrs as [Hattrs Hend].
  apply andb_true_iff in Hattrs. destruct Hattrs as [Hattrs Hgt].
  apply andb_true_iff in Hattrs. destruct Hattrs as [Hane Hstart].
  apply negb_true_iff in Hgne, Hane, Hend.
  set (closer := if node_selfClosing n then "/>" else ">").
  assert (R : run nodeRegex [] [] (nodeTag n ++ more) = Some ([node_attrs n], more)).
  { unfold nodeTag, nodeRegex. fold closer. rewrite !string_app_assoc, run_lit.
    apply rep_greedy_run.
    - exact Hgap.
    - destruct (node_attrs n); [discriminate|exact Hstart].
    - cbn [run]. apply rep_lazy_run.
      + exact Hgt.
      + intros d1 d2 E Hne. apply closing_fails.
        * exact Hne.
        * rewrite E, allOf_app in Hgt. apply andb_true_iff in Hgt. tauto.
        * rewrite E, (endsWith_app _ _ _ Hne) in Hend. exact Hend.
      + cbn [run]. rewrite consumed_app. unfold closer.
        destruct (node_selfClosing n), more; reflexivity.
      + destruct (node_attrs n); [discriminate|cbn [String.length]; lia].
    - destruct (node_gap n); [discriminate|cbn [String.length]; lia]. }
  unfold exec_at. rewrite R. now rewrite consumed_app.
Qed.

Lemma nodesText_start (nodes : list Node) :
  strip "node" (nodesText nodes) = None.
Proof. destruct nodes as [|n nodes]; reflexivity. Qed.

(** The search passes over markup that holds no start of a node tag. *)
Lemma search_skip_markup (before : string) (nodes : list Node) :
  noNodeStart before = true ->
  search nodeRegex (before ++ nodesText nodes) = search nodeRegex (nodesText nodes).
Proof.
  unfold noNodeStart. intros H. apply negb_true_iff in H.
  induction before as [|c before IH]; [reflexivity|].
  cbn [Tools.includes] in H. apply orb_false_iff in H. destruct H as [Hp Hi].
  cbn [append search].
  replace (exec_at nodeRegex (String c (before ++ nodesText nodes))) with (@None result).
  - now apply IH.
  - symmetry. unfold exec_at, nodeRegex. cbn [run].
    assert (S : strip "<node" (String c (before ++ nodesText nodes)) = None);
      [|now rewrite S].
    change (strip "<node" (String c (before ++ nodesText nodes)))
      with (if Ascii.eqb "<" c then strip "node" (before ++ nodesText nodes) else None).
    destruct (Ascii.eqb "<" c) eqn:E; [|reflexivity].
    apply Ascii.eqb_eq in E. subst c.
    destruct before as [|d before]; [apply nodesText_start|].
    cbn [append].
    change (strip "node" (String d (before ++ nodesText nodes)))
      with (if Ascii.eqb "n" d then strip "ode" (before ++ nodesText nodes) else None).
    destruct (Ascii.eqb "n" d) eqn:E2; [|reflexivity].
    apply Ascii.eqb_eq in E2. subst d. exfalso.
    cbn [String.prefix] in Hp.
    destruct (ascii_dec "<" "<") as [_|N]; [|now apply N].
    destruct (ascii_dec "n" "n") as [_|N]; [|now apply N].
    destruct before; discriminate Hp.
Qed.

Lemma search_no_node (before : string) :
  noNodeStart before = true -> search nodeRegex before = None.
Proof.
  intros H. pose proof (search_skip_markup before [] H) as E.
  cbn [nodesText] in E. rewrite append_empty_r in E. rewrite E. reflexivity.
Qed.

(** The matches of the node expression in a dump are its tags, in order. *)
Lemma exec_loop_document (nodes : list Node) :
  forall fuel before,
    noNodeStart before = true ->
    forallb isNode nodes = true ->
    (List.length nodes < fuel)%nat ->
    map (group 1) (exec_loop fuel nodeRegex (document before nodes))
    = map node_attrs nodes.
Proof.
  induction nodes as [|n nodes IH]; intros fuel before Hb Hn Hf.
  - destruct fuel as [|fuel]; [reflexivity|]. unfold document. cbn [nodesText exec_loop].
    rewrite append_empty_r, (search_no_node _ Hb). reflexivity.
  - destruct fuel as [|fuel]; [cbn [List.length] in Hf; lia|].
    cbn [forallb] in Hn. apply andb_true_iff in Hn. destruct Hn as [Hn Hns].
    unfold document. cbn [exec_loop]. rewrite (search_skip_markup _ (n :: nodes) Hb).
    cbn [nodesText].
    rewrite (search_here _ _ _ (node_exec n _ Hn)). cbn [rest map group groups nth Nat.sub].
    f_equal. apply (IH fuel (node_after n)).
    + unfold isNode in Hn. apply andb_true_iff in Hn. tauto.
    + exact Hns.
    + cbn [List.length] in Hf. lia.
Qed.

Lemma nodesText_length (nodes : list Node) :
  (List.length nodes <= String.length (nodesText nodes))%nat.
Proof.
  induction nodes as [|n nodes IH]; [reflexivity|].
  cbn [nodesText List.length]. unfold nodeTag.
  rewrite !string_length_app. cbn [String.length]. lia.
Qed.

(** The parser on a dump goes through the attributes of its tags. *)
Lemma parseUiXml_document (before : string) (nodes : list Node) :
  noNodeStart before = true ->
  forallb isNode nodes = true ->
  parseUiXml (document before nodes) = parseNodes 0 (map node_attrs nodes).
Proof.
  intros Hb Hn. unfold parseUiXml, exec_all.
  destruct nodes as [|n nodes].
  - unfold document. cbn [nodesText map]. rewrite append_empty_r.
    destruct (String.length before); [reflexivity|].
    cbn [exec_loop]. now rewrite (search_no_node _ Hb).
  - rewrite exec_loop_document; [reflexivity|exact Hb|exact Hn|].
    unfold document. rewrite string_length_app.
    pose proof (nodesText_length nodes). cbn [nodesText List.length].
    unfold nodeTag. rewrite !string_length_app. cbn [String.length]. lia.
Qed.

End DumpFacts.

(** ** The bounds of the Android elements *)

Section DumpProperties.
Import Js Types Regex Android Notions MoreNotions.

Lemma parseNodes_app (l1 l2 : list string) :
  forall i,
    parseNodes i (l1 ++ l2)
    = (parseNodes i l1 ++ parseNodes (i + List.length (parseNodes i l1)) l2)%list.
Proof.
  induction l1 as [|a l1 IH]; intros i.
  - cbn [app parseNodes List.length]. now rewrite Nat.add_0_r.
  - cbn [app parseNodes]. destruct (parseNode i a) as [el|].
    + cbn [app List.length]. rewrite IH. do 2 f_equal. f_equal. lia.
    + apply IH.
Qed.

Lemma forallb_split {A} (f : A -> bool) (l1 l2 : list A) (a : A) :
  forallb f (l1 ++ a :: l2) = true ->
  forallb f l1 = true /\ f a = true /\ forallb f l2 = true.
Proof.
  rewrite forallb_app. cbn [forallb]. intros H.
  apply andb_true_iff in H. destruct H as [H1 H]. apply andb_true_iff in H. tauto.
Qed.

(** A node whose bounds do not parse leaves the parse as it is without the
    node. *)
Lemma document_skip (before : string) (earlier later : list Node) (n : Node) :
  noNodeStart before = true ->
  forallb isNode (earlier ++ n :: later) = true ->
  hasBounds (node_attrs n) = false ->
  parseUiXml (document before (earlier ++ n :: later))
  = parseUiXml (document before (earlier ++ later)).
Proof.
  intros Hb Hn Hskip.
  destruct (forallb_split _ _ _ _ Hn) as (He & _ & Hl).
  assert (Hn' : forallb isNode (earlier ++ later) = true)
    by (rewrite forallb_app, He, Hl; reflexivity).
  rewrite (parseUiXml_document _ _ Hb Hn), (parseUiXml_document _ _ Hb Hn').
  rewrite !List.map_app, !parseNodes_app. f_equal. cbn [map parseNodes].
  unfold hasBounds in Hskip. unfold parseNode.
  destruct (search boundsRegex (default EmptyString (extractAttr (node_attrs n) "bounds")));
    [discriminate|reflexivity].
Qed.

(** C7 as amended.  In a dump, a node whose bounds attribute is the text
    of two corner points [x1,y1][x2,y2], all four below 2^52, yields an
    element, placed after the elements of the nodes before it, with x = x1,
    y = y1, width = x2 - x1, height = y2 - y1 and the centre at the rounded
    midpoints round(x + width/2) and round(y + height/2); a node whose
    bounds attribute does not hold two corner points in digits is skipped, and
    the parse is that of the dump without it. *)
Theorem parseUiXml_bounds :
  (forall (before : string) (earlier later : list Node) (n : Node) (x1 y1 x2 y2 : N),
      noNodeStart before = true ->
      forallb isNode (earlier ++ n :: later) = true ->
      extractAttr (node_attrs n) "bounds"
      = Some (boundsText (numeral x1) (numeral y1) (numeral x2) (numeral y2)) ->
      (Z.of_N x1 < 2 ^ 52)%Z -> (Z.of_N y1 < 2 ^ 52)%Z ->
      (Z.of_N x2 < 2 ^ 52)%Z -> (Z.of_N y2 < 2 ^ 52)%Z ->
      exists el rest,
        parseUiXml (document before (earlier ++ n :: later))
        = (parseUiXml (document before earlier) ++ el :: rest)%list
        /\ index el = List.length (parseUiXml (document before earlier))
        /\ x (bounds el) = inject_Z (Z.of_N x1)
        /\ y (bounds el) = inject_Z (Z.of_N y1)
        /\ width (bounds el) = inject_Z (Z.of_N x2 - Z.of_N x1)
        /\ height (bounds el) = inject_Z (Z.of_N y2 - Z.of_N y1)
        /\ center_x el = Math_round (x (bounds el) + width (bounds el) / 2)%Q
        /\ center_y el = Math_round (y (bounds el) + height (bounds el) / 2)%Q)
  /\ (forall (before : string) (earlier later : list Node) (n : Node),
         noNodeStart before = true ->
         forallb isNode (earlier ++ n :: later) = true ->
         hasBounds (node_attrs n) = false ->
         parseUiXml (document before (earlier ++ n :: later))
         = parseUiXml (document before (earlier ++ later))).
Proof.
  split.
  - intros before earlier later n x1 y1 x2 y2 Hb Hn Hattr B1 B2 B3 B4.
    destruct (forallb_split _ _ _ _ Hn) as (He & _ & _).
    rewrite (parseUiXml_document _ _ Hb Hn), (parseUiXml_document _ _ Hb He).
    rewrite List.map_app, parseNodes_app. cbn [map parseNodes Nat.add].
    set (i := List.length (parseNodes 0 (map node_attrs earlier))).
    destruct (numeral_digits x1) as [A1 E1]. destruct (numeral_digits y1) as [A2 E2].
    destruct (numeral_digits x2) as [A3 E3]. destruct (numeral_digits y2) as [A4 E4].
    destruct (bounds_search _ _ _ _ A1 E1 A2 E2 A3 E3 A4 E4) as (m & Hm & Hg).
    destruct (parseNode_match i (node_attrs n) m) as (el & Hel & Hbounds & Hcx & Hcy & _ & Hi).
    { rewrite Hattr. exact Hm. }
    rewrite Hel. exists el, (parseNodes (S i) (map node_attrs later)).
    split; [reflexivity|]. split; [now symmetry|].
    unfold group in *. rewrite Hg in *. cbn [nth Nat.sub] in *.
    rewrite !parseInt_numeral in * by lia.
    rewrite !fsub_integer in Hbounds by lia.
    rewrite Hbounds, Hcx, Hcy. cbn [x y width height].
    repeat split; apply round_midpoint; lia.
  - intros before earlier later n Hb Hn Hskip. now apply document_skip.
Qed.

End DumpProperties.

Section DumpRuns.
Import Js Types Regex Android Notions MoreNotions.

(** The sample dump is the sample of the test suite with one more node. *)
Example sample_document :
  document sampleBefore [settingsNode; searchNode] = sampleXml.
Proof. vm_compute. reflexivity. Qed.

(** The scenario of the specification: bounds [0,100][540,150] parse to
    x 0, y 100, width 540, height 50 and the centre (270, 125); the node left
    of the screen before the search field is skipped. *)
Lemma parseUiXml_bounds_witness :
  (exists el rest,
      parseUiXml (document sampleBefore [settingsNode; offscreenNode; searchNode])
      = el :: rest
      /\ index el = 0%nat
      /\ x (bounds el) = 0%Q /\ y (bounds el) = 100%Q
      /\ width (bounds el) = 540%Q /\ height (bounds el) = 50%Q
      /\ center_x el = 270%Q /\ center_y el = 125%Q)
  /\ parseUiXml (document sampleBefore [settingsNode; offscreenNode; searchNode])
     = parseUiXml (document sampleBefore [settingsNode; searchNode]).
Proof.
  destruct parseUiXml_bounds as (Hmatch & Hskip). split.
  - destruct (Hmatch sampleBefore [] [offscreenNode; searchNode] settingsNode
                0%N 100%N 540%N 150%N)
      as (el & rest & Hel & Hi & Hx & Hy & Hw & Hh & Hcx & Hcy);
      try reflexivity.
    exists el, rest. split; [exact Hel|]. split; [exact Hi|].
    rewrite Hcx, Hcy, Hx, Hy, Hw, Hh. repeat split; vm_compute; reflexivity.
  - apply (Hskip sampleBefore [settingsNode] [searchNode] offscreenNode); reflexivity.
Defined.

(** C7 as stated fails.  The first corner of the node is written
    9007199254740993, which is 2^53 + 1; the parser reads the nearest double,
    and the element has x = 9007199254740992. *)
Lemma parseUiXml_bounds_counterexample :
  ~ (forall (before : string) (earlier later : list Node) (n : Node) (x1 y1 x2 y2 : N),
        noNodeStart before = true ->
        forallb isNode (earlier ++ n :: later) = true ->
        extractAttr (node_attrs n) "bounds"
        = Some (boundsText (numeral x1) (numeral y1) (numeral x2) (numeral y2)) ->
        exists el rest,
          parseUiXml (document before (earlier ++ n :: later))
          = (parseUiXml (document before earlier) ++ el :: rest)%list
          /\ x (bounds el) = inject_Z (Z.of_N x1)).
Proof.
  intros H.
  destruct (H EmptyString [] [] farNode 9007199254740993%N 0%N 9007199254740994%N 10%N)
    as (el & rest & Hel & Hx); try (vm_compute; reflexivity).
  vm_compute in Hel. injection Hel as <- _. vm_compute in Hx. discriminate Hx.
Qed.

(** The run of the counterexample. *)
Example parseUiXml_far_node :
  map (fun el => x (bounds el)) (parseUiXml (document EmptyString [farNode]))
  = [9007199254740992%Q].
Proof. vm_compute. reflexivity. Qed.

End DumpRuns.

(** ** The texts of the elements *)

Section ElementTexts.
Import Js Types Regex Android Notions MoreNotions.

Lemma parseNodes_texts (nodes : list string) :
  forall i,
    map text (parseNodes i nodes) = map displayText (List.filter hasBounds nodes).
Proof.
  induction nodes as [|attrs nodes IH]; intros i; [reflexivity|].
  cbn [parseNodes List.filter]. unfold hasBounds at 1.
  destruct (search boundsRegex (default EmptyString (extractAttr attrs "bounds")))
    as [m|] eqn:E.
  - destruct (parseNode_match i attrs m E) as (el & Hel & _ & _ & _ & Ht & _).
    rewrite Hel. cbn [map]. rewrite Ht, IH. reflexivity.
  - unfold parseNode. rewrite E. apply IH.
Qed.

Lemma parseLines_texts (JSON_parse : string -> option Idb.Entry) (lines : list string) :
  forall i,
    map text (Ios.parseLines JSON_parse i lines) = map entryText (omap JSON_parse lines).
Proof.
  induction lines as [|line lines IH]; intros i; [reflexivity|].
  cbn [Ios.parseLines omap list_omap]. destruct (JSON_parse line) as [entry|].
  - cbn [map]. rewrite IH. f_equal. apply entryElement_text.
  - apply IH.
Qed.

(** C9 as amended.  The text of a parsed element is a string in every case.
    On Android the texts of the elements of a dump are, element by element
    and in document order, those of the nodes whose bounds parse: for each
    node its own text attribute when that attribute is not empty, and its
    content description otherwise (each the empty string when the node lacks
    it).  On iOS they are, line by line, those of the records that parse: for
    each record the first of title, AXLabel and label that is present, an
    empty one included, and the empty string when none is present. *)
Theorem element_text_fallback :
  (forall (before : string) (nodes : list Node),
      noNodeStart before = true ->
      forallb isNode nodes = true ->
      map text (parseUiXml (document before nodes))
      = map displayText (List.filter hasBounds (map node_attrs nodes)))
  /\ (forall (JSON_parse : string -> option Idb.Entry) (output : string),
         map text (Ios.parseIdbDescribeAll JSON_parse output)
         = map entryText (omap JSON_parse (split LF (trim output)))).
Proof.
  split.
  - intros before nodes Hb Hn. rewrite (parseUiXml_document _ _ Hb Hn).
    apply parseNodes_texts.
  - intros JSON_parse output. apply parseLines_texts.
Qed.

End ElementTexts.

Section ElementTextRuns.
Import Js Types Regex Android Notions MoreNotions.

(** The sample dump: the first node shows its text, the node left of the
    screen yields no element, the last node has an empty text attribute and
    shows its content description.  The sample record of the bridge has an
    empty title, which is its text. *)
Lemma element_text_fallback_witness :
  map text (parseUiXml (document sampleBefore [settingsNode; offscreenNode; searchNode]))
  = ["Settings"; "Search"]
  /\ map text (Ios.parseIdbDescribeAll readSearchField searchFieldLine) = [EmptyString].
Proof.
  destruct element_text_fallback as [Handroid Hios]. split.
  - rewrite (Handroid sampleBefore [settingsNode; offscreenNode; searchNode]);
      reflexivity.
  - rewrite (Hios readSearchField searchFieldLine). reflexivity.
Defined.

End ElementTextRuns.

(** ** Nodes at negative positions *)

Section NegativePositions.
Import Js Types Regex Android Notions MoreNotions.

(** A quantifier consumes characters of its class only. *)
Lemma rep_inv_class {A} (greedy : bool) (lo : nat) (hi : option nat) (cls : ascii -> bool)
    (k : string -> option A) (s : string) :
  forall n r, rep greedy lo hi cls k n s = Some r ->
  exists mid rest, s = mid ++ rest /\ allOf cls mid = true /\ k rest = Some r.
Proof.
  induction s as [|c s IH]; intros n r H.
  - exists EmptyString, EmptyString. split; [reflexivity|]. split; [reflexivity|].
    cbn [rep] in H. destruct greedy, (lo <=? n)%nat; try discriminate;
      destruct (k EmptyString); congruence.
  - cbn [rep] in H.
    assert (Hmore : forall r', (if below n hi && cls c then rep greedy lo hi cls k (S n) s
                                else None) = Some r' ->
                               exists mid rest, String c s = mid ++ rest
                                                /\ allOf cls mid = true /\ k rest = Some r').
    { intros r' H'. destruct (below n hi && cls c) eqn:B; [|discriminate].
      apply andb_true_iff in B. destruct B as [_ Hc].
      destruct (IH _ _ H') as (mid & rest & E & Hm & K).
      exists (String c mid), rest. split; [cbn [append]; now rewrite E|].
      split; [cbn [allOf]; now rewrite Hc, Hm|exact K]. }
    assert (Hstop : forall r', (if (lo <=? n)%nat then k (String c s) else None) = Some r' ->
                               exists mid rest, String c s = mid ++ rest
                                                /\ allOf cls mid = true /\ k rest = Some r').
    { intros r' H'. destruct (lo <=? n)%nat; [|discriminate].
      exists EmptyString, (String c s). now repeat split. }
    destruct greedy.
    + destruct (if below n hi && cls c then rep true lo hi cls k (S n) s else None) eqn:E.
      * apply Hmore. exact H.
      * now apply Hstop.
    + destruct (if (lo <=? n)%nat then k (String c s) else None) eqn:E.
      * apply Hstop. exact H.
      * now apply Hmore.
Qed.

Lemma group_inv (r : regex) (cls : ascii -> bool) (opened caps : list string)
    (s : string) (res : list string * string) :
  run (Open :: Rep true 1 None cls :: Close :: r) opened caps s = Some res ->
  exists d rest caps',
    s = d ++ rest /\ allOf cls d = true /\ run r opened caps' rest = Some res.
Proof.
  cbn [run]. intros H.
  destruct (rep_inv_class _ _ _ _ _ _ _ _ H) as (d & rest & E & Hd & K).
  exists d, rest. cbn [run] in K. eexists. split; [exact E|]. split; [exact Hd|exact K].
Qed.

Lemma lit_inv (l : string) (r : regex) (opened caps : list string)
    (s : string) (res : list string * string) :
  run (Lit l :: r) opened caps s = Some res ->
  exists s', s = l ++ s' /\ run r opened caps s' = Some res.
Proof.
  cbn [run]. destruct (strip l s) as [s'|] eqn:E; [|discriminate].
  intros H. exists s'. split; [now apply strip_inv|exact H].
Qed.

(** A match of the bounds expression is written in digits. *)
Lemma bounds_inv (s : string) (m : result) :
  search boundsRegex s = Some m ->
  exists before d1 d2 d3 d4 after,
    s = before ++ boundsText d1 d2 d3 d4 ++ after
    /\ allOf isDigit d1 = true /\ allOf isDigit d2 = true
    /\ allOf isDigit d3 = true /\ allOf isDigit d4 = true.
Proof.
  intros H. destruct (search_inv _ _ _ H) as (before & t & Es & Ht).
  unfold exec_at in Ht.
  destruct (run boundsRegex [] [] t) as [res|] eqn:R; [|discriminate]. clear Ht.
  unfold boundsRegex in R.
  destruct (lit_inv _ _ _ _ _ _ R) as (t1 & E1 & R1).
  destruct (group_inv _ _ _ _ _ _ R1) as (d1 & t2 & c1 & E2 & D1 & R2).
  destruct (lit_inv _ _ _ _ _ _ R2) as (t3 & E3 & R3).
  destruct (group_inv _ _ _ _ _ _ R3) as (d2 & t4 & c2 & E4 & D2 & R4).
  destruct (lit_inv _ _ _ _ _ _ R4) as (t5 & E5 & R5).
  destruct (group_inv _ _ _ _ _ _ R5) as (d3 & t6 & c3 & E6 & D3 & R6).
  destruct (lit_inv _ _ _ _ _ _ R6) as (t7 & E7 & R7).
  destruct (group_inv _ _ _ _ _ _ R7) as (d4 & t8 & c4 & E8 & D4 & R8).
  destruct (lit_inv _ _ _ _ _ _ R8) as (t9 & E9 & _).
  exists before, d1, d2, d3, d4, t9. split; [|now repeat split].
  subst. unfold boundsText. now rewrite !string_app_assoc.
Qed.

Abbreviation numChar := (fun c : ascii => isDigit c || Ascii.eqb c "-").

Lemma countChar_app (c : ascii) (a b : string) :
  countChar c (a ++ b) = (countChar c a + countChar c b)%nat.
Proof. induction a as [|x a IH]; cbn [append countChar]; [reflexivity|rewrite IH; lia]. Qed.

Lemma countChar_none (cls : ascii -> bool) (c : ascii) (s : string) :
  cls c = false -> allOf cls s = true -> countChar c s = 0%nat.
Proof.
  intros Hc. induction s as [|a s IH]; [reflexivity|]. cbn [allOf countChar].
  intros H. apply andb_true_iff in H. destruct H as [Ha Hs].
  destruct (Ascii.eqb_spec a c) as [->|_]; [congruence|]. now rewrite IH.
Qed.

(** Two texts cut at the first occurrence of a character agree piece by
    piece. *)
Lemma cut_unique (cls : ascii -> bool) (c : ascii) (a b x y : string) :
  cls c = false -> allOf cls a = true -> allOf cls b = true ->
  a ++ String c x = b ++ String c y -> a = b /\ x = y.
Proof.
  intros Hc. revert b. induction a as [|p a IH]; intros b Ha Hb E.
  - destruct b as [|q b]; [injection E as <-; now split|].
    cbn [append] in E. injection E as <- _. cbn [allOf] in Hb.
    apply andb_true_iff in Hb. destruct Hb. congruence.
  - cbn [allOf] in Ha. apply andb_true_iff in Ha. destruct Ha as [Hp Ha].
    destruct b as [|q b].
    + cbn [append] in E. injection E as -> _. congruence.
    + cbn [allOf] in Hb. apply andb_true_iff in Hb. destruct Hb as [_ Hb].
      cbn [append] in E. injection E as <- E.
      destruct (IH b Ha Hb E) as [-> ->]. now split.
Qed.

Lemma digit_numChar (s : string) : allOf isDigit s = true -> allOf numChar s = true.
Proof. apply allOf_impl. intros c H. now rewrite H. Qed.

Lemma signed_numChar (z : Z) : allOf numChar (signed z) = true.
Proof.
  unfold signed. destruct (z <? 0)%Z.
  - cbn [append allOf]. apply digit_numChar, numeral_digits.
  - apply digit_numChar, numeral_digits.
Qed.

Lemma signed_negative (z : Z) : (z < 0)%Z -> allOf isDigit (signed z) = false.
Proof.
  intros H. unfold signed. apply Z.ltb_lt in H. rewrite H. reflexivity.
Qed.

(** A bounds text with a negative coordinate holds no match of the bounds
    expression. *)
Lemma signed_bounds_no_match (z1 z2 z3 z4 : Z) :
  (z1 < 0 \/ z2 < 0 \/ z3 < 0 \/ z4 < 0)%Z ->
  search boundsRegex (boundsText (signed z1) (signed z2) (signed z3) (signed z4)) = None.
Proof.
  intros Hneg.
  destruct (search boundsRegex _) as [m|] eqn:S; [exfalso|reflexivity].
  destruct (bounds_inv _ _ S) as (before & d1 & d2 & d3 & d4 & after & E & D1 & D2 & D3 & D4).
  pose proof (signed_numChar z1) as S1. pose proof (signed_numChar z2) as S2.
  pose proof (signed_numChar z3) as S3. pose proof (signed_numChar z4) as S4.
  pose proof (digit_numChar _ D1) as N1. pose proof (digit_numChar _ D2) as N2.
  pose proof (digit_numChar _ D3) as N3. pose proof (digit_numChar _ D4) as N4.
  assert (C : countChar "[" before = 0%nat).
  { apply (f_equal (countChar "[")) in E. unfold boundsText in E.
    repeat (rewrite ?countChar_app in E; cbn [countChar append] in E).
    cbn [Ascii.eqb Bool.eqb] in E.
    rewrite (countChar_none numChar "[" _ eq_refl S1), (countChar_none numChar "[" _ eq_refl S2),
      (countChar_none numChar "[" _ eq_refl S3), (countChar_none numChar "[" _ eq_refl S4),
      (countChar_none numChar "[" _ eq_refl N1), (countChar_none numChar "[" _ eq_refl N2),
      (countChar_none numChar "[" _ eq_refl N3), (countChar_none numChar "[" _ eq_refl N4) in E.
    lia. }
  destruct before as [|b before].
  - unfold boundsText in E. cbn [append] in E. injection E as E.
    repeat (rewrite string_app_assoc in E; cbn [append] in E).
    destruct (cut_unique numChar "," _ _ _ _ eq_refl S1 N1 E) as [X1 Y1].
    destruct (cut_unique numChar "]" _ _ _ _ eq_refl S2 N2 Y1) as [X2 Y2].
    cbn [append] in Y2. injection Y2 as Y2.
    destruct (cut_unique numChar "," _ _ _ _ eq_refl S3 N3 Y2) as [X3 Y3].
    destruct (cut_unique numChar "]" _ _ _ _ eq_refl S4 N4 Y3) as [X4 _].
    destruct Hneg as [H|[H|[H|H]]]; apply signed_negative in H; congruence.
  - unfold boundsText in E. cbn [append] in E. injection E as <- _.
    cbn [countChar Ascii.eqb Bool.eqb] in C. discriminate C.
Qed.

Lemma roundHalfEven_nonneg (q : Q) : (0 <= q)%Q -> (0 <= roundHalfEven q)%Z.
Proof.
  intros H. unfold roundHalfEven.
  assert (F : (0 <= Qfloor q)%Z) by (change 0%Z with (Qfloor 0); now apply Qfloor_resp_le).
  destruct (q - inject_Z (Qfloor q) ?= 1 # 2)%Q; [destruct (Z.even (Qfloor q))| |]; lia.
Qed.

Lemma toDouble_nonneg (q : Q) : (0 <= q)%Q -> (0 <= toDouble q)%Q.
Proof.
  intros H. unfold toDouble. destruct (Qeq_bool q 0); [apply Qle_refl|].
  rewrite Qred_correct.
  pose proof (pow2_pos (Z.max (-1074) (binade (Qabs q) - 52))) as P.
  apply Qmult_le_0_compat; [|now apply Qlt_le_weak].
  change 0%Q with (inject_Z 0). rewrite <- Zle_Qle. apply roundHalfEven_nonneg.
  apply Qle_shift_div_l; [exact P|]. now rewrite Qmult_0_l.
Qed.

Lemma parseDigits_nonneg (s : string) :
  forall acc, (0 <= acc)%Z -> (0 <= parseDigits acc s)%Z.
Proof.
  induction s as [|c s IH]; intros acc Hacc; cbn [parseDigits]; [exact Hacc|].
  destruct (isDigit c) eqn:E; [|exact Hacc].
  apply IH. unfold isDigit in E. apply andb_true_iff in E. destruct E as [E _].
  apply Nat.leb_le in E. unfold digitValue. lia.
Qed.

Lemma parseInt_nonneg (s : string) : (0 <= parseInt s)%Q.
Proof.
  unfold parseInt. apply toDouble_nonneg.
  change 0%Q with (inject_Z 0). rewrite <- Zle_Qle. now apply parseDigits_nonneg.
Qed.

(** X26.  The Android parser yields no element at a negative position.  A
    node of a dump whose bounds attribute writes one of its four coordinates
    with a minus sign is left out: the parse is that of the dump without the
    node.  And the horizontal and the vertical position of every element of
    every parse are zero or more. *)
Theorem parseUiXml_skips_negative :
  (forall (before : string) (earlier later : list Node) (n : Node) (z1 z2 z3 z4 : Z),
      noNodeStart before = true ->
      forallb isNode (earlier ++ n :: later) = true ->
      extractAttr (node_attrs n) "bounds"
      = Some (boundsText (signed z1) (signed z2) (signed z3) (signed z4)) ->
      (z1 < 0 \/ z2 < 0 \/ z3 < 0 \/ z4 < 0)%Z ->
      parseUiXml (document before (earlier ++ n :: later))
      = parseUiXml (document before (earlier ++ later)))
  /\ (forall (xml : string) (el : UiElement),
         In el (parseUiXml xml) ->
         (0 <= x (bounds el))%Q /\ (0 <= y (bounds el))%Q).
Proof.
  split.
  - intros before earlier later n z1 z2 z3 z4 Hb Hn Hattr Hneg.
    apply document_skip; [exact Hb|exact Hn|].
    unfold hasBounds. rewrite Hattr.
    change (default EmptyString (Some ?x)) with x.
    now rewrite (signed_bounds_no_match _ _ _ _ Hneg).
  - intros xml el H. unfold parseUiXml in H.
    destruct (parseNodes_In _ _ _ H) as (i & attrs & _ & Hp).
    unfold parseNode in Hp.
    destruct (search boundsRegex (default EmptyString (extractAttr attrs "bounds")));
      [|discriminate].
    injection Hp as <-. cbn [bounds x y]. split; apply parseInt_nonneg.
Qed.

End NegativePositions.

Section NegativePositionRuns.
Import Js Types Regex Android Notions MoreNotions.

Lemma parseUiXml_skips_negative_witness :
  parseUiXml (document sampleBefore [settingsNode; offscreenNode; searchNode])
  = parseUiXml (document sampleBefore [settingsNode; searchNode]).
Proof.
  apply (proj1 parseUiXml_skips_negative sampleBefore [settingsNode] [searchNode]
           offscreenNode (-80)%Z 100%Z 0%Z 200%Z); try reflexivity.
  left. reflexivity.
Defined.

End NegativePositionRuns.

(** ** The element filter on the iOS elements *)

Section IosFilterProperties.
Import Js Types UiFilter Notions MoreNotions.

(** Every line that parses has its element in the result. *)
Lemma parseLines_complete (JSON_parse : string -> option Idb.Entry) (lines : list string) :
  forall i line entry,
    In line lines -> JSON_parse line = Some entry ->
    exists j, In (Ios.entryElement j entry) (Ios.parseLines JSON_parse i lines).
Proof.
  induction lines as [|l lines IH]; intros i line entry Hin Hp; [contradiction|].
  cbn [Ios.parseLines]. destruct Hin as [->|Hin].
  - rewrite Hp. exists i. now left.
  - destruct (JSON_parse l) as [e|].
    + destruct (IH (S i) line entry Hin Hp) as [j Hj]. exists j. now right.
    + exact (IH i line entry Hin Hp).
Qed.

(** X27.  On iOS an element is clickable exactly when its record is not
    disabled, so the default filter keeps the element of every record that
    parses and is not disabled, whatever its text; the elements it drops are
    disabled and have a blank text. *)
Theorem ios_filter_keeps_enabled
    (JSON_parse : string -> option Idb.Entry) (output : string) :
  (forall line entry,
      In line (split LF (trim output)) ->
      JSON_parse line = Some entry ->
      Idb.enabled entry <> Some false ->
      exists i,
        In (Ios.entryElement i entry)
           (filterUiElements (Ios.parseIdbDescribeAll JSON_parse output) None))
  /\ (forall el,
         In el (Ios.parseIdbDescribeAll JSON_parse output) ->
         ~ In el (filterUiElements (Ios.parseIdbDescribeAll JSON_parse output) None) ->
         enabled el = Some false /\ trim (text el) = EmptyString).
Proof.
  split.
  - intros line entry Hin Hp Hen.
    destruct (parseLines_complete JSON_parse _ 0 line entry Hin Hp) as [i Hi].
    exists i. unfold filterUiElements. cbn [default].
    change (default false None) with false. cbv iota.
    apply List.filter_In. split; [exact Hi|].
    unfold relevant, Ios.entryElement. cbn [clickable].
    destruct (Idb.enabled entry) as [[|]|]; [apply orb_true_r|congruence|apply orb_true_r].
  - intros el Hin Hout. unfold filterUiElements in Hout.
    change (default false None) with false in Hout. cbv iota in Hout.
    assert (R : relevant el = false).
    { destruct (relevant el) eqn:R; [|reflexivity].
      exfalso. apply Hout. apply List.filter_In. now split. }
    apply relevant_false in R. destruct R as [Ht Hc].
    split; [|exact Ht].
    unfold Ios.parseIdbDescribeAll in Hin.
    destruct (parseLines_In _ _ _ _ Hin) as (i & line & entry & _ & _ & ->).
    unfold Ios.entryElement in *. cbn [enabled clickable] in *. now rewrite Hc.
Qed.

End IosFilterProperties.

Section IosFilterRuns.
Import Js Types UiFilter Notions MoreNotions.

(** The search field of the sample has an empty title and no enabled flag:
    its element has no text, and the filter keeps it. *)
Lemma ios_filter_keeps_enabled_witness :
  exists i,
    In (Ios.entryElement i searchFieldEntry)
       (filterUiElements (Ios.parseIdbDescribeAll readSearchField searchFieldLine) None).
Proof.
  apply (proj1 (ios_filter_keeps_enabled readSearchField searchFieldLine)
           searchFieldLine searchFieldEntry).
  - vm_compute. left. reflexivity.
  - vm_compute. reflexivity.
  - discriminate.
Defined.

End IosFilterRuns.
